(** * API-101: the in-memory book store and its request handlers

    A shallow embedding of [src/server.js]: the Express handlers for
    [/api/books], [/api/users] and [/api/calculate] become functions from
    the request (path segment, query, headers, body) and the store to a
    response and the store afterwards.

    Conventions of the model:
    - a JavaScript value is a term of [value]; an object is the list of its
      own properties in enumeration order;
    - a number is [NaN], an infinity or the rational it denotes. What the
      code computes with [+], [-], [*], [/] and [parseInt] is rounded to
      binary64 ([Binary64.round]); the one product taken exactly is that of
      [Math.random()] (see [random_below]). The two zeros are one number:
      the server never tells them apart. The two counters are integers that
      only [++] changes, which is exact as long as they stay below 2^53;
    - a string is a sequence of code units below 256;
    - [undefined] stands for an absent property, header or query parameter;
    - an object comes from [JSON.parse] or from the query parser, so its
      properties hold values and none holds a function;
    - an exception escaping a handler reaches the error middleware at the
      end of [server.js], which answers 500. *)

From Stdlib Require Import ZArith QArith Qabs String Ascii List Lia Bool Sorted.
From stdpp Require Import base list.
Import ListNotations.

Open Scope string_scope.
Open Scope list_scope.
Open Scope Z_scope.

(** ** Values *)

#[local] Set Warnings "-register-all".

Inductive number : Type :=
| NaN
| Inf (negative : bool)
| Fin (q : Q).

Inductive value : Type :=
| VUndefined
| VNull
| VBool (b : bool)
| VNum (n : number)
| VStr (s : string)
| VArr (l : list value)
| VObj (o : list (string * value)).

Definition obj : Type := list (string * value).

Definition of_Z (z : Z) : number := Fin (inject_Z z).
Definition VInt (z : Z) : value := VNum (of_Z z).

(** ** Exceptions *)

(** What evaluating an expression gives: a value, or an exception with its
    [message]. *)
Inductive outcome (A : Type) : Type :=
| Return (a : A)
| Throw (message : string).
Arguments Return {A} a.
Arguments Throw {A} message.

Definition bind {A B} (x : outcome A) (f : A -> outcome B) : outcome B :=
  match x with
  | Return a => f a
  | Throw m => Throw m
  end.

Notation "x <- e1 ; e2" := (bind e1 (fun x => e2))
  (at level 100, e1 at next level, right associativity).

(** ** Rounding to binary64 *)

Module Binary64.

(** [n / d] divided by [2 ^ s], as a fraction of two integers. *)
Definition scaled (n d s : Z) : Z * Z :=
  if 0 <=? s then (n, d * 2 ^ s) else (n * 2 ^ (- s), d).

(** The [e] with [2 ^ e <= n / d < 2 ^ (e + 1)], for positive [n] and
    [d]. *)
Definition exponent (n d : Z) : Z :=
  let k := Z.log2 n - Z.log2 d in
  let (N, D) := scaled n d k in
  if D <=? N then k else k - 1.

(** The integer nearest to [N / D], and the even one of the two when both
    are as near. *)
Definition nearest_even (N D : Z) : Z :=
  let f := N / D in
  match 2 * (N mod D) ?= D with
  | Lt => f
  | Gt => f + 1
  | Eq => if Z.even f then f else f + 1
  end.

(** The binary64 number nearest to [q], ties to even: 53 significant bits
    from the exponent of [q] on, that exponent being at least -1022, and an
    infinity from 2^1024 on. The fraction is taken in lowest terms, and
    returned so. *)
Definition round (q : Q) : number :=
  let n := Qnum (Qred q) in
  let d := Zpos (Qden (Qred q)) in
  if n =? 0 then Fin 0
  else
    let e := Z.max (exponent (Z.abs n) d) (-1022) in
    let s := e - 52 in
    let (N, D) := scaled (Z.abs n) d s in
    let m := nearest_even N D in
    if 0 <=? s then
      if 2 ^ 1024 <=? m * 2 ^ s then Inf (n <? 0)
      else Fin (Z.sgn n * m * 2 ^ s # 1)
    else Fin (Qred (Z.sgn n * m # Z.to_pos (2 ^ (- s)))).

(** The rational [k * 2 ^ j]. *)
Definition dyadic (k j : Z) : Q :=
  if 0 <=? j then inject_Z (k * 2 ^ j) else k # Z.to_pos (2 ^ (- j)).

(** The finite binary64 numbers: a significand of at most 53 bits and an
    exponent from -1074 to 971. *)
Definition finite (x : Q) : Prop :=
  exists k j, Z.abs k < 2 ^ 53 /\ -1074 <= j <= 971 /\ x == dyadic k j.

End Binary64.

(** ** The language's operations *)

Module Js.

(** [ToBoolean]: what [!x], [x || y] and [if (x)] test. *)
Definition num_truthy (n : number) : bool :=
  match n with
  | NaN => false
  | Inf _ => true
  | Fin q => negb (Qeq_bool q 0)
  end.

Definition str_truthy (s : string) : bool :=
  match s with
  | EmptyString => false
  | String _ _ => true
  end.

Definition to_boolean (v : value) : bool :=
  match v with
  | VUndefined | VNull => false
  | VBool b => b
  | VNum n => num_truthy n
  | VStr s => str_truthy s
  | VArr _ | VObj _ => true
  end.

(** [x || y] *)
Definition or_else (x y : value) : value :=
  if to_boolean x then x else y.

(** [typeof x] *)
Definition typeof (v : value) : string :=
  match v with
  | VUndefined => "undefined"
  | VNull | VArr _ | VObj _ => "object"
  | VBool _ => "boolean"
  | VNum _ => "number"
  | VStr _ => "string"
  end.

(** [===] on numbers: [NaN] equals nothing. *)
Definition num_eq (m n : number) : bool :=
  match m, n with
  | Fin p, Fin q => Qeq_bool p q
  | Inf s, Inf t => Bool.eqb s t
  | _, _ => false
  end.

(** [v === n] for a number [n]: a value of another type is never equal. *)
Definition strict_eq_num (v : value) (n : number) : bool :=
  match v with
  | VNum m => num_eq m n
  | _ => false
  end.

(** [v === s] for a string [s]. *)
Definition strict_eq_str (v : value) (s : string) : bool :=
  match v with
  | VStr t => String.eqb t s
  | _ => false
  end.

(** *** Objects *)

(** [o[k]], [o.k] and the destructuring [const { k } = o], on own
    properties: what an object inherits from its prototype is not
    represented. *)
Fixpoint get (k : string) (o : obj) : value :=
  match o with
  | [] => VUndefined
  | (k', v) :: o' => if String.eqb k k' then v else get k o'
  end.

(** [Object.keys(o)] *)
Definition keys (o : obj) : list string := map fst o.

Definition has_key (k : string) (o : obj) : bool :=
  existsb (String.eqb k) (keys o).

(** [o[k] = v]: an existing property keeps its place, a new one goes last.
    (The language enumerates keys that are array indices before the
    others; that reordering is not represented.) *)
Fixpoint set (k : string) (v : value) (o : obj) : obj :=
  match o with
  | [] => [(k, v)]
  | (k', v') :: o' =>
      if String.eqb k k' then (k, v) :: o' else (k', v') :: set k v o'
  end.

(** The spread [{ ...target, ...source }] continued: every own key of
    [source], in order, is read from [source] and written to [target]. *)
Definition assign (target source : obj) : obj :=
  fold_left (fun acc k => set k (get k source) acc) (keys source) target.

(** [{ ...o }] *)
Definition spread (o : obj) : obj := assign [] o.

(** *** Arrays *)

(** [a.find(p)]; [None] is [undefined]. *)
Definition find {A} (p : A -> bool) (a : list A) : option A := List.find p a.

(** [a.findIndex(p)]; [None] is the index -1. *)
Fixpoint findIndex {A} (p : A -> bool) (a : list A) : option nat :=
  match a with
  | [] => None
  | x :: a' => if p x then Some O else option_map S (findIndex p a')
  end.

(** [a.splice(i, 1)]: the removed elements and the array afterwards. *)
Definition splice1 {A} (i : nat) (a : list A) : list A * list A :=
  (firstn 1 (skipn i a), firstn i a ++ skipn (S i) a).

(** [a.slice(0, end)]: [NaN] is taken as 0, a negative [end] counts from
    the end of the array, and the bounds are clamped to the array. The
    fractional part of [end] is dropped towards zero. *)
Definition slice0 {A} (a : list A) (e : number) : list A :=
  match e with
  | NaN => []
  | Inf true => []
  | Inf false => a
  | Fin q =>
      let n := Z.quot (Qnum q) (Zpos (Qden q)) in
      let len := Z.of_nat (length a) in
      let final := if n <? 0 then Z.max (len + n) 0 else Z.min n len in
      firstn (Z.to_nat final) a
  end.

(** [a.filter(p)] for a callback that can throw: the elements are visited
    in order and the first exception ends the call. *)
Fixpoint filter_throwing {A} (p : A -> outcome bool) (a : list A)
  : outcome (list A) :=
  match a with
  | [] => Return []
  | x :: a' =>
      b <- p x;
      r <- filter_throwing p a';
      Return (if b then x :: r else r)
  end.

(** *** Sorting *)

(** A comparator that is consistent on the elements of [a], as the
    language defines it: being equal ([cmp x y] is 0) is reflexive,
    symmetric and transitive, and being before (negative) and being after
    (positive) are transitive. *)
Definition consistent {A} (cmp : A -> A -> Z) (a : list A) : Prop :=
  forall x y z, x ∈ a -> y ∈ a -> z ∈ a ->
    cmp x x = 0
    /\ (cmp x y = 0 -> cmp y x = 0)
    /\ (cmp x y = 0 -> cmp y z = 0 -> cmp x z = 0)
    /\ (cmp x y < 0 -> cmp y z < 0 -> cmp x z < 0)
    /\ (0 < cmp x y -> 0 < cmp y z -> 0 < cmp x z).

(** The list that [a.sort(cmp)] leaves for a consistent comparator: the
    language asks for a stable sort, and with such a comparator every
    stable sort leaves this list, in which [x] moves behind [y] only when
    [cmp x y] is positive. For another comparator the order is the
    engine's own choice. *)
Fixpoint insert_sorted {A} (cmp : A -> A -> Z) (x : A) (a : list A) : list A :=
  match a with
  | [] => [x]
  | y :: a' => if 0 <? cmp x y then y :: insert_sorted cmp x a' else x :: a
  end.

Definition stable_sort {A} (cmp : A -> A -> Z) (a : list A) : list A :=
  fold_right (insert_sorted cmp) [] a.

(** *** parseInt *)

Definition is_white_space (c : ascii) : bool :=
  let n := Z.of_nat (nat_of_ascii c) in
  ((9 <=? n) && (n <=? 13)) || (n =? 32) || (n =? 160).

Fixpoint trim_start (s : string) : string :=
  match s with
  | String c s' => if is_white_space c then trim_start s' else s
  | EmptyString => EmptyString
  end.

(** The value of [c] as a digit of the given radix. *)
Definition digit_value (radix : Z) (c : ascii) : option Z :=
  let n := Z.of_nat (nat_of_ascii c) in
  let d :=
    if (48 <=? n) && (n <=? 57) then n - 48
    else if (97 <=? n) && (n <=? 122) then n - 87
    else if (65 <=? n) && (n <=? 90) then n - 55
    else 36 in
  if d <? radix then Some d else None.

(** The integer written by the longest prefix of digits. *)
Fixpoint digits_prefix (radix : Z) (s : string) (acc : Z) : Z :=
  match s with
  | String c s' =>
      match digit_value radix c with
      | Some d => digits_prefix radix s' (acc * radix + d)
      | None => acc
      end
  | EmptyString => acc
  end.

(** The number for the digits read, [NaN] when there is none. *)
Definition parse_digits (radix : Z) (s : string) : number :=
  match s with
  | String c _ =>
      match digit_value radix c with
      | Some _ => Binary64.round (inject_Z (digits_prefix radix s 0))
      | None => NaN
      end
  | EmptyString => NaN
  end.

Definition num_neg (n : number) : number :=
  match n with
  | NaN => NaN
  | Inf s => Inf (negb s)
  | Fin q => Fin (- q)
  end.

(** After the sign, [0x] or [0X] selects radix 16. *)
Definition parse_unsigned (s : string) : number :=
  match s with
  | String "0" (String "x" s') | String "0" (String "X" s') =>
      parse_digits 16 s'
  | _ => parse_digits 10 s
  end.

(** [parseInt(s)] with no radix argument. *)
Definition parseInt (s : string) : number :=
  match trim_start s with
  | String "-" s' => num_neg (parse_unsigned s')
  | String "+" s' => parse_unsigned s'
  | s' => parse_unsigned s'
  end.

End Js.

Module Str.

(** [s.toLowerCase()] on code units below 256: the letters A-Z and the
    accented capitals 192-222 (all but the sign 215) move up by 32. *)
Definition lower_char (c : ascii) : ascii :=
  let n := Z.of_nat (nat_of_ascii c) in
  if ((65 <=? n) && (n <=? 90))
     || ((192 <=? n) && (n <=? 222) && negb (n =? 215))
  then ascii_of_nat (Z.to_nat (n + 32))
  else c.

Fixpoint to_lower (s : string) : string :=
  match s with
  | EmptyString => EmptyString
  | String c s' => String (lower_char c) (to_lower s')
  end.

(** [s < t] between strings: the first code unit that differs decides,
    and a proper prefix comes first. *)
Fixpoint lt (s t : string) : bool :=
  match s, t with
  | _, EmptyString => false
  | EmptyString, String _ _ => true
  | String c s', String d t' =>
      let m := nat_of_ascii c in
      let n := nat_of_ascii d in
      if (m <? n)%nat then true
      else if (n <? m)%nat then false
      else lt s' t'
  end.

End Str.

Module Num.

(** Is the rational negative? *)
Definition negative (q : Q) : bool := Qnum q <? 0.

(** [x + y] *)
Definition add (x y : number) : number :=
  match x, y with
  | NaN, _ | _, NaN => NaN
  | Inf s, Inf t => if Bool.eqb s t then Inf s else NaN
  | Inf s, Fin _ | Fin _, Inf s => Inf s
  | Fin p, Fin q => Binary64.round (p + q)
  end.

(** [x - y] *)
Definition sub (x y : number) : number :=
  match x, y with
  | NaN, _ | _, NaN => NaN
  | Inf s, Inf t => if Bool.eqb s t then NaN else Inf s
  | Inf s, Fin _ => Inf s
  | Fin _, Inf t => Inf (negb t)
  | Fin p, Fin q => Binary64.round (p - q)
  end.

(** [x * y] *)
Definition mul (x y : number) : number :=
  match x, y with
  | NaN, _ | _, NaN => NaN
  | Inf s, Inf t => Inf (xorb s t)
  | Inf s, Fin q | Fin q, Inf s =>
      if Qeq_bool q 0 then NaN else Inf (xorb s (negative q))
  | Fin p, Fin q => Binary64.round (p * q)
  end.

(** [x / y]. A divisor zero is taken as the positive zero; the language
    gives the opposite infinity for the negative one, but the handler
    divides by no zero. *)
Definition div (x y : number) : number :=
  match x, y with
  | NaN, _ | _, NaN => NaN
  | Inf _, Inf _ => NaN
  | Inf s, Fin q => Inf (xorb s (negative q))
  | Fin _, Inf _ => Fin 0
  | Fin p, Fin q =>
      if Qeq_bool q 0
      then if Qeq_bool p 0 then NaN else Inf (negative p)
      else Binary64.round (p / q)
  end.

(** [Math.floor(x)] *)
Definition floor (x : number) : number :=
  match x with
  | NaN => NaN
  | Inf s => Inf s
  | Fin q => of_Z (Qnum q / Zpos (Qden q))
  end.

(** [x >= y], [x <= y] and [x < y] between numbers: false when one is
    [NaN]. *)
Definition ge (x y : number) : bool :=
  match x, y with
  | NaN, _ | _, NaN => false
  | Inf false, _ | _, Inf true => true
  | Inf true, _ | _, Inf false => false
  | Fin p, Fin q => Qle_bool q p
  end.

Definition le (x y : number) : bool := ge y x.

Definition lt (x y : number) : bool :=
  match x, y with
  | NaN, _ | _, NaN => false
  | _, _ => negb (ge x y)
  end.

(** [Math.min(x, y)] *)
Definition min (x y : number) : number :=
  match x, y with
  | NaN, _ | _, NaN => NaN
  | _, _ => if ge y x then x else y
  end.

(** [x || y] between numbers. *)
Definition or_else (x y : number) : number :=
  if Js.num_truthy x then x else y.

(** [x | 0]: the fraction is dropped and the integer wraps around to 32
    bits, signed. *)
Definition to_int32 (x : number) : Z :=
  match x with
  | NaN | Inf _ => 0
  | Fin q =>
      let t := Z.quot (Qnum q) (Zpos (Qden q)) in
      (t + 2 ^ 31) mod 2 ^ 32 - 2 ^ 31
  end.

(** [a[i]] for an array and a number: an element for an index within the
    array, [undefined] otherwise. *)
Definition at_index (a : list value) (i : number) : value :=
  match i with
  | NaN | Inf _ => VUndefined
  | Fin q =>
      if (Zpos (Qden q) =? 1) && (0 <=? Qnum q)
      then nth (Z.to_nat (Qnum q)) a VUndefined
      else VUndefined
  end.

End Num.

(** What is left to the engine running the server: the text of a number
    ([ToString], as in [`${a}`] and ["" + n]), the messages of the
    [TypeError] that [v.toLowerCase()] raises when [v] is not a string and
    of the one raised when [v] cannot be made a primitive value, and
    [a.sort(cmp)], of which the language fixes this: it leaves the list of
    [Js.stable_sort] when the comparator does not throw and is consistent
    on [a]. What it leaves otherwise is the engine's choice. *)
Class Engine : Type := {
  number_text : number -> string;
  lower_case_error : value -> string;
  primitive_error : value -> string;
  sort : (obj -> obj -> outcome Z) -> list obj -> outcome (list obj);
  sort_consistent : forall cmp pure a,
    (forall x y, x ∈ a -> y ∈ a -> cmp x y = Return (pure x y)) ->
    Js.consistent pure a ->
    sort cmp a = Return (Js.stable_sort pure a)
}.

(** [StringToNumber], the number that a string reads as, is left to the
    engine as well. *)
Class Coercion : Type := {
  to_number : string -> number
}.

(** ** The store *)

(** [books], [users], [nextBookId] and [nextUserId]. The two counters start
    as integers and only [++] changes them. *)
Record store : Type := {
  books : list obj;
  users : list obj;
  nextBookId : Z;
  nextUserId : Z
}.

Definition book (id : Z) (title author : string) (year : Z) (genre : string)
  : obj :=
  [("id", VInt id); ("title", VStr title); ("author", VStr author);
   ("year", VInt year); ("genre", VStr genre)].

Definition user (id : Z) (username email role : string) : obj :=
  [("id", VInt id); ("username", VStr username); ("email", VStr email);
   ("role", VStr role)].

Definition initial : store := {|
  books :=
    [book 1 "The API Design Book" "RESTful Roy" 2020 "Technology";
     book 2 "HTTP: The Definitive Guide" "Web Walker" 2019 "Technology";
     book 3 "JavaScript Mastery" "Code Carter" 2021 "Programming";
     book 4 "The Art of REST" "API Andy" 2022 "Technology"];
  users :=
    [user 1 "learner" "learner@api101.com" "student";
     user 2 "teacher" "teacher@api101.com" "admin"];
  nextBookId := 5;
  nextUserId := 3
|}.

Definition with_books (bs : list obj) (st : store) : store :=
  {| books := bs; users := users st;
     nextBookId := nextBookId st; nextUserId := nextUserId st |}.

(** ** Responses *)

(** The status code and the object sent as JSON. *)
Record response : Type := {
  status : Z;
  sent : obj
}.

(** [res.json(b)] *)
Definition json (b : obj) : response := {| status := 200; sent := b |}.

(** [res.status(code).json(b)] *)
Definition status_json (code : Z) (b : obj) : response :=
  {| status := code; sent := b |}.

(** The global error handler. *)
Definition internal_error (message : string) : response :=
  status_json 500
    [("success", VBool false);
     ("error", VStr "Internal server error");
     ("message", VStr message)].

Definition answer (r : outcome response) : response :=
  match r with
  | Return r => r
  | Throw m => internal_error m
  end.

Definition not_found : response :=
  status_json 404
    [("success", VBool false); ("error", VStr "Book not found")].

(** The callback [(b) => b.id === bookId]. *)
Definition has_id (bookId : number) (b : obj) : bool :=
  Js.strict_eq_num (Js.get "id" b) bookId.

(** ** The handlers *)

(** Each handler takes what it reads of the request: [id] is
    [req.params.id], [query] is [req.query], [headers] is [req.headers] and
    [body] is [req.body] (an array sent as body is the object of its
    indices). A handler that writes returns the store afterwards. *)

Section Handlers.

Context {engine : Engine} {coercion : Coercion}.

(** [ToString(v)]. An array is the texts of its elements with commas
    between them, [undefined] and [null] giving no text. An object is
    [[object Object]], unless it has a property [toString] of its own:
    that property is no function, [valueOf] returns no primitive value, and
    the conversion throws. *)
Fixpoint string_of (v : value) : outcome string :=
  match v with
  | VUndefined => Return "undefined"
  | VNull => Return "null"
  | VBool true => Return "true"
  | VBool false => Return "false"
  | VNum n => Return (number_text n)
  | VStr s => Return s
  | VArr l =>
      (fix join (l : list value) : outcome string :=
         match l with
         | [] => Return ""
         | x :: l' =>
             s <- match x with
                  | VUndefined | VNull => Return ""
                  | _ => string_of x
                  end;
             match l' with
             | [] => Return s
             | _ :: _ => r <- join l'; Return (s ++ "," ++ r)%string
             end
         end) l
  | VObj o =>
      if Js.has_key "toString" o then Throw (primitive_error v)
      else Return "[object Object]"
  end.

(** [ToPrimitive(v)]: an array or an object becomes its text. *)
Definition to_primitive (v : value) : outcome value :=
  match v with
  | VArr _ | VObj _ => s <- string_of v; Return (VStr s)
  | _ => Return v
  end.

(** [ToNumber] of a primitive value. *)
Definition prim_number (p : value) : number :=
  match p with
  | VUndefined => NaN
  | VNull => of_Z 0
  | VBool true => of_Z 1
  | VBool false => of_Z 0
  | VNum n => n
  | VStr s => to_number s
  | VArr _ | VObj _ => NaN
  end.

(** [ToNumber(v)] *)
Definition number_of (v : value) : outcome number :=
  p <- to_primitive v;
  Return (prim_number p).

(** [p < q] between primitive values: two strings are compared as
    strings, any other two as numbers. *)
Definition prim_lt (p q : value) : bool :=
  match p, q with
  | VStr s, VStr t => Str.lt s t
  | _, _ => Num.lt (prim_number p) (prim_number q)
  end.

(** [x < y] and [x > y]: both make [x] primitive first, then [y]. *)
Definition less_than (x y : value) : outcome bool :=
  p <- to_primitive x;
  q <- to_primitive y;
  Return (prim_lt p q).

Definition greater_than (x y : value) : outcome bool :=
  p <- to_primitive x;
  q <- to_primitive y;
  Return (prim_lt q p).

(** The method call [v.toLowerCase()]. *)
Definition toLowerCase (v : value) : outcome string :=
  match v with
  | VStr s => Return (Str.to_lower s)
  | _ => Throw (lower_case_error v)
  end.

(** *** GET /api/books *)

Definition same_genre (query b : obj) : outcome bool :=
  l <- toLowerCase (Js.get "genre" b);
  r <- toLowerCase (Js.get "genre" query);
  Return (String.eqb l r).

Definition filter_genre (query : obj) (result : list obj)
  : outcome (list obj) :=
  if Js.to_boolean (Js.get "genre" query)
  then Js.filter_throwing (same_genre query) result
  else Return result.

(** The comparator of the sort; [a[sortField]] takes the text of
    [sortField] as the key. *)
Definition by_field (sortField : value) (a b : obj) : outcome Z :=
  key <- string_of sortField;
  before <- less_than (Js.get key a) (Js.get key b);
  if before then Return (-1)
  else
    after <- greater_than (Js.get key a) (Js.get key b);
    if after then Return 1 else Return 0.

Definition sort_field (query : obj) (result : list obj)
  : outcome (list obj) :=
  if Js.to_boolean (Js.get "sort" query)
  then sort (by_field (Js.get "sort" query)) result
  else Return result.

Definition limit (query : obj) (result : list obj) : outcome (list obj) :=
  if Js.to_boolean (Js.get "limit" query)
  then
    text <- string_of (Js.get "limit" query);
    Return (Js.slice0 result (Js.parseInt text))
  else Return result.

Definition books_found (query : obj) (result : list obj) : response :=
  json
    [("success", VBool true);
     ("count", VInt (Z.of_nat (length result)));
     ("queryParams", VObj query);
     ("data", VArr (map VObj result))].

Definition get_books (query : obj) (st : store) : response :=
  answer (
    result <- filter_genre query (books st);
    result <- sort_field query result;
    result <- limit query result;
    Return (books_found query result)).

(** *** GET /api/books/:id *)

Definition get_book (id : string) (st : store) : response :=
  let bookId := Js.parseInt id in
  match Js.find (has_id bookId) (books st) with
  | None =>
      status_json 404
        [("success", VBool false);
         ("error", VStr "Book not found");
         ("requestedId", VNum bookId);
         ("tip", VStr ("Try an ID between 1 and "
                       ++ number_text (of_Z (nextBookId st - 1))))]
  | Some b =>
      json
        [("success", VBool true); ("pathParam", VStr id); ("data", VObj b)]
  end.

(** *** POST /api/books *)

(** [thisYear] is [new Date().getFullYear()]. *)
Definition post_book (thisYear : Z) (body : obj) (st : store)
  : response * store :=
  let title := Js.get "title" body in
  let author := Js.get "author" body in
  let year := Js.get "year" body in
  let genre := Js.get "genre" body in
  if negb (Js.to_boolean title) || negb (Js.to_boolean author) then
    (status_json 400
       [("success", VBool false);
        ("error", VStr "Missing required fields");
        ("required", VArr [VStr "title"; VStr "author"]);
        ("received", VObj body);
        ("tip",
         VStr "Send a JSON body with at least 'title' and 'author'")],
     st)
  else
    let newBook :=
      [("id", VInt (nextBookId st));
       ("title", title);
       ("author", author);
       ("year", Js.or_else year (VInt thisYear));
       ("genre", Js.or_else genre (VStr "General"))] in
    (status_json 201
       [("success", VBool true);
        ("message", VStr "Book created successfully!");
        ("data", VObj newBook)],
     {| books := books st ++ [newBook]; users := users st;
        nextBookId := nextBookId st + 1; nextUserId := nextUserId st |}).

(** *** PUT /api/books/:id *)

Definition put_book (id : string) (body : obj) (st : store)
  : response * store :=
  let bookId := Js.parseInt id in
  match Js.findIndex (has_id bookId) (books st) with
  | None => (not_found, st)
  | Some bookIndex =>
      let title := Js.get "title" body in
      let author := Js.get "author" body in
      let year := Js.get "year" body in
      let genre := Js.get "genre" body in
      if negb (Js.to_boolean title) || negb (Js.to_boolean author)
         || negb (Js.to_boolean year) || negb (Js.to_boolean genre)
      then
        (status_json 400
           [("success", VBool false);
            ("error",
             VStr "PUT requires ALL fields (title, author, year, genre)");
            ("tip",
             VStr "Use PATCH if you only want to update some fields")],
         st)
      else
        let replaced :=
          [("id", VNum bookId); ("title", title); ("author", author);
           ("year", year); ("genre", genre)] in
        (json
           [("success", VBool true);
            ("message", VStr "Book replaced completely!");
            ("method", VStr "PUT - Full replacement");
            ("data", VObj replaced)],
         with_books (<[bookIndex := replaced]> (books st)) st)
  end.

(** *** PATCH /api/books/:id *)

Definition patch_book (id : string) (body : obj) (st : store)
  : response * store :=
  let bookId := Js.parseInt id in
  match Js.findIndex (has_id bookId) (books st) with
  | None => (not_found, st)
  | Some bookIndex =>
      let current := nth bookIndex (books st) [] in
      let previousBook := Js.spread current in
      let updated :=
        Js.set "id" (VNum bookId) (Js.assign (Js.spread current) body) in
      (json
         [("success", VBool true);
          ("message", VStr "Book updated!");
          ("method", VStr "PATCH - Partial update");
          ("previous", VObj previousBook);
          ("updated", VObj updated);
          ("fieldsChanged", VArr (map VStr (Js.keys body)))],
       with_books (<[bookIndex := updated]> (books st)) st)
  end.

(** *** DELETE /api/books/:id *)

Definition delete_book (id : string) (st : store) : response * store :=
  let bookId := Js.parseInt id in
  match Js.findIndex (has_id bookId) (books st) with
  | None => (not_found, st)
  | Some bookIndex =>
      let (removed, rest) := Js.splice1 bookIndex (books st) in
      let deletedBook :=
        match removed with
        | b :: _ => VObj b
        | [] => VUndefined
        end in
      (json
         [("success", VBool true);
          ("message", VStr "Book deleted successfully!");
          ("deletedBook", deletedBook)],
       with_books rest st)
  end.

(** *** GET /api/users *)

Definition get_users (headers : obj) (st : store) : response :=
  let authHeader := Js.get "authorization" headers in
  if negb (Js.to_boolean authHeader) then
    status_json 401
      [("success", VBool false);
       ("error", VStr "No authorization header provided");
       ("tip", VStr "Add header: Authorization: Bearer secret-token-123")]
  else if negb (Js.strict_eq_str authHeader "Bearer secret-token-123") then
    status_json 403
      [("success", VBool false);
       ("error", VStr "Invalid token");
       ("received", authHeader);
       ("expected", VStr "Bearer secret-token-123")]
  else
    json
      [("success", VBool true);
       ("message", VStr "Authentication successful!");
       ("data", VArr (map VObj (users st)))].

(** *** POST /api/users *)

Definition post_user (headers body : obj) (st : store) : response * store :=
  let apiKey := Js.get "x-api-key" headers in
  if negb (Js.strict_eq_str apiKey "my-secret-api-key") then
    (status_json 401
       [("success", VBool false);
        ("error", VStr "Invalid or missing X-API-Key header");
        ("tip", VStr "Add header: X-API-Key: my-secret-api-key")],
     st)
  else
    let username := Js.get "username" body in
    let email := Js.get "email" body in
    let role := Js.get "role" body in
    if negb (Js.to_boolean username) || negb (Js.to_boolean email) then
      (status_json 400
         [("success", VBool false);
          ("error", VStr "Missing required fields: username, email")],
       st)
    else
      let newUser :=
        [("id", VInt (nextUserId st));
         ("username", username);
         ("email", email);
         ("role", Js.or_else role (VStr "student"))] in
      (status_json 201
         [("success", VBool true);
          ("message", VStr "User created!");
          ("data", VObj newUser)],
       {| books := books st; users := users st ++ [newUser];
          nextBookId := nextBookId st; nextUserId := nextUserId st + 1 |}).

(** *** POST /api/calculate *)

(** The number that a value of type number is. *)
Definition as_number (v : value) : number :=
  match v with
  | VNum n => n
  | _ => NaN
  end.

(** The answer with the result; the template of [formula] takes the text
    of each of the four values. *)
Definition calculated (operation a b : value) (result : number) : response :=
  answer (
    ta <- string_of a;
    to <- string_of operation;
    tb <- string_of b;
    tr <- string_of (VNum result);
    Return
      (json
         [("success", VBool true);
          ("operation", operation);
          ("a", a);
          ("b", b);
          ("result", VNum result);
          ("formula",
           VStr (ta ++ " " ++ to ++ " " ++ tb ++ " = " ++ tr))])).

Definition calculate (body : obj) : response :=
  let operation := Js.get "operation" body in
  let a := Js.get "a" body in
  let b := Js.get "b" body in
  if negb (String.eqb (Js.typeof a) "number")
     || negb (String.eqb (Js.typeof b) "number")
  then
    status_json 400
      [("success", VBool false);
       ("error", VStr "a and b must be numbers");
       ("received",
        VObj [("a", VStr (Js.typeof a)); ("b", VStr (Js.typeof b))])]
  else
    let x := as_number a in
    let y := as_number b in
    if Js.strict_eq_str operation "add" then
      calculated operation a b (Num.add x y)
    else if Js.strict_eq_str operation "subtract" then
      calculated operation a b (Num.sub x y)
    else if Js.strict_eq_str operation "multiply" then
      calculated operation a b (Num.mul x y)
    else if Js.strict_eq_str operation "divide" then
      if Js.num_eq y (of_Z 0) then
        status_json 400
          [("success", VBool false);
           ("error", VStr "Cannot divide by zero")]
      else calculated operation a b (Num.div x y)
    else
      status_json 400
        [("success", VBool false);
         ("error", VStr "Unknown operation");
         ("validOperations",
          VArr [VStr "add"; VStr "subtract"; VStr "multiply";
                VStr "divide"])].

End Handlers.

(** ** Integers as text *)

(** The decimal text of an integer: what a client writes as the identifier
    in a path, and what the language prints for an integer below 10^21. *)
Module Decimal.

Definition digit (d : Z) : ascii := ascii_of_nat (Z.to_nat (48 + d)).

Fixpoint decimal (fuel : nat) (z : Z) (acc : string) : string :=
  match fuel with
  | O => acc
  | S fuel' =>
      let acc' := String (digit (z mod 10)) acc in
      if z <? 10 then acc' else decimal fuel' (z / 10) acc'
  end.

Definition show (z : Z) : string :=
  if z <? 0
  then String "-" (decimal (Z.to_nat (Z.log2 (- z)) + 1) (- z) "")
  else decimal (Z.to_nat (Z.log2 z) + 1) z "".

End Decimal.

(** ** An engine to run examples with: its functions *)

Module Sample.

(** Integers print in decimal, as the language prints them below 10^21. A
    number that is not an integer prints as a fraction, which is not the
    language's decimal expansion. *)
Definition show (n : number) : string :=
  match n with
  | NaN => "NaN"
  | Inf false => "Infinity"
  | Inf true => "-Infinity"
  | Fin q =>
      if Z.eqb (Zpos (Qden q)) 1 then Decimal.show (Qnum q)
      else Decimal.show (Qnum q) ++ "/" ++ Decimal.show (Zpos (Qden q))
  end.

(** Sorting by insertion, from the last element to the first: [x] goes
    behind [y] when the comparator returns a positive number for them, and
    an exception of the comparator ends the sort. *)
Fixpoint insert_into (cmp : obj -> obj -> outcome Z) (x : obj) (a : list obj)
  : outcome (list obj) :=
  match a with
  | [] => Return [x]
  | y :: a' =>
      c <- cmp x y;
      if 0 <? c then r <- insert_into cmp x a'; Return (y :: r)
      else Return (x :: a)
  end.

Fixpoint sort (cmp : obj -> obj -> outcome Z) (a : list obj)
  : outcome (list obj) :=
  match a with
  | [] => Return []
  | x :: a' => r <- sort cmp a'; insert_into cmp x r
  end.

(** A string of decimal digits reads as the number it writes and the
    empty string as 0; any other string is taken as [NaN], though the
    language reads more of them as numbers (fractions, exponents, a sign,
    blanks around). *)
Fixpoint all_digits (s : string) : bool :=
  match s with
  | EmptyString => true
  | String c s' =>
      match Js.digit_value 10 c with
      | Some _ => all_digits s'
      | None => false
      end
  end.

Definition read (s : string) : number :=
  match s with
  | EmptyString => of_Z 0
  | _ => if all_digits s then Js.parse_digits 10 s else NaN
  end.

End Sample.

(** ** Identifiers in the store *)

(** The number a book carries as its [id], when it is an integer. *)
Definition book_id (b : obj) : option Z :=
  match Js.get "id" b with
  | VNum (Fin q) => if Z.eqb (Zpos (Qden q)) 1 then Some (Qnum q) else None
  | _ => None
  end.

(** The greatest identifier among the books, 0 when there is none. *)
Definition max_id (bs : list obj) : Z :=
  fold_right Z.max 0 (omap book_id bs).

(** Is a book with the identifier written [id] in the store? *)
Definition present (id : string) (st : store) : bool :=
  existsb (has_id (Js.parseInt id)) (books st).

(** The books carry the integers [ns], in this order. *)
Definition ids_are (bs : list obj) (ns : list Z) : Prop :=
  Forall2 (fun b n => Js.get "id" b = VInt n) bs ns.

(** Every book has a positive integer identifier below the counter, and no
    two books share one. *)
Definition sound (st : store) : Prop :=
  0 < nextBookId st
  /\ exists ns,
      ids_are (books st) ns /\ NoDup ns
      /\ Forall (fun n => 0 < n < nextBookId st) ns.

(** The stores the server goes through: each request that writes is one
    step. *)
Inductive reachable : store -> Prop :=
| reach_initial : reachable initial
| reach_post_book thisYear body st :
    reachable st -> reachable (post_book thisYear body st).2
| reach_put_book id body st :
    reachable st -> reachable (put_book id body st).2
| reach_patch_book id body st :
    reachable st -> reachable (patch_book id body st).2
| reach_delete_book id st :
    reachable st -> reachable (delete_book id st).2
| reach_post_user headers body st :
    reachable st -> reachable (post_user headers body st).2.

(** Two request bodies for the examples. *)
Definition two_fields : obj := [("title", VStr "T"); ("author", VStr "A")].

Definition four_fields (year : value) (genre : string) : obj :=
  [("title", VStr "T"); ("author", VStr "A"); ("year", year);
   ("genre", VStr genre)].

(** ** The other routes: what they need of the language *)

Module Text.

(** [s.includes(t)] *)
Fixpoint includes (s t : string) : bool :=
  if String.prefix t s then true
  else
    match s with
    | EmptyString => false
    | String _ s' => includes s' t
    end.

End Text.

(** [n.toString(16)] for an integer. *)
Module Hex.

Definition digit (d : Z) : ascii :=
  ascii_of_nat (Z.to_nat (if d <? 10 then 48 + d else 87 + d)).

Fixpoint digits (fuel : nat) (z : Z) (acc : string) : string :=
  match fuel with
  | O => acc
  | S fuel' =>
      let acc' := String (digit (z mod 16)) acc in
      if z <? 16 then acc' else digits fuel' (z / 16) acc'
  end.

Definition show (z : Z) : string :=
  if z <? 0
  then String "-" (digits (Z.to_nat (Z.log2 (- z)) + 1) (- z) "")
  else digits (Z.to_nat (Z.log2 z) + 1) z "".

End Hex.

(** ** The other routes *)

(** The table of [GET /api/status/:code]. A number names the property whose
    key is its text; the keys of this table are the decimal texts of these
    integers. *)
Definition status_message (meaning description : string) : obj :=
  [("meaning", VStr meaning); ("description", VStr description)].

Definition statusMessages : list (Z * obj) :=
  [(200, status_message "OK" "The request was successful");
   (201, status_message "Created" "A new resource was created");
   (204, status_message "No Content" "Success, but no content to return");
   (301, status_message "Moved Permanently"
           "Resource has moved to a new URL");
   (304, status_message "Not Modified" "Cached version is still valid");
   (400, status_message "Bad Request"
           "The request was malformed or invalid");
   (401, status_message "Unauthorized" "Authentication is required");
   (403, status_message "Forbidden" "You don't have permission");
   (404, status_message "Not Found" "The resource doesn't exist");
   (405, status_message "Method Not Allowed"
           "HTTP method not supported for this endpoint");
   (409, status_message "Conflict" "Request conflicts with current state");
   (429, status_message "Too Many Requests" "Rate limit exceeded");
   (500, status_message "Internal Server Error"
           "Something went wrong on the server");
   (502, status_message "Bad Gateway"
           "Invalid response from upstream server");
   (503, status_message "Service Unavailable"
           "Server is temporarily unavailable")].

(** [statusMessages[code]] *)
Definition status_entry (code : number) : value :=
  match code with
  | NaN | Inf _ => VUndefined
  | Fin q =>
      match List.find (fun e => Qeq_bool q (inject_Z e.1)) statusMessages with
      | Some e => VObj e.2
      | None => VUndefined
      end
  end.

(** The own properties that a spread [...v] copies. *)
Definition props_of (v : value) : obj :=
  match v with
  | VObj o => o
  | _ => []
  end.

(** [GET /api/status/:code]: the number given to [res.status] and the
    object given to [json]. *)
Definition get_status (code : string) : number * obj :=
  let code := Js.parseInt code in
  let info :=
    Js.or_else (status_entry code)
      (VObj (status_message "Unknown" "Not a standard status code")) in
  (code,
   Js.set "tip"
     (VStr "Try different codes: 200, 201, 400, 401, 403, 404, 500")
     (Js.assign [("statusCode", VNum code)] (props_of info))).

Definition quotes : list value :=
  [VStr "REST is a beautiful thing.";
   VStr "APIs make the world go round.";
   VStr "HTTP methods are your friends.";
   VStr "Status codes tell a story.";
   VStr "JSON is the universal language of APIs."].

Definition colors : list value :=
  [VStr "red"; VStr "blue"; VStr "green"; VStr "yellow"; VStr "purple";
   VStr "orange"].

(** [Math.floor(Math.random() * n)], for the value [r] that [Math.random]
    returns. The product is taken exactly. The code rounds it to binary64,
    which can move the floor by one; it stays below [n], as any [r] that
    [Math.random] returns is at most 1 - 2^-53. *)
Definition random_below (r : Q) (n : Z) : number :=
  Num.floor (Fin (r * inject_Z n)).

(** The callback of [replace] in the uuid: [random k] is the value that the
    call of [Math.random] number [k] returns. The product by 16 is exact in
    binary64. *)
Definition uuid_char (random : nat -> Q) (k : nat) (c : ascii) : string :=
  let r := Num.to_int32 (Fin (random k * inject_Z 16)) in
  let v := if Ascii.eqb c "x" then r else Z.lor (Z.land r 3) 8 in
  Hex.show v.

(** [s.replace(/[xy]/g, callback)], from call number [k] on. *)
Fixpoint replace_xy (random : nat -> Q) (k : nat) (s : string) : string :=
  match s with
  | EmptyString => EmptyString
  | String c s' =>
      if Ascii.eqb c "x" || Ascii.eqb c "y"
      then uuid_char random k c ++ replace_xy random (S k) s'
      else String c (replace_xy random k s')
  end.

(** [GET /api/random]; [timestamp] is [new Date().toISOString()]. *)
Definition get_random (random : nat -> Q) (timestamp : string) : response :=
  json
    [("success", VBool true);
     ("randomNumber", VNum (random_below (random 0%nat) 1000));
     ("randomQuote",
      Num.at_index quotes
        (random_below (random 1%nat) (Z.of_nat (length quotes))));
     ("randomColor",
      Num.at_index colors
        (random_below (random 2%nat) (Z.of_nat (length colors))));
     ("uuid",
      VStr (replace_xy random 3 "xxxxxxxx-xxxx-4xxx-yxxx-xxxxxxxxxxxx"));
     ("timestamp", VStr timestamp)].

Section OtherRoutes.

Context {engine : Engine} {coercion : Coercion}.

(** *** GET /api/search *)

(** The callback of the filter on [q]; [query] is [q.toLowerCase()]. *)
Definition matches_query (query : string) (b : obj) : outcome bool :=
  title <- toLowerCase (Js.get "title" b);
  if Text.includes title query then Return true
  else
    author <- toLowerCase (Js.get "author" b);
    if Text.includes author query then Return true
    else
      genre <- toLowerCase (Js.get "genre" b);
      Return (Text.includes genre query).

Definition filter_query (q : value) (results : list obj)
  : outcome (list obj) :=
  if Js.to_boolean q then
    query <- toLowerCase q;
    Js.filter_throwing (matches_query query) results
  else Return results.

(** The callbacks [book.year >= parseInt(minYear)] and
    [book.year <= parseInt(maxYear)]: [parseInt] takes the text of its
    argument, then the comparison takes the number of [book.year]. *)
Definition from_year (minYear : value) (b : obj) : outcome bool :=
  text <- string_of minYear;
  year <- number_of (Js.get "year" b);
  Return (Num.ge year (Js.parseInt text)).

Definition until_year (maxYear : value) (b : obj) : outcome bool :=
  text <- string_of maxYear;
  year <- number_of (Js.get "year" b);
  Return (Num.le year (Js.parseInt text)).

Definition filter_minYear (minYear : value) (results : list obj)
  : outcome (list obj) :=
  if Js.to_boolean minYear
  then Js.filter_throwing (from_year minYear) results
  else Return results.

Definition filter_maxYear (maxYear : value) (results : list obj)
  : outcome (list obj) :=
  if Js.to_boolean maxYear
  then Js.filter_throwing (until_year maxYear) results
  else Return results.

Definition matches_author (author : value) (b : obj) : outcome bool :=
  l <- toLowerCase (Js.get "author" b);
  r <- toLowerCase author;
  Return (Text.includes l r).

Definition filter_author (author : value) (results : list obj)
  : outcome (list obj) :=
  if Js.to_boolean author
  then Js.filter_throwing (matches_author author) results
  else Return results.

Definition search_found (query : obj) (results : list obj) : response :=
  json
    [("success", VBool true);
     ("searchCriteria", VObj query);
     ("resultsFound", VInt (Z.of_nat (length results)));
     ("data", VArr (map VObj results))].

Definition get_search (query : obj) (st : store) : response :=
  let q := Js.get "q" query in
  let minYear := Js.get "minYear" query in
  let maxYear := Js.get "maxYear" query in
  let author := Js.get "author" query in
  answer (
    results <- filter_query q (books st);
    results <- filter_minYear minYear results;
    results <- filter_maxYear maxYear results;
    results <- filter_author author results;
    Return (search_found query results)).

(** *** GET /api/slow *)

(** The delay given to [setTimeout]: [parseInt] takes the text of
    [req.query.delay]. *)
Definition slow_delay (query : obj) : outcome number :=
  text <- string_of (Js.get "delay" query);
  let delay := Num.or_else (Js.parseInt text) (of_Z 3000) in
  let maxDelay := of_Z 10000 in
  Return (Num.min delay maxDelay).

(** What the callback of [setTimeout] sends; [timestamp] is
    [new Date().toISOString()] at that moment. *)
Definition slow_answer (timestamp : string) (actualDelay : number)
  : response :=
  json
    [("success", VBool true);
     ("message",
      VStr ("Response after " ++ number_text actualDelay ++ "ms delay"));
     ("tip", VStr "Use ?delay=5000 to wait 5 seconds");
     ("timestamp", VStr timestamp)].

(** [GET /api/slow]: the delay of the timer, when one is set, and the
    answer, sent after that delay; an exception sets no timer and is
    answered at once. *)
Definition get_slow (timestamp : string) (query : obj)
  : option number * response :=
  match slow_delay query with
  | Return actualDelay => (Some actualDelay, slow_answer timestamp actualDelay)
  | Throw m => (None, internal_error m)
  end.

End OtherRoutes.

(** ** Requests that write, one after another *)

Inductive request : Type :=
| PostBook (thisYear : Z) (body : obj)
| PutBook (id : string) (body : obj)
| PatchBook (id : string) (body : obj)
| DeleteBook (id : string)
| PostUser (headers body : obj).

Definition handle (r : request) (st : store) : response * store :=
  match r with
  | PostBook thisYear body => post_book thisYear body st
  | PutBook id body => put_book id body st
  | PatchBook id body => patch_book id body st
  | DeleteBook id => delete_book id st
  | PostUser headers body => post_user headers body st
  end.

(** The store after the requests [rs], served in this order. *)
Definition replay (rs : list request) (st : store) : store :=
  fold_left (fun s r => (handle r s).2) rs st.

(** A book whose title, author and genre are strings. *)
Definition textual (b : obj) : Prop :=
  exists title author genre,
    Js.get "title" b = VStr title
    /\ Js.get "author" b = VStr author
    /\ Js.get "genre" b = VStr genre.

(** The object that PATCH stores. *)
Definition patched (bookId : number) (current body : obj) : obj :=
  Js.set "id" (VNum bookId) (Js.assign (Js.spread current) body).

(** Text that can follow the digits of an identifier without being read
    with them: the empty text, or a text whose first character is neither
    a decimal digit nor the x of a hexadecimal prefix. *)
Definition unread (rest : string) : bool :=
  match rest with
  | EmptyString => true
  | String c _ =>
      match Js.digit_value 10 c with
      | Some _ => false
      | None => negb (Ascii.eqb c "x") && negb (Ascii.eqb c "X")
      end
  end.

(** The books whose genre is the string [g], whatever the case of the
    letters. *)
Definition of_genre (g : string) (b : obj) : bool :=
  match Js.get "genre" b with
  | VStr s => String.eqb (Str.to_lower s) (Str.to_lower g)
  | _ => false
  end.

(** The string that a value is, the empty one for a value of another
    type. *)
Definition text (v : value) : string :=
  match v with
  | VStr s => s
  | _ => EmptyString
  end.

(** The comparator of the sort, written with a comparison that cannot
    throw: -1 when [a] is before [b], 1 when it is after, 0 otherwise. *)
Definition three_way {A} (before : A -> A -> bool) (a b : A) : Z :=
  if before a b then -1 else if before b a then 1 else 0.

(** What it is on books whose field [key] is a number, and on books whose
    field [key] is a string. *)
Definition by_number (key : string) : obj -> obj -> Z :=
  three_way
    (fun a b => Num.lt (as_number (Js.get key a)) (as_number (Js.get key b))).

Definition by_text (key : string) : obj -> obj -> Z :=
  three_way (fun a b => Str.lt (text (Js.get key a)) (text (Js.get key b))).

Section Criteria.

Context {engine : Engine} {coercion : Coercion}.

Definition lower_of (v : value) : string :=
  match v with
  | VStr s => Str.to_lower s
  | _ => EmptyString
  end.

(** What [GET /api/search] asks of a book whose title, author and genre
    are strings and whose year is a primitive value, when the criteria are
    strings: every criterion that is supplied holds. *)
Definition meets (query b : obj) : bool :=
  let q := Js.get "q" query in
  let minYear := Js.get "minYear" query in
  let maxYear := Js.get "maxYear" query in
  let author := Js.get "author" query in
  (negb (Js.to_boolean q)
   || Text.includes (lower_of (Js.get "title" b)) (lower_of q)
   || Text.includes (lower_of (Js.get "author" b)) (lower_of q)
   || Text.includes (lower_of (Js.get "genre" b)) (lower_of q))
  && (negb (Js.to_boolean minYear)
      || Num.ge (prim_number (Js.get "year" b)) (Js.parseInt (text minYear)))
  && (negb (Js.to_boolean maxYear)
      || Num.le (prim_number (Js.get "year" b)) (Js.parseInt (text maxYear)))
  && (negb (Js.to_boolean author)
      || Text.includes (lower_of (Js.get "author" b)) (lower_of author)).

End Criteria.

(** A value that is neither an array nor an object. *)
Definition primitive (v : value) : Prop :=
  match v with
  | VArr _ | VObj _ => False
  | _ => True
  end.

(** A book whose year is a primitive value. *)
Definition dated (b : obj) : Prop := primitive (Js.get "year" b).

(** A criterion that is absent or a string. *)
Definition text_or_absent (v : value) : Prop :=
  v = VUndefined \/ exists s, v = VStr s.

(** A character of a hexadecimal number in lower case. *)
Definition is_hex (c : ascii) : bool :=
  let n := Z.of_nat (nat_of_ascii c) in
  ((48 <=? n) && (n <=? 57)) || ((97 <=? n) && (n <=? 102)).

(** [s] follows the template: a hexadecimal character for every x, one of
    8, 9, a, b for every y, and the character of the template
    elsewhere. *)
Fixpoint conforms (template s : string) : bool :=
  match template, s with
  | EmptyString, EmptyString => true
  | String t template', String c s' =>
      (if Ascii.eqb t "x" then is_hex c
       else if Ascii.eqb t "y"
            then existsb (Ascii.eqb c) ["8"; "9"; "a"; "b"]%char
            else Ascii.eqb t c)
      && conforms template' s'
  | _, _ => false
  end.

(** The objects of an array, to read the [data] of an answer. *)
Definition books_of (v : value) : list obj :=
  match v with
  | VArr l => omap (fun x => match x with VObj o => Some o | _ => None end) l
  | _ => []
  end.

(** Headers, a body and values of [Math.random] for the examples. *)
Definition key_header : obj := [("x-api-key", VStr "my-secret-api-key")].

Definition new_user : obj :=
  [("username", VStr "newuser"); ("email", VStr "newuser@example.com")].

(** The values 0, 1/7, ..., 6/7, 0, ... in turn. *)
Definition sevenths (k : nat) : Q := (Z.of_nat k mod 7) # 7.

(** ** Objects and arrays: basic facts *)

Lemma get_set_eq k v o : Js.get k (Js.set k v o) = v.
Proof.
  induction o as [|[k' v'] o IH]; simpl.
  - now rewrite String.eqb_refl.
  - destruct (String.eqb k k') eqn:E; simpl.
    + now rewrite String.eqb_refl.
    + now rewrite E.
Qed.

Lemma get_set_ne k k' v o :
  k <> k' -> Js.get k' (Js.set k v o) = Js.get k' o.
Proof.
  intros Hne. apply String.eqb_neq in Hne.
  induction o as [|[k2 v2] o IH]; simpl.
  - rewrite String.eqb_sym. now rewrite Hne.
  - destruct (String.eqb k k2) eqn:E; simpl.
    + apply String.eqb_eq in E. subst k2.
      rewrite String.eqb_sym. now rewrite Hne.
    + now rewrite IH.
Qed.

Lemma get_absent k o : Js.has_key k o = false -> Js.get k o = VUndefined.
Proof.
  unfold Js.has_key, Js.keys.
  induction o as [|[k' v'] o IH]; simpl; [easy|].
  destruct (String.eqb k k'); simpl; [discriminate | exact IH].
Qed.

Lemma get_fold_set k (s : obj) ks t :
  Js.get k (fold_left (fun acc k' => Js.set k' (Js.get k' s) acc) ks t)
  = if existsb (String.eqb k) ks then Js.get k s else Js.get k t.
Proof.
  revert t. induction ks as [|k1 ks IH]; intros t; simpl; [easy|].
  rewrite IH.
  destruct (existsb (String.eqb k) ks); simpl.
  - now rewrite orb_true_r.
  - rewrite orb_false_r. destruct (String.eqb k k1) eqn:E.
    + apply String.eqb_eq in E. subst k1. apply get_set_eq.
    + apply get_set_ne. apply String.eqb_neq. now rewrite String.eqb_sym.
Qed.

Lemma get_assign k t s :
  Js.get k (Js.assign t s)
  = if Js.has_key k s then Js.get k s else Js.get k t.
Proof. apply get_fold_set. Qed.

Lemma get_spread k o : Js.get k (Js.spread o) = Js.get k o.
Proof.
  unfold Js.spread. rewrite get_assign.
  destruct (Js.has_key k o) eqn:E; [easy|].
  now rewrite (get_absent _ _ E).
Qed.

Lemma findIndex_None {A} (p : A -> bool) l :
  Js.findIndex p l = None <-> existsb p l = false.
Proof.
  induction l as [|x l IH]; simpl; [easy|].
  destruct (p x); simpl; [easy|].
  destruct (Js.findIndex p l); simpl; split; intros H; try easy.
  - apply IH in H. discriminate.
  - now apply IH.
Qed.

Lemma findIndex_Some {A} (p : A -> bool) l i :
  Js.findIndex p l = Some i ->
  exists x, l !! i = Some x /\ p x = true
            /\ existsb p (take i l) = false.
Proof.
  revert i. induction l as [|y l IH]; intros i; simpl; [easy|].
  destruct (p y) eqn:Hy.
  - intros [= <-]. exists y. now repeat split.
  - destruct (Js.findIndex p l) as [j|]; simpl; [|easy].
    intros [= <-]. destruct (IH j eq_refl) as (x & Hx & Hp & Hb).
    exists x. simpl. rewrite Hy. now repeat split.
Qed.

Lemma find_None {A} (p : A -> bool) l :
  existsb p l = false -> Js.find p l = None.
Proof.
  unfold Js.find. induction l as [|x l IH]; simpl; [easy|].
  destruct (p x); simpl; [easy | exact IH].
Qed.

Lemma find_first {A} (p : A -> bool) l1 x l2 :
  existsb p l1 = false -> p x = true ->
  Js.find p (l1 ++ x :: l2) = Some x.
Proof.
  unfold Js.find. intros H1 Hx.
  induction l1 as [|y l1 IH]; simpl in *.
  - now rewrite Hx.
  - destruct (p y); simpl in *; [easy | now apply IH].
Qed.

Lemma findIndex_find {A} (p : A -> bool) l i :
  Js.findIndex p l = Some i -> Js.find p l = l !! i.
Proof.
  revert i. unfold Js.find.
  induction l as [|y l IH]; intros i; simpl; [easy|].
  destruct (p y).
  - now intros [= <-].
  - destruct (Js.findIndex p l) as [j|]; simpl; [|easy].
    intros [= <-]. now apply IH.
Qed.

Lemma splice1_delete {A} i (l : list A) :
  Js.splice1 i l = (option_list (l !! i), delete i l).
Proof.
  unfold Js.splice1. f_equal.
  - revert i. induction l as [|x l IH]; intros [|i]; simpl; easy.
  - symmetry. apply delete_take_drop.
Qed.

(** ** Rounding: the integers *)

Lemma Qred_integer z : Qred (inject_Z z) = inject_Z z.
Proof.
  unfold Qred, inject_Z.
  pose proof (Z.ggcd_gcd z 1) as Hg.
  pose proof (Z.ggcd_correct_divisors z 1) as Hd.
  destruct (Z.ggcd z 1) as [g [p q]]. simpl in Hg, Hd.
  rewrite Z.gcd_1_r in Hg. subst g. destruct Hd as [-> Hq].
  rewrite Z.mul_1_l in Hq. subst q. f_equal. lia.
Qed.

Lemma Qred_scaled z k : 0 < k -> Qred (z * k # Z.to_pos k) = inject_Z z.
Proof.
  intros Hk. rewrite <- (Qred_integer z). apply Qred_complete.
  unfold Qeq, inject_Z; simpl. rewrite Z2Pos.id by exact Hk. lia.
Qed.

Lemma exponent_integer a : 0 < a -> Binary64.exponent a 1 = Z.log2 a.
Proof.
  intros Ha. unfold Binary64.exponent, Binary64.scaled.
  change (Z.log2 1) with 0. rewrite Z.sub_0_r.
  pose proof (Z.log2_nonneg a) as Hl.
  destruct (Z.leb_spec 0 (Z.log2 a)); [|lia].
  rewrite Z.mul_1_l.
  destruct (Z.log2_spec a Ha) as [Hlo _].
  destruct (Z.leb_spec (2 ^ Z.log2 a) a); [reflexivity | lia].
Qed.

Lemma nearest_even_whole N : Binary64.nearest_even N 1 = N.
Proof.
  unfold Binary64.nearest_even. rewrite Z.mod_1_r, Z.div_1_r. reflexivity.
Qed.

Lemma round_integer_cases z :
  z <> 0 ->
  let a := Z.abs z in
  let s := Z.log2 a - 52 in
  Binary64.round (inject_Z z)
  = if 0 <=? s then
      let m := Binary64.nearest_even a (2 ^ s) in
      if 2 ^ 1024 <=? m * 2 ^ s then Inf (z <? 0)
      else of_Z (Z.sgn z * m * 2 ^ s)
    else of_Z z.
Proof.
  intros Hz a s. unfold Binary64.round. rewrite Qred_integer.
  cbn [Qnum Qden inject_Z].
  destruct (Z.eqb_spec z 0); [contradiction|].
  fold a. assert (Ha : 0 < a) by (unfold a; lia).
  rewrite (exponent_integer a Ha).
  pose proof (Z.log2_nonneg a) as Hl.
  rewrite Z.max_l by lia. fold s.
  unfold Binary64.scaled.
  destruct (Z.leb_spec 0 s).
  - rewrite Z.mul_1_l. reflexivity.
  - rewrite nearest_even_whole.
    unfold of_Z. f_equal.
    replace (Z.sgn z * (a * 2 ^ (- s))) with (z * 2 ^ (- s)).
    + apply Qred_scaled. apply Z.pow_pos_nonneg; lia.
    + unfold a. rewrite Z.mul_assoc. f_equal. rewrite Z.mul_comm. symmetry. apply Z.abs_sgn.
Qed.

(** An integer of at most 53 bits is a binary64 number. *)
Lemma round_integer_small z :
  Z.abs z <= 2 ^ 53 -> Binary64.round (inject_Z z) = of_Z z.
Proof.
  intros Hz. destruct (Z.eq_dec z 0) as [-> | Hne]; [reflexivity|].
  rewrite (round_integer_cases z Hne). cbv zeta.
  destruct (Z.leb_spec 0 (Z.log2 (Z.abs z) - 52)) as [Hs | Hs]; [|reflexivity].
  assert (Hlog : Z.log2 (Z.abs z) <= 53).
  { rewrite <- (Z.log2_pow2 53) by lia. now apply Z.log2_le_mono. }
  assert (Hcase : Z.log2 (Z.abs z) = 52 \/ Z.log2 (Z.abs z) = 53) by lia.
  destruct Hcase as [E | E]; rewrite E.
  - change (52 - 52) with 0. change (2 ^ 0) with 1.
    rewrite nearest_even_whole, !Z.mul_1_r.
    destruct (Z.leb_spec (2 ^ 1024) (Z.abs z)).
    + assert (2 ^ 53 < 2 ^ 1024) by (apply Z.pow_lt_mono_r; lia). lia.
    + f_equal. f_equal. rewrite Z.mul_comm. apply Z.abs_sgn.
  - assert (Habs : Z.abs z = 2 ^ 53).
    { destruct (Z.log2_spec (Z.abs z)) as [Hlo _]; [lia|]. rewrite E in Hlo. lia. }
    rewrite Habs.
    destruct z as [|p|p]; [easy | |]; simpl in Habs.
    + injection Habs as ->. reflexivity.
    + injection Habs as ->. reflexivity.
Qed.

(** The number for an integer is an integer or an infinity. *)
Lemma round_integer z :
  (exists m, Binary64.round (inject_Z z) = of_Z m)
  \/ exists s, Binary64.round (inject_Z z) = Inf s.
Proof.
  destruct (Z.eq_dec z 0) as [-> | Hne]; [left; now exists 0|].
  rewrite (round_integer_cases z Hne). cbv zeta.
  destruct (_ <=? _); [|left; eauto].
  destruct (_ <=? _); [right | left]; eauto.
Qed.

(** Rounding depends on the rational only, not on the fraction that
    writes it. *)
Lemma round_comp p q : p == q -> Binary64.round p = Binary64.round q.
Proof.
  intros H. unfold Binary64.round. now rewrite (Qred_complete p q H).
Qed.

Lemma round_opp q : Binary64.round (- q) = Js.num_neg (Binary64.round q).
Proof.
  unfold Binary64.round. rewrite Qred_opp.
  destruct (Qred q) as [n d]. unfold Qopp. cbn [Qnum Qden].
  rewrite Z.abs_opp, Z.sgn_opp.
  destruct (Z.eqb_spec n 0) as [-> | Hn]; [reflexivity|].
  destruct (Z.eqb_spec (- n) 0); [lia|].
  destruct (Binary64.scaled _ _ _) as [N D].
  destruct (0 <=? _).
  - destruct (_ <=? _); simpl.
    + f_equal. destruct (Z.ltb_spec n 0), (Z.ltb_spec (- n) 0); simpl; try reflexivity; lia.
    + f_equal. unfold Qopp. cbn [Qnum Qden]. f_equal. lia.
  - simpl. f_equal. rewrite <- Qred_opp. unfold Qopp. cbn [Qnum Qden].
    f_equal. f_equal. lia.
Qed.

(** ** Rounding: the nearest binary64 number *)

Lemma pow2_pos k : 0 < 2 ^ k \/ (k < 0 /\ 2 ^ k = 0).
Proof.
  destruct (Z.le_gt_cases 0 k).
  - left. now apply Z.pow_pos_nonneg.
  - right. split; [lia|]. now apply Z.pow_neg_r.
Qed.

Lemma pow2_split a b : 0 <= a -> 0 <= b -> 2 ^ (a + b) = 2 ^ a * 2 ^ b.
Proof. intros. now apply Z.pow_add_r. Qed.

Lemma scaled_nonneg n d s :
  0 <= s -> Binary64.scaled n d s = (n, d * 2 ^ s).
Proof.
  intros Hs. unfold Binary64.scaled.
  destruct (Z.leb_spec 0 s); [reflexivity | lia].
Qed.

Lemma scaled_neg n d s :
  s < 0 -> Binary64.scaled n d s = (n * 2 ^ (- s), d).
Proof.
  intros Hs. unfold Binary64.scaled.
  destruct (Z.leb_spec 0 s); [lia | reflexivity].
Qed.

(** The exponent found is that of the leading bit. *)
Lemma exponent_spec a d :
  0 < a -> 0 < d ->
  let (N, D) := Binary64.scaled a d (Binary64.exponent a d) in
  D <= N < 2 * D.
Proof.
  intros Ha Hd. unfold Binary64.exponent.
  destruct (Z.log2_spec a Ha) as [Ha1 Ha2].
  destruct (Z.log2_spec d Hd) as [Hd1 Hd2].
  pose proof (Z.log2_nonneg a) as La. pose proof (Z.log2_nonneg d) as Ld.
  set (la := Z.log2 a) in *. set (ld := Z.log2 d) in *.
  rewrite (Z.pow_succ_r 2 la La) in Ha2. rewrite (Z.pow_succ_r 2 ld Ld) in Hd2.
  destruct (Z.le_gt_cases 0 (la - ld)) as [Hk | Hk].
  - rewrite (scaled_nonneg a d (la - ld) Hk).
    assert (E : 2 ^ la = 2 ^ ld * 2 ^ (la - ld)).
    { rewrite <- Z.pow_add_r by lia. f_equal. lia. }
    assert (PB : 0 < 2 ^ (la - ld)) by now apply Z.pow_pos_nonneg.
    set (A := 2 ^ ld) in *. set (B := 2 ^ (la - ld)) in *.
    assert (M1 : A * B <= d * B) by (apply Z.mul_le_mono_nonneg_r; lia).
    destruct (Z.leb_spec (d * B) a) as [Ht | Ht].
    + rewrite (scaled_nonneg a d (la - ld) Hk). fold B. lia.
    + destruct (Z.le_gt_cases 0 (la - ld - 1)) as [Hk1 | Hk1].
      * rewrite (scaled_nonneg a d (la - ld - 1) Hk1).
        assert (E1 : B = 2 * 2 ^ (la - ld - 1)).
        { unfold B. rewrite <- Z.pow_succ_r by lia. f_equal. lia. }
        set (B' := 2 ^ (la - ld - 1)) in *.
        assert (d * B = 2 * (d * B')) by lia.
        assert (A * B = 2 * (A * B')) by lia.
        assert (M2 : d * B' < 2 * A * B').
        { apply Z.mul_lt_mono_pos_r; [unfold B'; apply Z.pow_pos_nonneg|];
            lia. }
        lia.
      * rewrite (scaled_neg a d (la - ld - 1) Hk1).
        assert (Ek : la - ld = 0) by lia. unfold B in *. rewrite Ek in *.
        change (- (0 - 1)) with 1. change (2 ^ 1) with 2.
        change (2 ^ 0) with 1 in *. lia.
  - rewrite (scaled_neg a d (la - ld) Hk).
    assert (E : 2 ^ ld = 2 ^ la * 2 ^ (- (la - ld))).
    { rewrite <- Z.pow_add_r by lia. f_equal. lia. }
    assert (PB : 0 < 2 ^ (- (la - ld))) by (apply Z.pow_pos_nonneg; lia).
    set (A := 2 ^ la) in *. set (B := 2 ^ (- (la - ld))) in *.
    assert (M1 : A * B <= a * B) by (apply Z.mul_le_mono_nonneg_r; lia).
    assert (M2 : a * B < 2 * A * B) by (apply Z.mul_lt_mono_pos_r; lia).
    destruct (Z.leb_spec d (a * B)) as [Ht | Ht].
    + rewrite (scaled_neg a d (la - ld) Hk). fold B. lia.
    + rewrite (scaled_neg a d (la - ld - 1)) by lia.
      assert (E1 : 2 ^ (- (la - ld - 1)) = 2 * B).
      { unfold B. rewrite <- Z.pow_succ_r by lia. f_equal. lia. }
      rewrite E1. lia.
Qed.

(** The integer chosen is nearest to the fraction. *)
(** No integer is nearer to [N / D] than the one chosen. *)
Lemma nearest_even_spec N D k :
  0 < D ->
  Z.abs (Binary64.nearest_even N D * D - N) <= Z.abs (k * D - N).
Proof.
  intros HD. unfold Binary64.nearest_even.
  pose proof (Z.div_mod N D ltac:(lia)) as E.
  pose proof (Z.mod_pos_bound N D HD) as Hr.
  set (f := N / D) in *. set (r := N mod D) in *.
  assert (Hlow : forall k, k <= f -> r <= Z.abs (k * D - N)) by (intros; nia).
  assert (Hhigh : forall k, f + 1 <= k -> D - r <= Z.abs (k * D - N))
    by (intros; nia).
  assert (Hf : Z.abs (f * D - N) = r) by nia.
  assert (Hf1 : Z.abs ((f + 1) * D - N) = D - r) by nia.
  destruct (Z.le_gt_cases k f) as [Hk | Hk].
  - specialize (Hlow k Hk).
    destruct (Z.compare_spec (2 * r) D); [destruct (Z.even f)| |]; lia.
  - specialize (Hhigh k ltac:(lia)).
    destruct (Z.compare_spec (2 * r) D); [destruct (Z.even f)| |]; lia.
Qed.

(** Half way between two integers, the even one is chosen. *)
Lemma nearest_even_tie N D :
  2 * (N mod D) = D -> Z.even (Binary64.nearest_even N D) = true.
Proof.
  intros H. unfold Binary64.nearest_even. rewrite H, Z.compare_refl.
  destruct (Z.even (N / D)) eqn:E; [exact E|].
  rewrite Z.even_add, E. reflexivity.
Qed.

(** The integer chosen lies between any two integers that [N / D] lies
    between. *)
Lemma nearest_even_bounds N D lo hi :
  0 < D -> lo * D <= N -> N <= hi * D ->
  lo <= Binary64.nearest_even N D <= hi.
Proof.
  intros HD Hlo Hhi. unfold Binary64.nearest_even.
  pose proof (Z.div_mod N D ltac:(lia)) as E.
  pose proof (Z.mod_pos_bound N D HD) as Hr.
  set (f := N / D) in *. set (r := N mod D) in *.
  assert (Hf : lo <= f) by nia.
  assert (Hf1 : 0 < r -> f + 1 <= hi) by (intros; nia).
  assert (Hf0 : f <= hi) by nia.
  destruct (Z.compare_spec (2 * r) D); [destruct (Z.even f)| |]; lia.
Qed.

(** The fraction scaled for the exponent less 52 is 2^52 times the one
    scaled for the exponent. *)
Lemma scaled_shift a d e :
  let (N0, D0) := Binary64.scaled a d e in
  let (N, D) := Binary64.scaled a d (e - 52) in
  N * D0 = 2 ^ 52 * N0 * D.
Proof.
  destruct (Z.le_gt_cases 0 (e - 52)) as [Hs | Hs].
  - rewrite (scaled_nonneg a d e) by lia.
    rewrite (scaled_nonneg a d (e - 52) Hs).
    replace e with (52 + (e - 52)) at 1 by lia.
    rewrite Z.pow_add_r by lia. ring.
  - rewrite (scaled_neg a d (e - 52) Hs).
    destruct (Z.le_gt_cases 0 e) as [He | He].
    + rewrite (scaled_nonneg a d e He).
      assert (E : 2 ^ 52 = 2 ^ (- (e - 52)) * 2 ^ e).
      { rewrite <- Z.pow_add_r by lia. f_equal. lia. }
      rewrite E. ring.
    + rewrite (scaled_neg a d e He).
      assert (E : 2 ^ (- (e - 52)) = 2 ^ 52 * 2 ^ (- e)).
      { rewrite <- Z.pow_add_r by lia. f_equal. lia. }
      rewrite E. ring.
Qed.

Lemma scaled_positive a d s :
  0 < a -> 0 < d ->
  let (N, D) := Binary64.scaled a d s in 0 < N /\ 0 < D.
Proof.
  intros Ha Hd. destruct (Z.le_gt_cases 0 s) as [Hs | Hs].
  - rewrite (scaled_nonneg a d s Hs).
    assert (0 < 2 ^ s) by now apply Z.pow_pos_nonneg. nia.
  - rewrite (scaled_neg a d s Hs).
    assert (0 < 2 ^ (- s)) by (apply Z.pow_pos_nonneg; lia). nia.
Qed.

(** With 1074 added to the exponent, the fraction scaled is the one with
    the denominator 2^1074. *)
Lemma scaled_common a d s :
  -1074 <= s ->
  let (N, D) := Binary64.scaled a d s in
  a * D * 2 ^ 1074 = N * d * 2 ^ (s + 1074).
Proof.
  intros Hs. destruct (Z.le_gt_cases 0 s) as [H | H].
  - rewrite (scaled_nonneg a d s H). rewrite Z.pow_add_r by lia. ring.
  - rewrite (scaled_neg a d s H).
    assert (E : 2 ^ 1074 = 2 ^ (- s) * 2 ^ (s + 1074)).
    { rewrite <- Z.pow_add_r by lia. f_equal. lia. }
    rewrite E. ring.
Qed.

Section Nearest.

Variables a d : Z.
Hypothesis Ha : 0 < a.
Hypothesis Hd : 0 < d.

Let e0 := Binary64.exponent a d.
Let e := Z.max e0 (-1022).
Let s := e - 52.
Let N := (Binary64.scaled a d s).1.
Let D := (Binary64.scaled a d s).2.
Let m := Binary64.nearest_even N D.

Lemma nearest_D_pos : 0 < N /\ 0 < D.
Proof.
  unfold N, D. pose proof (scaled_positive a d s Ha Hd) as H.
  now destruct (Binary64.scaled a d s).
Qed.

Lemma nearest_normal : -1022 <= e0 -> 2 ^ 52 * D <= N < 2 ^ 53 * D.
Proof.
  intros He. unfold N, D, s, e. rewrite Z.max_l by lia.
  pose proof (exponent_spec a d Ha Hd) as H0.
  pose proof (scaled_shift a d e0) as Hsh.
  pose proof (scaled_positive a d e0 Ha Hd) as P0.
  pose proof (scaled_positive a d (e0 - 52) Ha Hd) as P.
  fold e0 in H0.
  destruct (Binary64.scaled a d e0) as [N0 D0].
  destruct (Binary64.scaled a d (e0 - 52)) as [N1 D1]. simpl.
  change (2 ^ 53) with (2 * 2 ^ 52). nia.
Qed.

Lemma nearest_subnormal : e0 < -1022 -> s = -1074 /\ N < 2 ^ 52 * D.
Proof.
  intros He. unfold N, D, s, e. rewrite Z.max_r by lia.
  split; [reflexivity|]. change (-1022 - 52) with (-1074).
  rewrite (scaled_neg a d (-1074)) by lia. simpl fst. simpl snd.
  pose proof (exponent_spec a d Ha Hd) as H0. fold e0 in H0.
  rewrite (scaled_neg a d e0) in H0 by lia.
  change (- -1074) with 1074.
  assert (P52 : 2 * d <= 2 ^ 52 * d).
  { apply Z.mul_le_mono_nonneg_r; [lia|]. change 2 with (2 ^ 1) at 1.
    apply Z.pow_le_mono_r; lia. }
  destruct (Z.le_gt_cases 0 (1074 + e0)) as [Hlow | Hlow].
  - assert (E : 2 ^ 1074 = 2 ^ (- e0) * 2 ^ (1074 + e0)).
    { rewrite <- Z.pow_add_r by lia. f_equal. lia. }
    assert (P : 0 < 2 ^ (1074 + e0)) by (apply Z.pow_pos_nonneg; lia).
    assert (L : 2 ^ (1074 + e0) <= 2 ^ 51) by (apply Z.pow_le_mono_r; lia).
    rewrite E. change (2 ^ 52) with (2 * 2 ^ 51).
    assert (a * 2 ^ (- e0) * 2 ^ (1074 + e0) < 2 * d * 2 ^ (1074 + e0))
      by (apply Z.mul_lt_mono_pos_r; lia).
    assert (2 * d * 2 ^ (1074 + e0) <= 2 * d * 2 ^ 51)
      by (apply Z.mul_le_mono_nonneg_l; lia).
    lia.
  - assert (L : 2 ^ 1074 <= 2 ^ (- e0)) by (apply Z.pow_le_mono_r; lia).
    assert (a * 2 ^ 1074 <= a * 2 ^ (- e0))
      by (apply Z.mul_le_mono_nonneg_l; lia).
    lia.
Qed.

Lemma nearest_s_low : -1074 <= s.
Proof. unfold s, e. lia. Qed.

Lemma nearest_m_bounds : 0 <= m <= 2 ^ 53 /\ (-1022 <= e0 -> 2 ^ 52 <= m).
Proof.
  destruct nearest_D_pos as [PN PD]. unfold m.
  destruct (Z.le_gt_cases (-1022) e0) as [He | He].
  - pose proof (nearest_normal He) as [H1 H2].
    pose proof (nearest_even_bounds N D (2 ^ 52) (2 ^ 53) PD) as Hb.
    split; [|intros _; lia]. lia.
  - pose proof (nearest_subnormal He) as [_ H2].
    pose proof (nearest_even_bounds N D 0 (2 ^ 52) PD) as Hb.
    assert (2 ^ 52 < 2 ^ 53) by (apply Z.pow_lt_mono_r; lia).
    split; [|intros; lia]. lia.
Qed.

(** The integer form of "nearest": [m * 2 ^ s] against [k * 2 ^ j], both
    with the denominator 2^1074, and the fraction [a / d]. *)
Lemma nearest_core k j :
  Z.abs k < 2 ^ 53 -> -1074 <= j ->
  Z.abs (m * 2 ^ (s + 1074) * d - a * 2 ^ 1074)
  <= Z.abs (k * 2 ^ (j + 1074) * d - a * 2 ^ 1074).
Proof.
  intros Hk Hj. destruct nearest_D_pos as [PN PD].
  pose proof nearest_s_low as Hs.
  pose proof (scaled_common a d s Hs) as Hc. fold N D in Hc.
  assert (Hc' : a * D * 2 ^ 1074 = N * d * 2 ^ (s + 1074)).
  { unfold N, D. now destruct (Binary64.scaled a d s). }
  clear Hc. set (U := 2 ^ (s + 1074)) in *. set (W := 2 ^ 1074) in *.
  assert (PU : 0 < U) by (apply Z.pow_pos_nonneg; lia).
  set (X := k * 2 ^ (j + 1074)).
  assert (Hkey : Z.abs (m * D - N) * U <= Z.abs (X * D - N * U)).
  { destruct (Z.le_gt_cases s j) as [Hsj | Hsj].
    - assert (EX : X = k * 2 ^ (j - s) * U).
      { unfold X, U. rewrite <- Z.mul_assoc, <- Z.pow_add_r by lia.
        do 2 f_equal. lia. }
      rewrite EX.
      replace (k * 2 ^ (j - s) * U * D - N * U)
        with ((k * 2 ^ (j - s) * D - N) * U) by ring.
      rewrite Z.abs_mul, (Z.abs_eq U) by lia.
      apply Z.mul_le_mono_nonneg_r; [lia|].
      apply nearest_even_spec. exact PD.
    - assert (He : -1022 <= e0).
      { destruct (Z.le_gt_cases (-1022) e0) as [H | H]; [exact H|].
        destruct (nearest_subnormal H) as [E _]. lia. }
      pose proof (nearest_normal He) as [H1 _].
      set (V := 2 ^ (j + 1074)) in *.
      assert (PV : 0 < V) by (apply Z.pow_pos_nonneg; lia).
      assert (EU : U = V * 2 ^ (s - j)).
      { unfold U, V. rewrite <- Z.pow_add_r by lia. f_equal. lia. }
      assert (PT : 2 <= 2 ^ (s - j)).
      { change 2 with (2 ^ 1) at 1. apply Z.pow_le_mono_r; lia. }
      set (T := 2 ^ (s - j)) in *.
      pose proof (nearest_even_spec N D (2 ^ 52) PD) as Hn. fold m in Hn.
      rewrite (Z.abs_neq (2 ^ 52 * D - N)) in Hn by lia.
      assert (HkD : k * D < 2 ^ 53 * D) by (apply Z.mul_lt_mono_pos_r; lia).
      assert (H53 : 2 ^ 53 * D <= 2 ^ 52 * T * D).
      { change (2 ^ 53) with (2 ^ 52 * 2).
        apply Z.mul_le_mono_nonneg_r; [lia|].
        apply Z.mul_le_mono_nonneg_l; lia. }
      assert (HT : Z.abs (m * D - N) * T <= N * T - k * D).
      { assert (Z.abs (m * D - N) * T <= (N - 2 ^ 52 * D) * T)
          by (apply Z.mul_le_mono_nonneg_r; lia).
        lia. }
      unfold X. rewrite EU.
      replace (k * V * D - N * (V * T)) with ((k * D - N * T) * V) by ring.
      rewrite Z.abs_mul, (Z.abs_eq V) by lia.
      replace (Z.abs (m * D - N) * (V * T))
        with (Z.abs (m * D - N) * T * V) by ring.
      apply Z.mul_le_mono_nonneg_r; [lia|]. lia. }
  assert (E1 : D * Z.abs (m * U * d - a * W)
               = Z.abs (m * D - N) * U * d).
  { rewrite <- (Z.abs_eq D) at 1 by lia. rewrite <- Z.abs_mul.
    replace (D * (m * U * d - a * W)) with ((m * D - N) * (U * d)) by
      (replace (D * (m * U * d - a * W))
         with (m * D * U * d - a * D * W) by ring; rewrite Hc'; ring).
    rewrite Z.abs_mul, (Z.abs_eq (U * d)) by lia. ring. }
  assert (E2 : D * Z.abs (X * d - a * W) = Z.abs (X * D - N * U) * d).
  { rewrite <- (Z.abs_eq D) at 1 by lia. rewrite <- Z.abs_mul.
    replace (D * (X * d - a * W)) with ((X * D - N * U) * d) by
      (replace (D * (X * d - a * W))
         with (X * D * d - a * D * W) by ring; rewrite Hc'; ring).
    rewrite Z.abs_mul, (Z.abs_eq d) by lia. ring. }
  apply (Z.mul_le_mono_pos_l _ _ D PD). fold X. rewrite E1, E2.
  apply Z.mul_le_mono_nonneg_r; [lia | exact Hkey].
Qed.

End Nearest.

(** The integer chosen is at most a half above [N / D]. *)
Lemma nearest_even_half N D :
  0 < D -> 2 * Binary64.nearest_even N D * D - D <= 2 * N.
Proof.
  intros HD. unfold Binary64.nearest_even.
  pose proof (Z.div_mod N D ltac:(lia)) as E.
  pose proof (Z.mod_pos_bound N D HD) as Hr.
  set (f := N / D) in *. set (r := N mod D) in *.
  destruct (Z.compare_spec (2 * r) D); [destruct (Z.even f)| |]; nia.
Qed.

Lemma dyadic_common k j :
  -1074 <= j ->
  Binary64.dyadic k j == k * 2 ^ (j + 1074) # Z.to_pos (2 ^ 1074).
Proof.
  intros Hj. unfold Binary64.dyadic.
  assert (PW : 0 < 2 ^ 1074) by (apply Z.pow_pos_nonneg; lia).
  destruct (Z.leb_spec 0 j).
  - unfold Qeq, inject_Z. cbn [Qnum Qden]. rewrite Z2Pos.id by exact PW.
    rewrite Z.pow_add_r by lia. ring.
  - assert (0 < 2 ^ (- j)) by (apply Z.pow_pos_nonneg; lia).
    unfold Qeq. cbn [Qnum Qden]. rewrite !Z2Pos.id by assumption.
    replace (2 ^ 1074) with (2 ^ (j + 1074) * 2 ^ (- j)); [ring|].
    rewrite <- Z.pow_add_r by lia. f_equal. lia.
Qed.

Lemma Qabs_diff_le (R X n : Z) (d W : positive) :
  Z.abs (R * Zpos d - n * Zpos W) <= Z.abs (X * Zpos d - n * Zpos W) ->
  (Qabs ((R # W) - (n # d)) <= Qabs ((X # W) - (n # d)))%Q.
Proof.
  intros H. unfold Qle, Qabs, Qminus, Qplus, Qopp. cbn [Qnum Qden].
  apply Z.mul_le_mono_nonneg_r; [lia|].
  replace (R * Zpos d + - n * Zpos W) with (R * Zpos d - n * Zpos W) by ring.
  replace (X * Zpos d + - n * Zpos W) with (X * Zpos d - n * Zpos W) by ring.
  exact H.
Qed.

(** The three outcomes of [Binary64.round], with the numbers it computes
    on the way. *)
Lemma round_cases q :
  let n := Qnum (Qred q) in
  let d := Zpos (Qden (Qred q)) in
  let s := Z.max (Binary64.exponent (Z.abs n) d) (-1022) - 52 in
  let N := (Binary64.scaled (Z.abs n) d s).1 in
  let D := (Binary64.scaled (Z.abs n) d s).2 in
  let m := Binary64.nearest_even N D in
  (n = 0 /\ Binary64.round q = Fin 0)
  \/ (n <> 0 /\ 0 <= s /\ 2 ^ 1024 <= m * 2 ^ s
      /\ Binary64.round q = Inf (n <? 0))
  \/ (n <> 0 /\ (0 <= s -> m * 2 ^ s < 2 ^ 1024)
      /\ exists r, Binary64.round q = Fin r
                   /\ r == Binary64.dyadic (Z.sgn n * m) s).
Proof.
  intros n d s N D m. unfold Binary64.round.
  fold n. fold d. fold s. unfold m, N, D.
  destruct (Z.eqb_spec n 0) as [Hn | Hn]; [now left | right].
  destruct (Binary64.scaled (Z.abs n) d s) as [N' D']. cbn [fst snd].
  unfold Binary64.dyadic.
  destruct (Z.leb_spec 0 s) as [Hs | Hs].
  - destruct (Z.leb_spec (2 ^ 1024) (Binary64.nearest_even N' D' * 2 ^ s)).
    + left. now repeat split.
    + right. split; [exact Hn|]. split; [intros _; assumption|].
      eexists. split; [reflexivity|]. reflexivity.
  - right. split; [exact Hn|]. split; [lia|].
    eexists. split; [reflexivity|]. apply Qred_correct.
Qed.

Lemma pow2_lt_inv a b : 0 <= b -> 2 ^ a < 2 ^ b -> a < b.
Proof.
  intros Hb H. destruct (Z.lt_ge_cases a b) as [|Hab]; [assumption|].
  pose proof (Z.pow_le_mono_r 2 b a ltac:(lia) Hab). lia.
Qed.

(** [Binary64.round] never gives NaN. A finite result is a binary64 number,
    and no binary64 number is nearer to [q]. An infinity has the sign of
    [q], and is given only from the midpoint of the greatest binary64
    number and 2^1024 on. *)
Lemma round_nearest q :
  match Binary64.round q with
  | NaN => False
  | Inf negative =>
      negative = (Qnum q <? 0)
      /\ (inject_Z (2 ^ 1024 - 2 ^ 970) <= Qabs q)%Q
  | Fin r =>
      Binary64.finite r
      /\ forall x, Binary64.finite x -> (Qabs (r - q) <= Qabs (x - q))%Q
  end.
Proof.
  pose proof (round_cases q) as H. cbv zeta in H.
  pose proof (Qred_correct q) as Hq.
  set (n := Qnum (Qred q)) in *. set (d := Qden (Qred q)) in *.
  assert (Hq' : q == n # d).
  { rewrite <- Hq. unfold n, d. now destruct (Qred q). }
  clear Hq.
  assert (Hsign : (n <? 0) = (Qnum q <? 0)).
  { unfold Qeq in Hq'. cbn [Qnum Qden] in Hq'.
    destruct (Z.ltb_spec n 0), (Z.ltb_spec (Qnum q) 0); try reflexivity; nia. }
  destruct H as [[Hn ->] | H].
  { split.
    - exists 0, 0. split; [reflexivity|]. split; [lia | reflexivity].
    - intros x _. assert (H0 : q == 0) by (rewrite Hq', Hn; reflexivity).
      rewrite H0. apply Qabs_nonneg. }
  assert (Hn : n <> 0) by (destruct H as [H | H]; apply H).
  assert (Ha : 0 < Z.abs n) by lia.
  assert (Hd : 0 < Zpos d) by lia.
  pose proof (nearest_D_pos _ _ Ha Hd) as HD.
  pose proof (nearest_normal _ _ Ha Hd) as Hnormal.
  pose proof (nearest_s_low (Z.abs n) (Zpos d)) as Hlow.
  pose proof (nearest_m_bounds _ _ Ha Hd) as Hm.
  pose proof (nearest_core _ _ Ha Hd) as Hcore.
  cbv zeta in HD, Hnormal, Hlow, Hm, Hcore.
  set (e0 := Binary64.exponent (Z.abs n) (Zpos d)) in *.
  set (s := Z.max e0 (-1022) - 52) in *.
  pose proof (scaled_nonneg (Z.abs n) (Zpos d) s) as Escaled.
  destruct (Binary64.scaled (Z.abs n) (Zpos d) s) as [N D].
  cbn [fst snd] in *.
  pose proof (nearest_even_half N D ltac:(lia)) as Hhalf.
  set (m := Binary64.nearest_even N D) in *.
  destruct Hm as [Hm Hm52].
  destruct H as [(_ & Hs & Hover & ->) | (_ & Hfits & r & -> & Hr)].
  - split; [exact Hsign|].
    assert (He0 : -1022 <= e0) by lia.
    specialize (Hnormal He0). specialize (Hm52 He0).
    specialize (Escaled Hs). injection Escaled as -> ->.
    rewrite Hq'. unfold Qle, inject_Z, Qabs. cbn [Qnum Qden].
    rewrite Z.mul_1_r.
    assert (Ps : 0 < 2 ^ s) by (apply Z.pow_pos_nonneg; lia).
    destruct (Z.le_gt_cases 972 s) as [Hbig | Hsmall].
    + assert (L : 2 ^ 972 <= 2 ^ s) by (apply Z.pow_le_mono_r; lia).
      assert (Zpos d * 2 ^ 972 <= Zpos d * 2 ^ s)
        by (apply Z.mul_le_mono_nonneg_l; lia).
      lia.
    + assert (s = 971).
      { destruct (Z.le_gt_cases s 970) as [Hs' | Hs']; [|lia].
        assert (L : 2 ^ s <= 2 ^ 970) by (apply Z.pow_le_mono_r; lia).
        assert (m * 2 ^ s <= 2 ^ 53 * 2 ^ 970)
          by (apply Z.mul_le_mono_nonneg; lia).
        lia. }
      clearbody s m. subst s. assert (Em : m = 2 ^ 53) by lia.
      rewrite Em in Hhalf. lia.
  - assert (Hunit : Z.sgn n = 1 \/ Z.sgn n = -1) by lia.
    split.
    + destruct (Z.eq_dec m (2 ^ 53)) as [Em | Em].
      * exists (Z.sgn n * 2 ^ 52), (s + 1). split; [|split].
        -- destruct Hunit as [-> | ->]; lia.
        -- split; [lia|]. destruct (Z.le_gt_cases 0 s) as [Hs | Hs]; [|lia].
           specialize (Hfits Hs). rewrite Em, <- Z.pow_add_r in Hfits by lia.
           apply pow2_lt_inv in Hfits; lia.
        -- rewrite Hr, Em, !dyadic_common by lia.
           replace (Z.sgn n * 2 ^ 52 * 2 ^ (s + 1 + 1074))
             with (Z.sgn n * 2 ^ 53 * 2 ^ (s + 1074)); [reflexivity|].
           replace (s + 1 + 1074) with (1 + (s + 1074)) by lia.
           rewrite (Z.pow_add_r 2 1) by lia.
           change (2 ^ 53) with (2 ^ 52 * 2 ^ 1). ring.
      * exists (Z.sgn n * m), s. split; [|split; [|exact Hr]].
        -- destruct Hunit as [-> | ->]; lia.
        -- split; [lia|]. destruct (Z.le_gt_cases 0 s) as [Hs | Hs]; [|lia].
           specialize (Hfits Hs). specialize (Hm52 ltac:(lia)).
           assert (Ps : 0 < 2 ^ s) by (apply Z.pow_pos_nonneg; lia).
           assert (L : 2 ^ 52 * 2 ^ s <= m * 2 ^ s)
             by (apply Z.mul_le_mono_nonneg_r; lia).
           rewrite <- Z.pow_add_r in L by lia.
           assert (Hlt : 2 ^ (52 + s) < 2 ^ 1024) by lia.
           apply pow2_lt_inv in Hlt; lia.
    + intros x (k & j & Hk & [Hj _] & Hx).
      rewrite Hr, Hx, Hq', !dyadic_common by lia.
      apply Qabs_diff_le.
      rewrite Z2Pos.id by (apply Z.pow_pos_nonneg; lia).
      specialize (Hcore (Z.sgn n * k) j).
      assert (Hk' : Z.abs (Z.sgn n * k) < 2 ^ 53)
        by (destruct Hunit as [-> | ->]; lia).
      specialize (Hcore Hk' Hj).
      set (U := 2 ^ (s + 1074)) in *. set (V := 2 ^ (j + 1074)) in *.
      set (W := 2 ^ 1074) in *.
      destruct (Z.lt_total n 0) as [Hneg | [? | Hpos]]; [| easy |].
      * rewrite (Z.sgn_neg n Hneg) in *.
        rewrite (Z.abs_neq n) in Hcore by lia.
        replace (-1 * m * U * Zpos d - n * W)
          with (- (m * U * Zpos d - - n * W)) by ring.
        replace (k * V * Zpos d - n * W)
          with (- (-1 * k * V * Zpos d - - n * W)) by ring.
        rewrite !Z.abs_opp. exact Hcore.
      * rewrite (Z.sgn_pos n Hpos) in *.
        rewrite (Z.abs_eq n) in Hcore by lia.
        replace (1 * m * U) with (m * U) by ring.
        replace (1 * k * V) with (k * V) in Hcore by ring.
        exact Hcore.
Qed.

(** ** Identifiers: basic facts *)

Lemma num_eq_NaN m : Js.num_eq m NaN = false.
Proof. now destruct m. Qed.

Lemma has_id_NaN b : has_id NaN b = false.
Proof.
  unfold has_id, Js.strict_eq_num.
  destruct (Js.get "id" b); try easy. apply num_eq_NaN.
Qed.

Lemma num_eq_of_Z n m : Js.num_eq (of_Z n) (of_Z m) = (n =? m).
Proof.
  unfold Js.num_eq, of_Z, Qeq_bool, inject_Z; simpl.
  now rewrite !Z.mul_1_r.
Qed.

Lemma has_id_of_Z n m b :
  Js.get "id" b = VInt n -> has_id (of_Z m) b = (n =? m).
Proof.
  unfold has_id. intros ->. apply num_eq_of_Z.
Qed.

Lemma parse_digits_int radix s :
  Js.parse_digits radix s = NaN
  \/ (exists t, Js.parse_digits radix s = Inf t)
  \/ exists m, Js.parse_digits radix s = of_Z m.
Proof.
  unfold Js.parse_digits. destruct s as [|c s]; [now left|].
  destruct (Js.digit_value radix c); [right | now left].
  destruct (round_integer (Js.digits_prefix radix (String c s) 0))
    as [[m E] | [t E]]; eauto.
Qed.

Lemma parse_unsigned_int s :
  Js.parse_unsigned s = NaN
  \/ (exists t, Js.parse_unsigned s = Inf t)
  \/ exists m, Js.parse_unsigned s = of_Z m.
Proof.
  unfold Js.parse_unsigned.
  repeat match goal with
         | |- context [match ?x with _ => _ end] => destruct x
         end; apply parse_digits_int.
Qed.

(** What [parseInt] returns is [NaN], an infinity or an integer. *)
Lemma parseInt_int s :
  Js.parseInt s = NaN
  \/ (exists t, Js.parseInt s = Inf t)
  \/ exists m, Js.parseInt s = of_Z m.
Proof.
  unfold Js.parseInt.
  assert (Hneg : forall t,
             Js.num_neg (Js.parse_unsigned t) = NaN
             \/ (exists u, Js.num_neg (Js.parse_unsigned t) = Inf u)
             \/ exists m, Js.num_neg (Js.parse_unsigned t) = of_Z m).
  { intros t. destruct (parse_unsigned_int t) as [-> | [[u ->] | [m ->]]].
    - now left.
    - right. left. now exists (negb u).
    - right. right. now exists (- m). }
  repeat match goal with
         | |- context [match ?x with _ => _ end] => destruct x
         end; first [apply Hneg | apply parse_unsigned_int].
Qed.

(** The three cases of [parseInt id], rewritten everywhere. *)
Ltac parse_cases id t m :=
  let E := fresh "E" in
  destruct (parseInt_int id) as [E | [[t E] | [m E]]]; rewrite E in *.

Lemma has_id_Inf t b n : Js.get "id" b = VInt n -> has_id (Inf t) b = false.
Proof. unfold has_id. now intros ->. Qed.

Lemma findIndex_NaN bs : Js.findIndex (has_id NaN) bs = None.
Proof.
  apply findIndex_None. induction bs as [|b bs IH]; simpl; [easy|].
  now rewrite has_id_NaN.
Qed.

Lemma ids_not_Inf bs ns t :
  ids_are bs ns -> existsb (has_id (Inf t)) bs = false.
Proof.
  induction 1 as [|b n bs ns Hb _ IH]; simpl; [easy|].
  now rewrite (has_id_Inf _ _ _ Hb).
Qed.

Lemma findIndex_Inf bs ns t :
  ids_are bs ns -> Js.findIndex (has_id (Inf t)) bs = None.
Proof. intros H. apply findIndex_None. exact (ids_not_Inf _ _ t H). Qed.

Lemma ids_not_in bs ns m :
  ids_are bs ns -> m ∉ ns -> existsb (has_id (of_Z m)) bs = false.
Proof.
  induction 1 as [|b n bs ns Hb _ IH]; simpl; [easy|].
  rewrite not_elem_of_cons. intros [Hne Hin].
  rewrite (has_id_of_Z _ _ _ Hb).
  destruct (Z.eqb_spec n m); [congruence|]. now apply IH.
Qed.

Lemma ids_at bs ns i b m :
  ids_are bs ns -> bs !! i = Some b -> has_id (of_Z m) b = true ->
  ns !! i = Some m /\ Js.get "id" b = VInt m.
Proof.
  intros H Hb Hid.
  destruct (Forall2_lookup_l _ _ _ _ _ H Hb) as (n & Hn & Hget).
  rewrite (has_id_of_Z _ _ _ Hget) in Hid.
  apply Z.eqb_eq in Hid. now subst.
Qed.

Lemma ids_at_Inf bs ns i b t :
  ids_are bs ns -> bs !! i = Some b -> has_id (Inf t) b = false.
Proof.
  intros H Hb.
  destruct (Forall2_lookup_l _ _ _ _ _ H Hb) as (n & _ & Hget).
  exact (has_id_Inf _ _ _ Hget).
Qed.

Lemma ids_insert bs ns i b m new :
  ids_are bs ns -> bs !! i = Some b -> has_id (of_Z m) b = true ->
  Js.get "id" new = VInt m -> ids_are (<[i := new]> bs) ns.
Proof.
  intros H Hb Hid Hnew.
  destruct (ids_at _ _ _ _ _ H Hb Hid) as [Hn _].
  rewrite <- (list_insert_id ns i m Hn).
  now apply Forall2_insert.
Qed.

(** ** The invariant of the store *)

Lemma sound_initial : sound initial.
Proof.
  split; [easy|]. exists [1; 2; 3; 4]. split; [|split].
  - repeat constructor.
  - repeat (apply NoDup_cons; split;
            [rewrite ?elem_of_cons, elem_of_nil; lia|]).
    apply NoDup_nil_2.
  - repeat constructor; simpl; lia.
Qed.

Lemma sound_post_book thisYear body st :
  sound st -> sound (post_book thisYear body st).2.
Proof.
  intros Hs. unfold post_book.
  destruct (_ || _); simpl; [exact Hs|].
  destruct Hs as (Hc & ns & H & Hnd & Hlt).
  split; [simpl; lia|].
  exists (ns ++ [nextBookId st]). split; [|split]; simpl.
  - apply Forall2_app; [exact H|]. now repeat constructor.
  - apply NoDup_app. split; [exact Hnd|]. split.
    + intros x Hx. rewrite list_elem_of_singleton.
      rewrite Forall_forall in Hlt. specialize (Hlt x Hx). simpl in Hlt. lia.
    + apply NoDup_singleton.
  - apply Forall_app. split.
    + eapply Forall_impl; [exact Hlt|]. simpl. intros; lia.
    + apply Forall_singleton. lia.
Qed.

Lemma sound_put_book id body st :
  sound st -> sound (put_book id body st).2.
Proof.
  intros Hs. unfold put_book.
  parse_cases id t m.
  { now rewrite findIndex_NaN. }
  { pose proof Hs as (_ & ns & H & _).
    now rewrite (findIndex_Inf _ _ _ H). }
  destruct (Js.findIndex _ _) as [i|] eqn:Hi; [|exact Hs].
  destruct (_ || _); simpl; [exact Hs|].
  destruct Hs as (Hc & ns & H & Hnd & Hlt).
  destruct (findIndex_Some _ _ _ Hi) as (b & Hb & Hid & _).
  split; [exact Hc|]. exists ns. split; [|easy].
  now apply (ids_insert _ _ _ b m).
Qed.

Lemma sound_patch_book id body st :
  sound st -> sound (patch_book id body st).2.
Proof.
  intros Hs. unfold patch_book.
  parse_cases id t m.
  { now rewrite findIndex_NaN. }
  { pose proof Hs as (_ & ns & H & _).
    now rewrite (findIndex_Inf _ _ _ H). }
  destruct (Js.findIndex _ _) as [i|] eqn:Hi; [|exact Hs].
  destruct Hs as (Hc & ns & H & Hnd & Hlt).
  destruct (findIndex_Some _ _ _ Hi) as (b & Hb & Hid & _).
  split; [exact Hc|]. exists ns. split; [|easy]. simpl.
  apply (ids_insert _ _ _ b m); try easy. apply get_set_eq.
Qed.

Lemma sound_delete_book id st :
  sound st -> sound (delete_book id st).2.
Proof.
  intros Hs. unfold delete_book.
  destruct (Js.findIndex _ _) as [i|] eqn:Hi; [|exact Hs].
  rewrite splice1_delete. simpl.
  destruct Hs as (Hc & ns & H & Hnd & Hlt).
  split; [exact Hc|]. exists (delete i ns). split; [|split].
  - now apply Forall2_delete.
  - exact (sublist_NoDup _ _ Hnd (sublist_delete ns i)).
  - now apply Forall_delete.
Qed.

Lemma sound_post_user headers body st :
  sound st -> sound (post_user headers body st).2.
Proof.
  intros Hs. unfold post_user.
  destruct (negb _); [exact Hs|].
  destruct (_ || _); exact Hs.
Qed.

Lemma reachable_sound st : reachable st -> sound st.
Proof.
  induction 1;
    auto using sound_initial, sound_post_book, sound_put_book,
      sound_patch_book, sound_delete_book, sound_post_user.
Qed.

Lemma book_id_int b n : Js.get "id" b = VInt n -> book_id b = Some n.
Proof. unfold book_id. now intros ->. Qed.

Lemma omap_book_id bs ns : ids_are bs ns -> omap book_id bs = ns.
Proof.
  induction 1 as [|b n bs ns Hb _ IH]; simpl; [easy|].
  rewrite (book_id_int _ _ Hb). simpl. now f_equal.
Qed.

Lemma fold_max_le m ns :
  0 <= m -> Forall (fun n => n <= m) ns -> fold_right Z.max 0 ns <= m.
Proof.
  intros Hm. induction 1; simpl; lia.
Qed.

Lemma fold_max_ge m ns : m ∈ ns -> m <= fold_right Z.max 0 ns.
Proof.
  induction 1; simpl; lia.
Qed.

Lemma fold_max_in ns :
  0 < fold_right Z.max 0 ns -> fold_right Z.max 0 ns ∈ ns.
Proof.
  induction ns as [|n ns IH]; simpl; [lia|]. intros Hpos.
  destruct (Z.max_spec n (fold_right Z.max 0 ns)) as [[Hlt ->] | [Hle ->]].
  - apply list_elem_of_further, IH. lia.
  - apply list_elem_of_here.
Qed.

(** The counter starts at 5 and no request lowers it. *)
Lemma reachable_counter st : reachable st -> 5 <= nextBookId st.
Proof.
  induction 1 as [|y body st Hr IH|id body st Hr IH|id body st Hr IH
                  |id st Hr IH|hs body st Hr IH]; simpl.
  - reflexivity.
  - unfold post_book. destruct (_ || _); simpl; lia.
  - unfold put_book. destruct (Js.findIndex _ _); [|exact IH].
    destruct (_ || _); exact IH.
  - unfold patch_book. destruct (Js.findIndex _ _); exact IH.
  - unfold delete_book. destruct (Js.findIndex _ _); [|exact IH].
    now destruct (Js.splice1 _ _).
  - unfold post_user. destruct (negb _); [exact IH|].
    destruct (_ || _); exact IH.
Qed.

(** When the greatest identifier is the one given last, the book that got
    it is in the store. *)
Lemma max_id_last_present st :
  sound st -> 5 <= nextBookId st ->
  max_id (books st) = nextBookId st - 1 ->
  exists b, b ∈ books st /\ Js.get "id" b = VInt (nextBookId st - 1).
Proof.
  intros (Hc & ns & H & _ & Hlt) Hfive Hmax. unfold max_id in Hmax.
  rewrite (omap_book_id _ _ H) in Hmax.
  assert (Hin : nextBookId st - 1 ∈ ns).
  { rewrite <- Hmax. apply fold_max_in. lia. }
  apply list_elem_of_lookup in Hin as [i Hi].
  destruct (Forall2_lookup_r _ _ _ _ _ H Hi) as (b & Hb & Hget).
  exists b. split; [|exact Hget]. apply list_elem_of_lookup. eauto.
Qed.

Lemma max_id_last st b :
  sound st -> b ∈ books st -> Js.get "id" b = VInt (nextBookId st - 1) ->
  max_id (books st) = nextBookId st - 1.
Proof.
  intros (Hc & ns & H & _ & Hlt) Hb Hid. unfold max_id.
  rewrite (omap_book_id _ _ H).
  apply list_elem_of_lookup in Hb as [i Hb].
  destruct (Forall2_lookup_l _ _ _ _ _ H Hb) as (n & Hn & Hget).
  assert (n = nextBookId st - 1) as ->.
  { rewrite Hid in Hget. unfold VInt, of_Z, inject_Z in Hget. congruence. }
  apply Z.le_antisymm.
  - apply fold_max_le; [lia|].
    eapply Forall_impl; [exact Hlt|]. simpl. intros; lia.
  - apply fold_max_ge. apply list_elem_of_lookup. eauto.
Qed.

Lemma present_findIndex id st :
  present id st = true ->
  exists i b, Js.findIndex (has_id (Js.parseInt id)) (books st) = Some i
              /\ books st !! i = Some b
              /\ has_id (Js.parseInt id) b = true
              /\ existsb (has_id (Js.parseInt id)) (take i (books st)) = false.
Proof.
  unfold present. intros Hp.
  destruct (Js.findIndex (has_id (Js.parseInt id)) (books st)) as [i|] eqn:Hi.
  - destruct (findIndex_Some _ _ _ Hi) as (b & Hb & Hid & Hpre). eauto 6.
  - apply findIndex_None in Hi. congruence.
Qed.

Lemma absent_findIndex id st :
  present id st = false ->
  Js.findIndex (has_id (Js.parseInt id)) (books st) = None.
Proof. intros Hp. now apply findIndex_None. Qed.

Lemma num_eq_self m n : Js.num_eq m n = true -> Js.num_eq n n = true.
Proof.
  destruct m, n; simpl; try easy; intros _.
  - apply eqb_reflx.
  - apply Qeq_bool_iff. reflexivity.
Qed.

Lemma has_id_self n old (rest : obj) :
  has_id n old = true -> has_id n (("id", VNum n) :: rest) = true.
Proof.
  unfold has_id at 1, Js.strict_eq_num.
  destruct (Js.get "id" old); try easy. apply num_eq_self.
Qed.

Lemma find_insert n bs i old new :
  bs !! i = Some old -> existsb (has_id n) (take i bs) = false ->
  has_id n new = true ->
  Js.find (has_id n) (<[i := new]> bs) = Some new.
Proof.
  intros Hb Hpre Hnew.
  rewrite insert_take_drop by (eapply lookup_lt_Some; eauto).
  now apply find_first.
Qed.

Lemma NoDup_delete_notin (ns : list Z) i m :
  NoDup ns -> ns !! i = Some m -> m ∉ delete i ns.
Proof.
  intros Hnd Hm. rewrite delete_take_drop.
  rewrite <- (take_drop_middle ns i m Hm) in Hnd.
  apply NoDup_app in Hnd as (_ & Hdis & Hnd).
  apply NoDup_cons in Hnd as [Hnot _].
  rewrite elem_of_app. intros [Hin | Hin]; [|easy].
  apply (Hdis m Hin). apply list_elem_of_here.
Qed.

Lemma sound_delete_gone id st i :
  sound st ->
  Js.findIndex (has_id (Js.parseInt id)) (books st) = Some i ->
  existsb (has_id (Js.parseInt id)) (delete i (books st)) = false.
Proof.
  intros (_ & ns & H & Hnd & _) Hi.
  destruct (findIndex_Some _ _ _ Hi) as (b & Hb & Hid & _).
  parse_cases id t m.
  { now rewrite has_id_NaN in Hid. }
  { apply (ids_not_Inf _ (delete i ns)). now apply Forall2_delete. }
  destruct (ids_at _ _ _ _ _ H Hb Hid) as [Hm _].
  apply (ids_not_in _ (delete i ns)).
  - now apply Forall2_delete.
  - now apply NoDup_delete_notin.
Qed.

(** ** Identifiers as text: writing and reading back *)

Lemma digit_cases d :
  0 <= d < 10 ->
  d = 0 \/ d = 1 \/ d = 2 \/ d = 3 \/ d = 4 \/ d = 5 \/ d = 6 \/ d = 7
  \/ d = 8 \/ d = 9.
Proof. lia. Qed.

Ltac each_digit d H :=
  destruct (digit_cases d H)
    as [-> | [-> | [-> | [-> | [-> | [-> | [-> | [-> | [-> | ->]]]]]]]]].

Lemma digit_value_digit d :
  0 <= d < 10 -> Js.digit_value 10 (Decimal.digit d) = Some d.
Proof. intros H. each_digit d H; reflexivity. Qed.

(** Reading back what [decimal] wrote in front of [acc]. *)
Lemma digits_prefix_decimal fuel : forall z acc,
  0 <= z < 10 ^ Z.of_nat fuel ->
  Js.digits_prefix 10 (Decimal.decimal fuel z acc) 0
  = Js.digits_prefix 10 acc z.
Proof.
  induction fuel as [|fuel IH]; intros z acc Hz.
  - simpl in *. now replace z with 0 by lia.
  - rewrite Nat2Z.inj_succ, Z.pow_succ_r in Hz by lia.
    assert (Hmod : 0 <= z mod 10 < 10) by (apply Z.mod_pos_bound; lia).
    cbn [Decimal.decimal]. destruct (Z.ltb_spec z 10).
    + cbn [Js.digits_prefix]. rewrite (digit_value_digit _ Hmod).
      rewrite Z.mod_small by lia. now rewrite Z.mul_0_l, Z.add_0_l.
    + rewrite IH.
      * cbn [Js.digits_prefix]. rewrite (digit_value_digit _ Hmod).
        f_equal. rewrite (Z.div_mod z 10) at 3 by lia. lia.
      * split; [apply Z.div_pos; lia|].
        apply Z.div_lt_upper_bound; lia.
Qed.

(** [decimal] writes a digit first, and another digit after it unless it
    wrote one digit only. *)
Lemma decimal_shape fuel : forall z acc,
  exists d rest,
    Decimal.decimal (S fuel) z acc = String (Decimal.digit d) rest
    /\ 0 <= d < 10
    /\ (rest = acc
        \/ exists d' rest',
             rest = String (Decimal.digit d') rest' /\ 0 <= d' < 10).
Proof.
  induction fuel as [|fuel IH]; intros z acc;
    assert (Hmod : 0 <= z mod 10 < 10) by (apply Z.mod_pos_bound; lia).
  - exists (z mod 10), acc. simpl. destruct (z <? 10); auto.
  - cbn [Decimal.decimal]. destruct (z <? 10).
    + exists (z mod 10), acc. auto.
    + destruct (IH (z / 10) (String (Decimal.digit (z mod 10)) acc))
        as (d & rest & Heq & Hd & Hrest).
      exists d, rest. split; [exact Heq|]. split; [exact Hd|]. right.
      destruct Hrest as [-> | Hrest]; eauto.
Qed.

Lemma parse_unsigned_decimal fuel z :
  0 <= z < 10 ^ Z.of_nat (S fuel) ->
  Js.parse_unsigned (Decimal.decimal (S fuel) z "")
  = Binary64.round (inject_Z z)
  /\ Js.parseInt (Decimal.decimal (S fuel) z "")
     = Binary64.round (inject_Z z).
Proof.
  intros Hz. pose proof (digits_prefix_decimal (S fuel) z "" Hz) as Hval.
  destruct (decimal_shape fuel z "") as (d & rest & Heq & Hd & Hrest).
  rewrite Heq in *. change (Js.digits_prefix 10 "" z) with z in Hval.
  assert (Hdigits : Js.parse_digits 10 (String (Decimal.digit d) rest)
                    = Binary64.round (inject_Z z)).
  { unfold Js.parse_digits. rewrite (digit_value_digit _ Hd).
    now rewrite Hval. }
  destruct Hrest as [-> | (d' & rest' & -> & Hd')].
  - rewrite <- Hdigits. each_digit d Hd; split; reflexivity.
  - rewrite <- Hdigits.
    each_digit d Hd; try (split; reflexivity);
      each_digit d' Hd'; split; reflexivity.
Qed.

Lemma pow10_log2 z : 0 <= z -> z < 10 ^ Z.of_nat (S (Z.to_nat (Z.log2 z))).
Proof.
  intros Hz. rewrite Nat2Z.inj_succ, Z2Nat.id by apply Z.log2_nonneg.
  destruct (Z.eq_dec z 0) as [-> | Hne]; [easy|].
  destruct (Z.log2_spec z) as [_ Hlt]; [lia|].
  eapply Z.lt_le_trans; [exact Hlt|].
  apply Z.pow_le_mono_l. pose proof (Z.log2_nonneg z). lia.
Qed.

(** The decimal text of an integer reads back as the binary64 number
    nearest to that integer, which is the integer itself up to 2^53. *)
Lemma parseInt_decimal z :
  Js.parseInt (Decimal.show z) = Binary64.round (inject_Z z).
Proof.
  unfold Decimal.show. rewrite !Nat.add_1_r.
  destruct (Z.ltb_spec z 0).
  - destruct (parse_unsigned_decimal (Z.to_nat (Z.log2 (- z))) (- z))
      as [Hu _]; [split; [lia | apply pow10_log2; lia]|].
    change (Js.parseInt (String "-" ?s)) with (Js.num_neg (Js.parse_unsigned s)).
    rewrite Hu, <- round_opp. f_equal.
    unfold inject_Z, Qopp. cbn [Qnum Qden]. now rewrite Z.opp_involutive.
  - apply parse_unsigned_decimal. split; [lia | now apply pow10_log2].
Qed.

Lemma parseInt_decimal_exact z :
  Z.abs z <= 2 ^ 53 -> Js.parseInt (Decimal.show z) = of_Z z.
Proof.
  intros Hz. rewrite parseInt_decimal. now apply round_integer_small.
Qed.

(** ** Path segments with text after the digits *)

Lemma decimal_app fuel : forall z acc t,
  (Decimal.decimal fuel z acc ++ t)%string
  = Decimal.decimal fuel z (acc ++ t)%string.
Proof.
  induction fuel as [|fuel IH]; intros z acc t; simpl; [reflexivity|].
  destruct (z <? 10); [reflexivity|]. now rewrite IH.
Qed.

Lemma parse_unsigned_zero c s :
  c <> "x"%char -> c <> "X"%char ->
  Js.parse_unsigned (String "0" (String c s))
  = Js.parse_digits 10 (String "0" (String c s)).
Proof.
  intros Hx HX.
  destruct c as [[] [] [] [] [] [] [] []]; try reflexivity; congruence.
Qed.

Lemma digits_prefix_unread rest z :
  unread rest = true -> Js.digits_prefix 10 rest z = z.
Proof.
  destruct rest as [|c rest]; simpl; [reflexivity|].
  now destruct (Js.digit_value 10 c).
Qed.

Lemma parseInt_decimal_then z rest :
  0 <= z -> unread rest = true ->
  Js.parseInt (Decimal.show z ++ rest) = Binary64.round (inject_Z z).
Proof.
  intros Hz Hrest. unfold Decimal.show.
  destruct (Z.ltb_spec z 0); [lia|].
  rewrite Nat.add_1_r, decimal_app. simpl append.
  pose proof (digits_prefix_decimal _ z rest
                (conj Hz (pow10_log2 z Hz))) as Hval.
  rewrite (digits_prefix_unread _ _ Hrest) in Hval.
  destruct (decimal_shape (Z.to_nat (Z.log2 z)) z rest)
    as (d & rest' & Heq & Hd & Hshape).
  rewrite Heq in *.
  assert (Hdigits : Js.parse_digits 10 (String (Decimal.digit d) rest')
                    = Binary64.round (inject_Z z)).
  { unfold Js.parse_digits. rewrite (digit_value_digit _ Hd).
    now rewrite Hval. }
  rewrite <- Hdigits.
  destruct Hshape as [-> | (d' & rest'' & -> & Hd')].
  - each_digit d Hd; try reflexivity.
    destruct rest as [|c rest]; [reflexivity|].
    simpl in Hrest. destruct (Js.digit_value 10 c); [discriminate|].
    apply andb_true_iff in Hrest as [Hx HX].
    apply negb_true_iff, Ascii.eqb_neq in Hx, HX.
    change (Decimal.digit 0) with "0"%char.
    change (Js.parseInt (String "0" (String c rest)))
      with (Js.parse_unsigned (String "0" (String c rest))).
    now apply parse_unsigned_zero.
  - each_digit d Hd; try reflexivity; each_digit d' Hd'; reflexivity.
Qed.

(** ** The books: create, read, replace, update, delete *)

Section Books.

Context {engine : Engine}.

(** C1 (amended). A create whose [title] and [author] are truthy, as
    non-empty strings are, answers 201 and gives the new book the value of
    the counter [nextBookId], which then grows by one. In every store the
    server reaches, that value is above every identifier in the collection,
    and it is one more than the greatest of them exactly when the book that
    got the identifier before it is still there. A Get of the new
    identifier afterwards returns the new book: a Get with any path segment
    that reads as the identifier, its decimal text among them (the counter
    being a binary64 integer, at most 2^53). *)
Theorem post_book_assigns_counter thisYear body st :
  reachable st ->
  Js.to_boolean (Js.get "title" body) = true ->
  Js.to_boolean (Js.get "author" body) = true ->
  exists newBook,
    post_book thisYear body st
    = (status_json 201
         [("success", VBool true);
          ("message", VStr "Book created successfully!");
          ("data", VObj newBook)],
       {| books := books st ++ [newBook]; users := users st;
          nextBookId := nextBookId st + 1; nextUserId := nextUserId st |})
    /\ Js.get "id" newBook = VInt (nextBookId st)
    /\ (forall b, b ∈ books st ->
          exists n, Js.get "id" b = VInt n /\ n < nextBookId st)
    /\ (nextBookId st = max_id (books st) + 1
        <-> exists b, b ∈ books st
                      /\ Js.get "id" b = VInt (nextBookId st - 1))
    /\ (forall id, Js.parseInt id = of_Z (nextBookId st) ->
          get_book id (post_book thisYear body st).2
          = json [("success", VBool true); ("pathParam", VStr id);
                  ("data", VObj newBook)])
    /\ (nextBookId st <= 2 ^ 53 ->
        get_book (Decimal.show (nextBookId st))
          (post_book thisYear body st).2
        = json [("success", VBool true);
                ("pathParam", VStr (Decimal.show (nextBookId st)));
                ("data", VObj newBook)]).
Proof.
  intros Hr Ht Ha. pose proof (reachable_sound _ Hr) as Hs.
  unfold post_book. rewrite Ht, Ha. simpl.
  eexists. split; [reflexivity|]. split; [reflexivity|].
  destruct Hs as (Hc & ns & H & Hnd & Hlt).
  match goal with
  | |- _ /\ _ /\ ?G /\ _ => assert (Hget : G)
  end.
  { intros id Hid. unfold get_book. rewrite Hid. simpl.
    rewrite find_first; [reflexivity | | ].
    - apply (ids_not_in _ ns); [exact H|].
      intros Hin. rewrite Forall_forall in Hlt.
      specialize (Hlt _ Hin). simpl in Hlt. lia.
    - rewrite (has_id_of_Z (nextBookId st));
        [apply Z.eqb_refl | reflexivity]. }
  split; [|split; [|split; [exact Hget|]]].
  - intros b Hb. apply list_elem_of_lookup in Hb as [i Hb].
    destruct (Forall2_lookup_l _ _ _ _ _ H Hb) as (n & Hn & Hget').
    exists n. split; [exact Hget'|].
    rewrite Forall_lookup in Hlt. specialize (Hlt _ _ Hn). simpl in Hlt. lia.
  - assert (Hs : sound st) by (split; [exact Hc | now exists ns]).
    split.
    + intros Hmax. apply (max_id_last_present st Hs).
      * now apply reachable_counter.
      * lia.
    + intros (b & Hb & Hid).
      rewrite (max_id_last st b Hs Hb Hid). lia.
  - intros Hsmall. apply Hget, parseInt_decimal_exact. lia.
Qed.

(** C9 (amended). On a valid create the stored [year] is the one supplied
    when that is truthy, and the current year otherwise: when [year] is
    omitted, and also when it is supplied as 0, null, false or the empty
    string. Likewise [genre] with "General". *)
Theorem post_book_defaults thisYear body st :
  Js.to_boolean (Js.get "title" body) = true ->
  Js.to_boolean (Js.get "author" body) = true ->
  exists newBook,
    books (post_book thisYear body st).2 = books st ++ [newBook]
    /\ Js.get "data" (sent (post_book thisYear body st).1) = VObj newBook
    /\ Js.get "year" newBook
       = (if Js.to_boolean (Js.get "year" body) then Js.get "year" body
          else VInt thisYear)
    /\ Js.get "genre" newBook
       = (if Js.to_boolean (Js.get "genre" body) then Js.get "genre" body
          else VStr "General")
    /\ (Js.has_key "year" body = false ->
        Js.get "year" newBook = VInt thisYear)
    /\ (Js.has_key "genre" body = false ->
        Js.get "genre" newBook = VStr "General").
Proof.
  intros Ht Ha. unfold post_book. rewrite Ht, Ha. simpl.
  eexists. split; [reflexivity|]. split; [reflexivity|].
  unfold Js.or_else. simpl. repeat split.
  - intros Hk. now rewrite (get_absent _ _ Hk).
  - intros Hk. now rewrite (get_absent _ _ Hk).
Qed.

(** C2 (amended). For an identifier in the store, a PUT whose [title],
    [author], [year] and [genre] are all truthy answers 200 and a Get
    afterwards returns exactly these four values under the identifier; a
    PUT in which one of the four is omitted, or supplied falsy (0, null,
    false, the empty string), answers 400 and leaves the store as it was.
    For an identifier not in the store the answer is 404. *)
Theorem put_book_replaces id body st :
  (present id st = false ->
   put_book id body st = (not_found, st) /\ status not_found = 404)
  /\ (present id st = true ->
      (forall k, k ∈ ["title"; "author"; "year"; "genre"] ->
         Js.has_key k body = false ->
         status (put_book id body st).1 = 400
         /\ (put_book id body st).2 = st)
      /\ (forall k, k ∈ ["title"; "author"; "year"; "genre"] ->
           Js.to_boolean (Js.get k body) = false ->
           status (put_book id body st).1 = 400
           /\ (put_book id body st).2 = st)
      /\ ((forall k, k ∈ ["title"; "author"; "year"; "genre"] ->
             Js.to_boolean (Js.get k body) = true) ->
          let replaced :=
            [("id", VNum (Js.parseInt id));
             ("title", Js.get "title" body);
             ("author", Js.get "author" body);
             ("year", Js.get "year" body);
             ("genre", Js.get "genre" body)] in
          status (put_book id body st).1 = 200
          /\ (exists i old,
                books st !! i = Some old
                /\ has_id (Js.parseInt id) old = true
                /\ (put_book id body st).2
                   = with_books (<[i := replaced]> (books st)) st)
          /\ get_book id (put_book id body st).2
             = json [("success", VBool true); ("pathParam", VStr id);
                     ("data", VObj replaced)])).
Proof.
  split.
  { intros Hp. unfold put_book. now rewrite (absent_findIndex _ _ Hp). }
  intros Hp.
  destruct (present_findIndex _ _ Hp) as (i & old & Hi & Hold & Hid & Hpre).
  assert (Hfalsy : forall k, k ∈ ["title"; "author"; "year"; "genre"] ->
            Js.to_boolean (Js.get k body) = false ->
            status (put_book id body st).1 = 400
            /\ (put_book id body st).2 = st).
  { intros k Hk Hf. unfold put_book. rewrite Hi.
    rewrite !elem_of_cons, elem_of_nil in Hk.
    destruct Hk as [-> | [-> | [-> | [-> | []]]]]; rewrite Hf;
      repeat match goal with
             | |- context [Js.to_boolean ?v] => destruct (Js.to_boolean v)
             end; now simpl. }
  split; [|split; [exact Hfalsy|]].
  { intros k Hk Habs. apply (Hfalsy k Hk).
    now rewrite (get_absent _ _ Habs). }
  intros Hall replaced. unfold put_book. rewrite Hi.
  rewrite !(Hall _) by (rewrite !elem_of_cons; tauto). simpl.
  split; [reflexivity|]. split.
  - exists i, old. now repeat split.
  - unfold get_book. simpl.
    rewrite (find_insert _ _ _ old); try easy.
    now apply (has_id_self _ old).
Qed.

(** C3. A PATCH of a stored book keeps every field that the payload does
    not name, keeps the identifier even when the payload has an [id], and
    reports as [fieldsChanged] exactly the keys of the payload; the other
    books stay as they are. *)
Theorem patch_book_frame id body st :
  present id st = true ->
  exists i current updated,
    books st !! i = Some current
    /\ has_id (Js.parseInt id) current = true
    /\ patch_book id body st
       = (json
            [("success", VBool true);
             ("message", VStr "Book updated!");
             ("method", VStr "PATCH - Partial update");
             ("previous", VObj (Js.spread current));
             ("updated", VObj updated);
             ("fieldsChanged", VArr (map VStr (Js.keys body)))],
          with_books (<[i := updated]> (books st)) st)
    /\ (forall k, Js.has_key k body = false -> k <> "id" ->
          Js.get k updated = Js.get k current)
    /\ (forall k, Js.has_key k body = true -> k <> "id" ->
          Js.get k updated = Js.get k body)
    /\ Js.get "id" updated = VNum (Js.parseInt id)
    /\ (reachable st -> Js.get "id" updated = Js.get "id" current)
    /\ (forall j, j <> i ->
          books (patch_book id body st).2 !! j = books st !! j).
Proof.
  intros Hp.
  destruct (present_findIndex _ _ Hp) as (i & cur & Hi & Hcur & Hid & _).
  exists i, cur. eexists. split; [exact Hcur|]. split; [exact Hid|].
  unfold patch_book. rewrite Hi, (nth_lookup_Some _ _ _ _ Hcur).
  split; [reflexivity|]. repeat split.
  - intros k Hk Hne. rewrite get_set_ne by congruence.
    now rewrite get_assign, Hk, get_spread.
  - intros k Hk Hne. rewrite get_set_ne by congruence.
    now rewrite get_assign, Hk.
  - apply get_set_eq.
  - intros Hr. rewrite get_set_eq.
    destruct (reachable_sound _ Hr) as (_ & ns & H & _).
    parse_cases id t m.
    { now rewrite has_id_NaN in Hid. }
    { now rewrite (ids_at_Inf _ _ _ _ _ H Hcur) in Hid. }
    destruct (ids_at _ _ _ _ _ H Hcur Hid) as [_ Hget]. now rewrite Hget.
  - intros j Hj. simpl. now apply list_lookup_insert_ne.
Qed.

(** C5. A DELETE of an identifier that is not in the store answers 404 and
    leaves the store as it was. In every store the server reaches, a DELETE
    of an identifier that is there removes that book and no other;
    afterwards the identifier is not in the store, so a Get of it answers
    404 and the same DELETE again answers 404 and changes nothing. *)
Theorem delete_book_once id st :
  (present id st = false ->
   delete_book id st = (not_found, st) /\ status not_found = 404)
  /\ (reachable st -> present id st = true ->
      exists i b,
        books st !! i = Some b
        /\ has_id (Js.parseInt id) b = true
        /\ delete_book id st
           = (json
                [("success", VBool true);
                 ("message", VStr "Book deleted successfully!");
                 ("deletedBook", VObj b)],
              with_books (delete i (books st)) st)
        /\ present id (delete_book id st).2 = false
        /\ status (get_book id (delete_book id st).2) = 404
        /\ delete_book id (delete_book id st).2
           = (not_found, (delete_book id st).2)).
Proof.
  split.
  { intros Hp. unfold delete_book. now rewrite (absent_findIndex _ _ Hp). }
  intros Hr Hp.
  destruct (present_findIndex _ _ Hp) as (i & b & Hi & Hb & Hid & _).
  exists i, b. split; [exact Hb|]. split; [exact Hid|].
  assert (Hdel : delete_book id st
                 = (json
                      [("success", VBool true);
                       ("message", VStr "Book deleted successfully!");
                       ("deletedBook", VObj b)],
                    with_books (delete i (books st)) st)).
  { unfold delete_book. rewrite Hi, splice1_delete, Hb. reflexivity. }
  pose proof (sound_delete_gone id st i (reachable_sound _ Hr) Hi) as Hgone.
  rewrite Hdel. simpl. split; [reflexivity|]. split; [exact Hgone|]. split.
  - unfold get_book. simpl. now rewrite (find_None _ _ Hgone).
  - unfold delete_book. simpl.
    now rewrite (proj2 (findIndex_None _ _) Hgone).
Qed.


End Books.

(** ** Listing the books *)


Section Listing.

Context {engine : Engine} {coercion : Coercion}.



(** C4. The request [GET /api/books?limit=-1] on the initial store: the
    answer carries the first three of the four books, not the empty
    list. *)
Theorem get_books_negative_limit :
  get_books [("limit", VStr "-1")] initial
  = books_found [("limit", VStr "-1")] (take 3 (books initial))
  /\ Js.get "count" (sent (get_books [("limit", VStr "-1")] initial))
     = VInt 3.
Proof. split; reflexivity. Qed.

(** C10 (amended). When [limit] is truthy, as a non-empty string is, and
    [parseInt] cannot read its text as a number, a listing that is answered
    200 carries the empty list whatever the books are. It is answered 200
    when the genre filter, the sort and the conversion of [limit] to text
    raise no exception, as when [genre] and [sort] are absent and [limit]
    is a string; an exception in one of the three is answered 500. *)
Theorem get_books_unparsed_limit query st :
  Js.to_boolean (Js.get "limit" query) = true ->
  (forall text,
     string_of (Js.get "limit" query) = Return text ->
     Js.parseInt text = NaN) ->
  (status (get_books query st) = 200 ->
   get_books query st = books_found query [])
  /\ (forall result sorted text,
        filter_genre query (books st) = Return result ->
        sort_field query result = Return sorted ->
        string_of (Js.get "limit" query) = Return text ->
        get_books query st = books_found query [])
  /\ (forall m,
        filter_genre query (books st) = Throw m
        \/ (exists result,
              filter_genre query (books st) = Return result
              /\ (sort_field query result = Throw m
                  \/ (exists sorted,
                        sort_field query result = Return sorted
                        /\ string_of (Js.get "limit" query) = Throw m))) ->
        get_books query st = internal_error m)
  /\ (forall s,
        Js.get "limit" query = VStr s ->
        Js.to_boolean (Js.get "genre" query) = false ->
        Js.to_boolean (Js.get "sort" query) = false ->
        get_books query st = books_found query []).
Proof.
  intros Ht Hnan.
  assert (Hok : forall result sorted text,
             filter_genre query (books st) = Return result ->
             sort_field query result = Return sorted ->
             string_of (Js.get "limit" query) = Return text ->
             get_books query st = books_found query []).
  { intros result sorted text Hf Hs Hl. unfold get_books.
    rewrite Hf. simpl. rewrite Hs. simpl.
    unfold limit. rewrite Ht, Hl. simpl. now rewrite (Hnan _ Hl). }
  split; [|split; [exact Hok|split]].
  - intros H200. unfold get_books in H200.
    case_eq (filter_genre query (books st));
      [intros r Hf | intros m Hf; now rewrite Hf in H200].
    rewrite Hf in H200. simpl in H200.
    case_eq (sort_field query r);
      [intros r' Hs | intros m Hs; now rewrite Hs in H200].
    rewrite Hs in H200. simpl in H200. unfold limit in H200.
    rewrite Ht in H200.
    case_eq (string_of (Js.get "limit" query));
      [intros text Hl | intros m Hl; now rewrite Hl in H200].
    exact (Hok r r' text Hf Hs Hl).
  - intros m [Hf | (result & Hf & [Hs | (sorted & Hs & Hl)])];
      unfold get_books; rewrite Hf; simpl; [reflexivity| |];
      rewrite Hs; simpl; [reflexivity|].
    unfold limit. now rewrite Ht, Hl.
  - intros s Hl Hg Hsort. apply (Hok (books st) (books st) s).
    + unfold filter_genre. now rewrite Hg.
    + unfold sort_field. now rewrite Hsort.
    + now rewrite Hl.
Qed.

End Listing.

(** ** The users *)

(** C6 (amended). [GET /api/users] answers 401 when the Authorization
    header is absent or empty, 403 when it is a non-empty value other than
    "Bearer secret-token-123", and 200 with the whole user list when it is
    exactly that value. *)
Theorem get_users_auth headers st :
  let authHeader := Js.get "authorization" headers in
  (Js.has_key "authorization" headers = false ->
   status (get_users headers st) = 401)
  /\ (Js.to_boolean authHeader = false ->
      status (get_users headers st) = 401)
  /\ (Js.to_boolean authHeader = true ->
      authHeader <> VStr "Bearer secret-token-123" ->
      status (get_users headers st) = 403)
  /\ (authHeader = VStr "Bearer secret-token-123" ->
      get_users headers st
      = json
          [("success", VBool true);
           ("message", VStr "Authentication successful!");
           ("data", VArr (map VObj (users st)))]).
Proof.
  intros authHeader. unfold get_users. fold authHeader.
  split; [|split; [|split]].
  - intros Habs. unfold authHeader. now rewrite (get_absent _ _ Habs).
  - now intros ->.
  - intros -> Hne.
    destruct (Js.strict_eq_str authHeader "Bearer secret-token-123") eqn:E;
      [|reflexivity].
    unfold Js.strict_eq_str in E. destruct authHeader; try discriminate.
    apply String.eqb_eq in E. congruence.
  - now intros ->.
Qed.

(** ** The calculator *)

Section Calculator.

Context {engine : Engine}.

(** C7. [POST /api/calculate] answers 400 when [a] or [b] is not a number,
    400 when both are numbers and the operation is none of add, subtract,
    multiply and divide, and 400 for divide with [b] zero; otherwise it
    answers 200 with the operands, the [result] and the [formula] text
    built from the operands, the operation and the result. The result is
    the sum, difference, product or quotient rounded to binary64: it is the
    exact one whenever that is a binary64 number, as for integers up to
    2^53. Multiplying 7 by 8 gives 56. *)
Theorem calculate_cases body :
  let operation := Js.get "operation" body in
  let a := Js.get "a" body in
  let b := Js.get "b" body in
  let result := Js.get "result" (sent (calculate body)) in
  ((forall x, a <> VNum x) \/ (forall y, b <> VNum y) ->
   status (calculate body) = 400)
  /\ (forall x y, a = VNum x -> b = VNum y ->
      (~ In operation [VStr "add"; VStr "subtract"; VStr "multiply";
                       VStr "divide"] ->
       status (calculate body) = 400)
      /\ (operation = VStr "divide" -> Js.num_eq y (of_Z 0) = true ->
          status (calculate body) = 400)
      /\ (forall op r,
            operation = VStr op ->
            (op = "add" /\ r = Num.add x y)
            \/ (op = "subtract" /\ r = Num.sub x y)
            \/ (op = "multiply" /\ r = Num.mul x y)
            \/ (op = "divide" /\ Js.num_eq y (of_Z 0) = false
                /\ r = Num.div x y) ->
            calculate body
            = json
                [("success", VBool true);
                 ("operation", VStr op);
                 ("a", VNum x);
                 ("b", VNum y);
                 ("result", VNum r);
                 ("formula",
                  VStr (number_text x ++ " " ++ op ++ " " ++ number_text y
                        ++ " = " ++ number_text r))]))
  /\ (forall p q, a = VNum (Fin p) -> b = VNum (Fin q) ->
      (operation = VStr "add" ->
       result = VNum (Binary64.round (p + q)))
      /\ (operation = VStr "subtract" ->
          result = VNum (Binary64.round (p - q)))
      /\ (operation = VStr "multiply" ->
          result = VNum (Binary64.round (p * q)))
      /\ (operation = VStr "divide" -> ~ (q == 0)%Q ->
          result = VNum (Binary64.round (p / q))))
  /\ (forall m n, a = VInt m -> b = VInt n ->
      (operation = VStr "add" -> Z.abs (m + n) <= 2 ^ 53 ->
       result = VInt (m + n))
      /\ (operation = VStr "subtract" -> Z.abs (m - n) <= 2 ^ 53 ->
          result = VInt (m - n))
      /\ (operation = VStr "multiply" -> Z.abs (m * n) <= 2 ^ 53 ->
          result = VInt (m * n)))
  /\ (operation = VStr "multiply" -> a = VInt 7 -> b = VInt 8 ->
      result = VInt 56).
Proof.
  intros operation a b result. unfold result, calculate.
  fold operation. fold a. fold b.
  split; [|split; [|split; [|split]]].
  - intros [Ha | Hb].
    + destruct a; try reflexivity. now destruct (Ha n).
    + destruct b; try (destruct a; reflexivity). now destruct (Hb n).
  - intros x y -> ->. simpl. repeat split.
    + intros Hop. simpl in Hop.
      destruct operation as [| | | |s| |]; try reflexivity. simpl.
      destruct (String.eqb_spec s "add") as [->|_]; [tauto|].
      destruct (String.eqb_spec s "subtract") as [->|_]; [tauto|].
      destruct (String.eqb_spec s "multiply") as [->|_]; [tauto|].
      destruct (String.eqb_spec s "divide") as [->|_]; [tauto|].
      reflexivity.
    + intros -> Hy. simpl. now rewrite Hy.
    + intros op r ->
        [[-> ->] | [[-> ->] | [[-> ->] | (-> & Hy & ->)]]]; simpl;
        [reflexivity | reflexivity | reflexivity |].
      now rewrite Hy.
  - intros p q -> ->. simpl. repeat split; intros ->; [easy | easy | easy |].
    intros Hq. simpl.
    destruct (Qeq_bool q (inject_Z 0)) eqn:E.
    + apply Qeq_bool_iff in E. contradiction.
    + unfold Num.div. simpl.
      destruct (Qeq_bool q 0) eqn:E'; [|reflexivity].
      apply Qeq_bool_iff in E'. contradiction.
  - intros m n -> ->. simpl. repeat split; intros -> Hsmall; simpl;
      unfold VInt; do 2 f_equal;
      rewrite <- (round_integer_small _ Hsmall); apply round_comp;
      unfold Qeq, Qplus, Qminus, Qmult, Qopp, inject_Z; simpl; lia.
  - now intros -> -> ->.
Qed.

End Calculator.

(** ** Writing requests: what they keep *)

Lemma handle_ids r st ns :
  ids_are (books st) ns ->
  exists ns',
    ids_are (books (handle r st).2) ns'
    /\ nextBookId st <= nextBookId (handle r st).2
    /\ (ns' = ns
        \/ (ns' = ns ++ [nextBookId st]
            /\ nextBookId (handle r st).2 = nextBookId st + 1)
        \/ exists i, ns' = delete i ns).
Proof.
  intros H. destruct r as [thisYear body | id body | id body | id | hs body];
    simpl.
  - unfold post_book. destruct (_ || _); simpl.
    + exists ns. split; [exact H|]. split; [lia | now left].
    + exists (ns ++ [nextBookId st]). split; [|split; [lia | right; now left]].
      apply Forall2_app; [exact H|]. now repeat constructor.
  - unfold put_book. parse_cases id t m.
    { rewrite findIndex_NaN. simpl. exists ns. split; [exact H|].
      split; [lia | now left]. }
    { rewrite (findIndex_Inf _ _ _ H). simpl. exists ns. split; [exact H|].
      split; [lia | now left]. }
    destruct (Js.findIndex _ _) as [i|] eqn:Hi; simpl;
      [|exists ns; split; [exact H|]; split; [lia | now left]].
    destruct (_ || _); simpl;
      [exists ns; split; [exact H|]; split; [lia | now left]|].
    destruct (findIndex_Some _ _ _ Hi) as (b & Hb & Hid & _).
    exists ns. split; [|split; [lia | now left]].
    now apply (ids_insert _ _ _ b m).
  - unfold patch_book. parse_cases id t m.
    { rewrite findIndex_NaN. simpl. exists ns. split; [exact H|].
      split; [lia | now left]. }
    { rewrite (findIndex_Inf _ _ _ H). simpl. exists ns. split; [exact H|].
      split; [lia | now left]. }
    destruct (Js.findIndex _ _) as [i|] eqn:Hi; simpl;
      [|exists ns; split; [exact H|]; split; [lia | now left]].
    destruct (findIndex_Some _ _ _ Hi) as (b & Hb & Hid & _).
    exists ns. simpl. split; [|split; [lia | now left]].
    apply (ids_insert _ _ _ b m); try easy. apply get_set_eq.
  - unfold delete_book.
    destruct (Js.findIndex _ _) as [i|] eqn:Hi.
    2:{ simpl. exists ns. split; [exact H|]. split; [lia | now left]. }
    rewrite splice1_delete. simpl.
    exists (delete i ns). split; [now apply Forall2_delete|].
    split; [lia|]. right. right. now exists i.
  - unfold post_user. destruct (negb _); simpl.
    + exists ns. split; [exact H|]. split; [lia | now left].
    + destruct (_ || _); simpl; exists ns;
        (split; [exact H|]; split; [lia | now left]).
Qed.

Lemma reachable_handle r st : reachable st -> reachable (handle r st).2.
Proof.
  intros Hr. destruct r; simpl;
    auto using reach_post_book, reach_put_book, reach_patch_book,
      reach_delete_book, reach_post_user.
Qed.

Lemma reachable_replay_from rs : forall st,
  reachable st -> reachable (replay rs st).
Proof.
  induction rs as [|r rs IH]; intros st Hr; simpl; [exact Hr|].
  apply IH. now apply reachable_handle.
Qed.

Lemma VInt_inj m n : VInt m = VInt n -> m = n.
Proof. unfold VInt, of_Z, inject_Z. congruence. Qed.

Lemma sorted_snoc ns c :
  StronglySorted Z.lt ns -> Forall (fun n => n < c) ns ->
  StronglySorted Z.lt (ns ++ [c]).
Proof.
  induction 1 as [|n ns Hs IH Hn]; intros Hlt; simpl.
  - repeat constructor.
  - apply Forall_cons in Hlt as [Hnc Hlt]. constructor; [now apply IH|].
    apply Forall_app. split; [exact Hn|]. now repeat constructor.
Qed.

Lemma sorted_delete i ns :
  StronglySorted Z.lt ns -> StronglySorted Z.lt (delete i ns).
Proof.
  intros Hs. revert i. induction Hs as [|n ns Hs IH Hn]; intros [|i]; simpl;
    try constructor; auto.
  now apply Forall_delete.
Qed.

(** The identifiers of the stored books, in the order of the list: in every
    store the server reaches they are integers that grow along the list and
    stay below the counter. *)
Lemma reachable_ordered st :
  reachable st ->
  exists ns,
    ids_are (books st) ns /\ StronglySorted Z.lt ns
    /\ Forall (fun n => 0 < n < nextBookId st) ns.
Proof.
  assert (Hstep : forall r st,
             (exists ns,
                ids_are (books st) ns /\ StronglySorted Z.lt ns
                /\ Forall (fun n => 0 < n < nextBookId st) ns) ->
             0 < nextBookId st ->
             exists ns,
               ids_are (books (handle r st).2) ns /\ StronglySorted Z.lt ns
               /\ Forall (fun n => 0 < n < nextBookId (handle r st).2) ns).
  { intros r s (ns & H & Hs & Hlt) Hc.
    destruct (handle_ids r s ns H) as (ns' & H' & Hmono & Hcase).
    exists ns'. split; [exact H'|].
    destruct Hcase as [-> | [[-> Hnext] | [i ->]]].
    - split; [exact Hs|]. eapply Forall_impl; [exact Hlt|].
      simpl. intros; lia.
    - split.
      + apply sorted_snoc; [exact Hs|].
        eapply Forall_impl; [exact Hlt|]. simpl. intros; lia.
      + apply Forall_app. split.
        * eapply Forall_impl; [exact Hlt|]. simpl. intros; lia.
        * apply Forall_singleton. lia.
    - split; [now apply sorted_delete|]. apply Forall_delete.
      eapply Forall_impl; [exact Hlt|]. simpl. intros; lia. }
  induction 1 as [|y body st Hr IH|id body st Hr IH|id body st Hr IH
                  |id st Hr IH|hs body st Hr IH].
  - exists [1; 2; 3; 4]. split; [repeat constructor|].
    split; repeat constructor; simpl; lia.
  - apply (Hstep (PostBook y body) st IH).
    now destruct (reachable_sound _ Hr).
  - apply (Hstep (PutBook id body) st IH).
    now destruct (reachable_sound _ Hr).
  - apply (Hstep (PatchBook id body) st IH).
    now destruct (reachable_sound _ Hr).
  - apply (Hstep (DeleteBook id) st IH).
    now destruct (reachable_sound _ Hr).
  - apply (Hstep (PostUser hs body) st IH).
    now destruct (reachable_sound _ Hr).
Qed.

Lemma sorted_lookup ns : StronglySorted Z.lt ns ->
  forall i j m n, (i < j)%nat -> ns !! i = Some m -> ns !! j = Some n -> m < n.
Proof.
  induction 1 as [|x ns Hs IH Hx]; intros i j m n Hij Hi Hj; [easy|].
  destruct j as [|j]; [lia|]. simpl in Hj.
  destruct i as [|i]; simpl in Hi.
  - injection Hi as <-. rewrite Forall_lookup in Hx. now apply (Hx j).
  - apply (IH i j); [lia | easy | easy].
Qed.

(** X1. In every store the server reaches, the books are listed in the
    order of their identifiers: a book further down the list has a greater
    identifier, all of them positive integers below the counter. So no two
    books share an identifier, and the list is in creation order. *)
Theorem books_in_id_order st i j a b :
  reachable st -> (i < j)%nat ->
  books st !! i = Some a -> books st !! j = Some b ->
  exists m n,
    Js.get "id" a = VInt m /\ Js.get "id" b = VInt n
    /\ 0 < m /\ m < n /\ n < nextBookId st.
Proof.
  intros Hr Hij Ha Hb.
  destruct (reachable_ordered st Hr) as (ns & H & Hs & Hlt).
  destruct (Forall2_lookup_l _ _ _ _ _ H Ha) as (m & Hm & Hgm).
  destruct (Forall2_lookup_l _ _ _ _ _ H Hb) as (n & Hn & Hgn).
  exists m, n. split; [exact Hgm|]. split; [exact Hgn|].
  rewrite Forall_lookup in Hlt.
  pose proof (Hlt _ _ Hm) as Hm'. pose proof (Hlt _ _ Hn) as Hn'.
  simpl in *. pose proof (sorted_lookup ns Hs i j m n Hij Hm Hn). lia.
Qed.

(** X2. An identifier is never given twice. Whatever requests follow, a
    book found later under an identifier below the present counter is the
    descendant of a book that has this identifier now; an identifier that
    was deleted, or that no book has, does not come back. The counter never
    decreases. *)
Theorem ids_never_reused st rs :
  reachable st ->
  nextBookId st <= nextBookId (replay rs st)
  /\ forall b n,
       b ∈ books (replay rs st) -> Js.get "id" b = VInt n ->
       n < nextBookId st ->
       exists b0, b0 ∈ books st /\ Js.get "id" b0 = VInt n.
Proof.
  intros Hr. destruct (reachable_sound _ Hr) as (_ & ns0 & H0 & _ & Hlt0).
  assert (Hgen : forall rs s ns,
             ids_are (books s) ns -> nextBookId st <= nextBookId s ->
             (forall n, n ∈ ns -> n < nextBookId st -> n ∈ ns0) ->
             exists ns',
               ids_are (books (replay rs s)) ns'
               /\ nextBookId st <= nextBookId (replay rs s)
               /\ forall n, n ∈ ns' -> n < nextBookId st -> n ∈ ns0).
  { clear rs. induction rs as [|r rs IH]; intros s ns H Hle Hin; simpl.
    - exists ns. now repeat split.
    - destruct (handle_ids r s ns H) as (ns' & H' & Hmono & Hcase).
      apply (IH _ ns' H'); [lia|].
      destruct Hcase as [-> | [[-> _] | [i ->]]]; [exact Hin | |].
      + intros n Hn Hlt. apply elem_of_app in Hn as [Hn | Hn];
          [now apply Hin|].
        apply list_elem_of_singleton in Hn. lia.
      + intros n Hn Hlt. apply Hin; [|exact Hlt].
        eapply elem_of_sublist; [exact Hn | apply sublist_delete]. }
  destruct (Hgen rs st ns0 H0) as (ns' & H' & Hle & Hin); [lia | auto |].
  split; [exact Hle|]. intros b n Hb Hid Hlt.
  apply list_elem_of_lookup in Hb as [i Hb].
  destruct (Forall2_lookup_l _ _ _ _ _ H' Hb) as (n' & Hn' & Hget).
  rewrite Hid in Hget. apply VInt_inj in Hget. subst n'.
  assert (Hn0 : n ∈ ns0).
  { apply Hin; [|exact Hlt]. apply list_elem_of_lookup. eauto. }
  apply list_elem_of_lookup in Hn0 as [j Hj].
  destruct (Forall2_lookup_r _ _ _ _ _ H0 Hj) as (b0 & Hb0 & Hget0).
  exists b0. split; [|exact Hget0]. apply list_elem_of_lookup. eauto.
Qed.

(** X3. A request that is answered with an error leaves the store as it
    was, and the requests that write answer with 200, 201, 400, 401 or 404
    only. *)
Theorem refused_write_changes_nothing r st :
  (400 <= status (handle r st).1 -> (handle r st).2 = st)
  /\ status (handle r st).1 ∈ [200; 201; 400; 401; 404].
Proof.
  destruct r as [thisYear body | id body | id body | id | hs body]; simpl.
  - unfold post_book. destruct (_ || _); simpl;
      (split; [intros; first [reflexivity | lia] | rewrite !elem_of_cons; auto 10]).
  - unfold put_book. destruct (Js.findIndex _ _); simpl;
      [destruct (_ || _); simpl|];
      (split; [intros; first [reflexivity | lia] | rewrite !elem_of_cons; auto 10]).
  - unfold patch_book. destruct (Js.findIndex _ _); simpl;
      (split; [intros; first [reflexivity | lia] | rewrite !elem_of_cons; auto 10]).
  - unfold delete_book. destruct (Js.findIndex _ _);
      [rewrite splice1_delete|]; simpl;
      (split; [intros; first [reflexivity | lia] | rewrite !elem_of_cons; auto 10]).
  - unfold post_user. destruct (negb _); simpl;
      [|destruct (_ || _); simpl];
      (split; [intros; first [reflexivity | lia] | rewrite !elem_of_cons; auto 10]).
Qed.

(** X4. The number of books: a create answered 201 adds one, a delete
    answered 200 takes one away, and a PUT, a PATCH or a created user
    leaves it as it is. *)
Theorem books_count st :
  (forall thisYear body,
     status (post_book thisYear body st).1 = 201 ->
     length (books (post_book thisYear body st).2) = S (length (books st)))
  /\ (forall id,
        status (delete_book id st).1 = 200 ->
        S (length (books (delete_book id st).2)) = length (books st))
  /\ (forall id body,
        length (books (put_book id body st).2) = length (books st)
        /\ length (books (patch_book id body st).2) = length (books st))
  /\ (forall headers body,
        length (books (post_user headers body st).2) = length (books st)).
Proof.
  split; [|split; [|split]].
  - intros thisYear body. unfold post_book.
    destruct (_ || _); simpl; [discriminate|].
    intros _. rewrite length_app. simpl. lia.
  - intros id. unfold delete_book.
    destruct (Js.findIndex _ _) as [i|] eqn:Hi; [|discriminate].
    rewrite splice1_delete. simpl. intros _.
    destruct (findIndex_Some _ _ _ Hi) as (b & Hb & _).
    rewrite length_delete by eauto.
    apply lookup_lt_Some in Hb. lia.
  - intros id body. unfold put_book, patch_book.
    destruct (Js.findIndex _ _); simpl; [|easy].
    split; [|apply length_insert].
    destruct (_ || _); simpl; [reflexivity | apply length_insert].
  - intros headers body. unfold post_user.
    destruct (negb _); simpl; [reflexivity|]. now destruct (_ || _).
Qed.

(** ** Objects: keys *)

Lemma has_key_In k o : Js.has_key k o = true <-> k ∈ Js.keys o.
Proof.
  unfold Js.has_key. rewrite existsb_exists, list_elem_of_In. split.
  - intros (k' & Hin & E). apply String.eqb_eq in E. now subst.
  - intros Hin. exists k. split; [exact Hin | apply String.eqb_refl].
Qed.

Lemma keys_set k v o :
  Js.keys (Js.set k v o)
  = if Js.has_key k o then Js.keys o else Js.keys o ++ [k].
Proof.
  unfold Js.has_key, Js.keys.
  induction o as [|[k' v'] o IH]; simpl; [easy|].
  destruct (String.eqb_spec k k') as [->|Hne]; simpl; [easy|].
  rewrite IH. now destruct (existsb _ _).
Qed.

Lemma NoDup_keys_set k v o :
  NoDup (Js.keys o) -> NoDup (Js.keys (Js.set k v o)).
Proof.
  intros Hnd. rewrite keys_set.
  destruct (Js.has_key k o) eqn:E; [exact Hnd|].
  apply NoDup_app. split; [exact Hnd|]. split; [|apply NoDup_singleton].
  intros x Hx Hk. apply list_elem_of_singleton in Hk. subst x.
  apply has_key_In in Hx. congruence.
Qed.

Lemma NoDup_keys_fold (s : obj) ks t :
  NoDup (Js.keys t) ->
  NoDup (Js.keys
           (fold_left (fun acc k => Js.set k (Js.get k s) acc) ks t)).
Proof.
  revert t. induction ks as [|k ks IH]; intros t Hnd; simpl; [exact Hnd|].
  apply IH. now apply NoDup_keys_set.
Qed.

Lemma NoDup_keys_assign t s :
  NoDup (Js.keys t) -> NoDup (Js.keys (Js.assign t s)).
Proof. apply NoDup_keys_fold. Qed.

Lemma has_key_set k k' v o :
  Js.has_key k (Js.set k' v o) = String.eqb k k' || Js.has_key k o.
Proof.
  unfold Js.has_key. rewrite keys_set. fold (Js.has_key k' o).
  destruct (Js.has_key k' o) eqn:E.
  - destruct (String.eqb_spec k k') as [->|Hne]; simpl; [|easy].
    exact E.
  - rewrite existsb_app. simpl. rewrite orb_false_r. apply orb_comm.
Qed.

Lemma has_key_fold k (s : obj) ks t :
  Js.has_key k (fold_left (fun acc k' => Js.set k' (Js.get k' s) acc) ks t)
  = Js.has_key k t || existsb (String.eqb k) ks.
Proof.
  revert t. induction ks as [|k1 ks IH]; intros t; simpl.
  - now rewrite orb_false_r.
  - rewrite IH, has_key_set.
    destruct (String.eqb k k1), (Js.has_key k t); simpl;
      try reflexivity; now rewrite ?orb_true_r.
Qed.

Lemma has_key_assign k t s :
  Js.has_key k (Js.assign t s) = Js.has_key k t || Js.has_key k s.
Proof. apply has_key_fold. Qed.

(** Writing keys that are all there does not change the list of keys. *)
Lemma keys_fold_present (s : obj) ks t :
  (forall k, k ∈ ks -> Js.has_key k t = true) ->
  Js.keys (fold_left (fun acc k => Js.set k (Js.get k s) acc) ks t)
  = Js.keys t.
Proof.
  revert t. induction ks as [|k ks IH]; intros t Hall; simpl; [easy|].
  rewrite IH.
  - rewrite keys_set, Hall; [easy | apply list_elem_of_here].
  - intros k' Hk'. rewrite has_key_set, Hall; [apply orb_true_r|].
    now apply list_elem_of_further.
Qed.

(** Writing fresh keys, each once, appends them. *)
Lemma keys_fold_fresh (s : obj) ks t :
  NoDup ks -> (forall k, k ∈ ks -> Js.has_key k t = false) ->
  Js.keys (fold_left (fun acc k => Js.set k (Js.get k s) acc) ks t)
  = Js.keys t ++ ks.
Proof.
  revert t. induction ks as [|k ks IH]; intros t Hnd Hfresh; simpl.
  - now rewrite app_nil_r.
  - apply NoDup_cons in Hnd as [Hk Hnd].
    rewrite IH; [|exact Hnd|].
    + rewrite keys_set, Hfresh by apply list_elem_of_here.
      now rewrite <- app_assoc.
    + intros k' Hk'. rewrite has_key_set.
      rewrite Hfresh by now apply list_elem_of_further.
      rewrite orb_false_r. apply String.eqb_neq. intros ->. easy.
Qed.

(** Two objects with the same keys, each once, and the same value under
    every key are the same object. *)
Lemma obj_ext (o1 o2 : obj) :
  NoDup (Js.keys o1) -> Js.keys o1 = Js.keys o2 ->
  (forall k, Js.get k o1 = Js.get k o2) -> o1 = o2.
Proof.
  revert o2. induction o1 as [|[k v] o1 IH]; intros [|[k' v'] o2] Hnd Hk Hg;
    try discriminate; [reflexivity|].
  simpl in Hk. injection Hk as <- Hk.
  apply NoDup_cons in Hnd as [Hnot Hnd].
  pose proof (Hg k) as Hv. simpl in Hv. rewrite String.eqb_refl in Hv.
  subst v'. f_equal. apply IH; [exact Hnd | exact Hk |].
  intros k1. destruct (String.eqb_spec k1 k) as [->|Hne].
  - rewrite !get_absent; [reflexivity | |].
    + destruct (Js.has_key k o2) eqn:E; [|reflexivity].
      apply has_key_In in E. rewrite <- Hk in E. easy.
    + destruct (Js.has_key k o1) eqn:E; [|reflexivity].
      apply has_key_In in E. easy.
  - specialize (Hg k1). simpl in Hg.
    apply String.eqb_neq in Hne. now rewrite Hne in Hg.
Qed.

Lemma spread_id o : NoDup (Js.keys o) -> Js.spread o = o.
Proof.
  intros Hnd. symmetry. apply obj_ext; [exact Hnd | |].
  - unfold Js.spread, Js.assign. now rewrite keys_fold_fresh.
  - intros k. now rewrite get_spread.
Qed.

Lemma NoDup_keys_spread o : NoDup (Js.keys (Js.spread o)).
Proof. apply NoDup_keys_assign. apply NoDup_nil_2. Qed.

Lemma NoDup_keys_patched n current body :
  NoDup (Js.keys (patched n current body)).
Proof.
  apply NoDup_keys_set, NoDup_keys_assign, NoDup_keys_spread.
Qed.

Lemma get_patched k n current body :
  Js.get k (patched n current body)
  = if String.eqb k "id" then VNum n
    else if Js.has_key k body then Js.get k body
    else Js.get k current.
Proof.
  unfold patched. destruct (String.eqb_spec k "id") as [->|Hne].
  - apply get_set_eq.
  - rewrite get_set_ne by congruence.
    now rewrite get_assign, get_spread.
Qed.

(** Patching a patched book with the same payload gives the same book. *)
Lemma patched_twice n current body :
  patched n (patched n current body) body = patched n current body.
Proof.
  apply obj_ext; [apply NoDup_keys_patched | |].
  - unfold patched at 1. rewrite (spread_id _ (NoDup_keys_patched _ _ _)).
    rewrite keys_set.
    assert (Hid : Js.has_key "id" (patched n current body) = true).
    { unfold patched. rewrite has_key_set. reflexivity. }
    rewrite has_key_assign, Hid. simpl.
    unfold Js.assign. apply keys_fold_present.
    intros k Hk. unfold patched. rewrite has_key_set, has_key_assign.
    apply has_key_In in Hk. rewrite Hk. now rewrite !orb_true_r.
  - intros k. rewrite !get_patched.
    destruct (String.eqb k "id"); [reflexivity|].
    now destruct (Js.has_key k body).
Qed.

Lemma has_id_get n b :
  Js.get "id" b = VNum n -> Js.num_eq n n = true -> has_id n b = true.
Proof. unfold has_id. now intros ->. Qed.

Lemma has_id_not_NaN n b : has_id n b = true -> Js.num_eq n n = true.
Proof.
  unfold has_id, Js.strict_eq_num.
  destruct (Js.get "id" b); try easy. apply num_eq_self.
Qed.

Lemma findIndex_insert n bs i new :
  Js.findIndex (has_id n) bs = Some i -> has_id n new = true ->
  Js.findIndex (has_id n) (<[i := new]> bs) = Some i.
Proof.
  revert i. induction bs as [|b bs IH]; intros i; simpl; [easy|].
  destruct (has_id n b) eqn:Hb.
  - intros [= <-] Hnew. simpl. now rewrite Hnew.
  - destruct (Js.findIndex (has_id n) bs) as [j|]; simpl; [|easy].
    intros [= <-] Hnew. simpl. rewrite Hb. now rewrite (IH j).
Qed.

(** ** PUT and PATCH twice, and the books they do not name *)

Section Repeating.

Context {engine : Engine}.

(** X5. PUT is idempotent: the same PUT sent again gets the same answer and
    leaves the store as the first one left it. *)
Theorem put_book_idempotent id body st :
  put_book id body (put_book id body st).2 = put_book id body st.
Proof.
  unfold put_book at 2 3.
  destruct (Js.findIndex _ _) as [i|] eqn:Hi; simpl.
  2:{ unfold put_book. now rewrite Hi. }
  destruct (_ || _) eqn:Hguard; simpl.
  { unfold put_book. now rewrite Hi, Hguard. }
  destruct (findIndex_Some _ _ _ Hi) as (old & Hold & Hid & _).
  unfold put_book. simpl.
  rewrite (findIndex_insert _ _ _ _ Hi) by now apply (has_id_self _ old).
  rewrite Hguard. now rewrite list_insert_insert_eq.
Qed.

Lemma patch_book_found id body st i cur :
  Js.findIndex (has_id (Js.parseInt id)) (books st) = Some i ->
  books st !! i = Some cur ->
  patch_book id body st
  = (json
       [("success", VBool true);
        ("message", VStr "Book updated!");
        ("method", VStr "PATCH - Partial update");
        ("previous", VObj (Js.spread cur));
        ("updated", VObj (patched (Js.parseInt id) cur body));
        ("fieldsChanged", VArr (map VStr (Js.keys body)))],
     with_books (<[i := patched (Js.parseInt id) cur body]> (books st)) st).
Proof.
  intros Hi Hcur. unfold patch_book.
  now rewrite Hi, (nth_lookup_Some _ _ _ _ Hcur).
Qed.

(** X6. PATCH is idempotent on the store: the same PATCH sent again leaves
    every book as the first one left it, and reports as [previous] and as
    [updated] the book that the first one reported as [updated]. *)
Theorem patch_book_idempotent id body st :
  let first := patch_book id body st in
  let second := patch_book id body first.2 in
  second.2 = first.2
  /\ (present id st = true ->
      Js.get "previous" (sent second.1) = Js.get "updated" (sent first.1)
      /\ Js.get "updated" (sent second.1) = Js.get "updated" (sent first.1)).
Proof.
  simpl.
  destruct (Js.findIndex (has_id (Js.parseInt id)) (books st)) as [i|] eqn:Hi.
  2:{ assert (Hnone : patch_book id body st = (not_found, st)).
      { unfold patch_book. now rewrite Hi. }
      rewrite Hnone. simpl. rewrite Hnone. split; [reflexivity|].
      intros Hp. apply findIndex_None in Hi. unfold present in Hp.
      congruence. }
  destruct (findIndex_Some _ _ _ Hi) as (cur & Hcur & Hid & _).
  rewrite (patch_book_found _ _ _ _ _ Hi Hcur). simpl.
  assert (Hnew : has_id (Js.parseInt id)
                   (patched (Js.parseInt id) cur body) = true).
  { apply has_id_get; [apply get_set_eq|]. now apply (has_id_not_NaN _ cur). }
  rewrite (patch_book_found id body _ i (patched (Js.parseInt id) cur body)).
  - simpl. rewrite patched_twice, list_insert_insert_eq.
    rewrite (spread_id _ (NoDup_keys_patched _ _ _)). now repeat split.
  - simpl. now apply findIndex_insert.
  - simpl. apply list_lookup_insert_eq. eapply lookup_lt_Some; eauto.
Qed.

(** X7. After a PATCH of a book in the store, a Get of that identifier
    returns the book that the PATCH reported as [updated]. *)
Theorem get_book_after_patch id body st :
  present id st = true ->
  status (get_book id (patch_book id body st).2) = 200
  /\ Js.get "data" (sent (get_book id (patch_book id body st).2))
     = Js.get "updated" (sent (patch_book id body st).1).
Proof.
  intros Hp.
  destruct (present_findIndex _ _ Hp) as (i & cur & Hi & Hcur & Hid & Hpre).
  unfold patch_book. rewrite Hi. simpl. unfold get_book. simpl.
  rewrite (find_insert _ _ _ cur); try easy.
  apply has_id_get; [apply get_set_eq|]. now apply (has_id_not_NaN _ cur).
Qed.

End Repeating.

Lemma find_insert_same {A} (p : A -> bool) l i y :
  p y = false -> (forall x, l !! i = Some x -> p x = false) ->
  Js.find p (<[i := y]> l) = Js.find p l.
Proof.
  unfold Js.find. revert i. induction l as [|x l IH]; intros i Hy Hx;
    [reflexivity|].
  destruct i as [|i]; simpl.
  - rewrite Hy, (Hx x eq_refl). reflexivity.
  - destruct (p x); [reflexivity|]. apply IH; [exact Hy|].
    intros z Hz. now apply Hx.
Qed.

Lemma find_delete_same {A} (p : A -> bool) l i :
  (forall x, l !! i = Some x -> p x = false) ->
  Js.find p (delete i l) = Js.find p l.
Proof.
  unfold Js.find. revert i. induction l as [|x l IH]; intros i Hx;
    [reflexivity|].
  destruct i as [|i]; simpl.
  - now rewrite (Hx x eq_refl).
  - destruct (p x); [reflexivity|]. apply IH. intros z Hz. now apply Hx.
Qed.

Lemma find_app_found {A} (p : A -> bool) l1 l2 :
  existsb p l1 = true -> Js.find p (l1 ++ l2) = Js.find p l1.
Proof.
  unfold Js.find. induction l1 as [|x l1 IH]; simpl; [easy|].
  destruct (p x); simpl; [reflexivity | exact IH].
Qed.

(** In a store the server reaches, the book found under one identifier is
    not a book with another identifier. *)
Lemma other_id_misses st id id' i cur :
  sound st -> Js.parseInt id' <> Js.parseInt id ->
  books st !! i = Some cur -> has_id (Js.parseInt id) cur = true ->
  has_id (Js.parseInt id') cur = false
  /\ forall new, Js.get "id" new = VNum (Js.parseInt id) ->
                 has_id (Js.parseInt id') new = false.
Proof.
  intros (_ & ns & H & _) Hne Hcur Hid.
  parse_cases id t m.
  { now rewrite has_id_NaN in Hid. }
  { now rewrite (ids_at_Inf _ _ _ _ _ H Hcur) in Hid. }
  parse_cases id' t' m'.
  { split; [apply has_id_NaN | intros; apply has_id_NaN]. }
  { split; [exact (ids_at_Inf _ _ _ _ _ H Hcur)|].
    intros new Hnew. exact (has_id_Inf _ _ _ Hnew). }
  destruct (ids_at _ _ _ _ _ H Hcur Hid) as [_ Hget].
  assert (Hmm : (m =? m') = false).
  { apply Z.eqb_neq. intros ->. now apply Hne. }
  split.
  - now rewrite (has_id_of_Z m).
  - intros new Hnew. now rewrite (has_id_of_Z m).
Qed.

Section Frame.

Context {engine : Engine}.

Lemma get_book_same_books id st bs :
  Js.find (has_id (Js.parseInt id)) bs
  = Js.find (has_id (Js.parseInt id)) (books st) ->
  get_book id (with_books bs st) = get_book id st.
Proof. intros Hf. unfold get_book. simpl. now rewrite Hf. Qed.

(** X8. In every store the server reaches, a PUT, a PATCH or a DELETE of
    one identifier does not change what a Get of another identifier
    answers; a create does not change what a Get of a stored book
    answers. *)
Theorem get_book_of_another_id id id' body st :
  reachable st ->
  (Js.parseInt id' <> Js.parseInt id ->
   get_book id' (put_book id body st).2 = get_book id' st
   /\ get_book id' (patch_book id body st).2 = get_book id' st
   /\ get_book id' (delete_book id st).2 = get_book id' st)
  /\ (forall thisYear, present id' st = true ->
      get_book id' (post_book thisYear body st).2 = get_book id' st).
Proof.
  intros Hr. pose proof (reachable_sound _ Hr) as Hs. split.
  - intros Hne. unfold put_book, patch_book, delete_book.
    destruct (Js.findIndex _ _) as [i|] eqn:Hi; [|now repeat split].
    destruct (findIndex_Some _ _ _ Hi) as (cur & Hcur & Hid & _).
    destruct (other_id_misses st id id' i cur Hs Hne Hcur Hid)
      as [Hold Hnew].
    rewrite splice1_delete. split; [|split].
    + destruct (_ || _); simpl; [reflexivity|].
      apply get_book_same_books, find_insert_same.
      * now apply Hnew.
      * intros x Hx. congruence.
    + simpl. apply get_book_same_books, find_insert_same.
      * apply Hnew, get_set_eq.
      * intros x Hx. congruence.
    + simpl. apply get_book_same_books, find_delete_same.
      intros x Hx. congruence.
  - intros thisYear Hp. unfold post_book.
    destruct (_ || _); simpl; [reflexivity|].
    unfold get_book. simpl. rewrite find_app_found by exact Hp.
    unfold present in Hp.
    destruct (Js.find _ _) eqn:Hf; [reflexivity|].
    apply existsb_exists in Hp as (b & Hb & Hpb).
    unfold Js.find in Hf. rewrite (find_none _ _ Hf b Hb) in Hpb.
    discriminate.
Qed.

End Frame.

(** ** Path segments with text after the digits: the Get *)

Section Lenient.

Context {engine : Engine}.

(** X9. A path segment made of the decimal text of an identifier followed
    by other text, as in [/api/books/2abc], is served as the identifier
    alone: same number read (the identifier itself, up to 2^53), same
    status, same book, same error. The text after the digits is not read,
    provided it starts with neither a digit nor an x. *)
Theorem get_book_trailing_text n rest st :
  0 <= n -> unread rest = true ->
  Js.parseInt (Decimal.show n ++ rest) = Js.parseInt (Decimal.show n)
  /\ (n <= 2 ^ 53 -> Js.parseInt (Decimal.show n ++ rest) = of_Z n)
  /\ status (get_book (Decimal.show n ++ rest) st)
     = status (get_book (Decimal.show n) st)
  /\ Js.get "data" (sent (get_book (Decimal.show n ++ rest) st))
     = Js.get "data" (sent (get_book (Decimal.show n) st))
  /\ Js.get "error" (sent (get_book (Decimal.show n ++ rest) st))
     = Js.get "error" (sent (get_book (Decimal.show n) st)).
Proof.
  intros Hn Hrest.
  pose proof (parseInt_decimal_then n rest Hn Hrest) as Hparse.
  rewrite <- parseInt_decimal in Hparse.
  split; [exact Hparse|]. split.
  - intros Hsmall. rewrite Hparse. apply parseInt_decimal_exact. lia.
  - unfold get_book. rewrite Hparse.
    now destruct (Js.find _ _).
Qed.

End Lenient.

(** ** Listing: sorting and filtering *)

Lemma Sorted_transitive_on {A} (R : A -> A -> Prop) l :
  (forall a b c, a ∈ l -> b ∈ l -> c ∈ l -> R a b -> R b c -> R a c) ->
  Sorted R l -> StronglySorted R l.
Proof.
  intros Htrans Hs. induction Hs as [|x l Hs IH Hx]; [constructor|].
  assert (Hl : StronglySorted R l).
  { apply IH. intros a b c Ha Hb Hc. apply Htrans;
      now apply list_elem_of_further. }
  constructor; [exact Hl|].
  destruct Hx as [|y l Hxy]; [constructor|].
  apply StronglySorted_inv in Hl as [_ Hy].
  constructor; [exact Hxy|].
  rewrite Forall_forall in Hy |- *. intros z Hz.
  apply (Htrans x y z); try exact Hxy.
  - apply list_elem_of_here.
  - apply list_elem_of_further, list_elem_of_here.
  - now apply list_elem_of_further, list_elem_of_further.
  - now apply Hy.
Qed.

Lemma insert_sorted_Permutation {A} (cmp : A -> A -> Z) x l :
  Js.insert_sorted cmp x l ≡ₚ x :: l.
Proof.
  induction l as [|y l IH]; simpl; [reflexivity|].
  destruct (0 <? cmp x y); [|reflexivity].
  rewrite IH. apply perm_swap.
Qed.

Lemma stable_sort_Permutation {A} (cmp : A -> A -> Z) l :
  Js.stable_sort cmp l ≡ₚ l.
Proof.
  unfold Js.stable_sort. induction l as [|x l IH]; simpl; [reflexivity|].
  rewrite insert_sorted_Permutation. now rewrite IH.
Qed.

Lemma insert_sorted_Sorted {A} (cmp : A -> A -> Z) x l :
  (forall y, y ∈ l -> 0 < cmp x y -> cmp y x <= 0) ->
  Sorted (fun a b => cmp a b <= 0) l ->
  Sorted (fun a b => cmp a b <= 0) (Js.insert_sorted cmp x l).
Proof.
  intros Hcmp Hs. induction Hs as [|y l Hs IH Hy]; simpl.
  - now repeat constructor.
  - destruct (Z.ltb_spec 0 (cmp x y)) as [Hxy | Hxy].
    + assert (Hyx : cmp y x <= 0)
        by (apply Hcmp; [apply list_elem_of_here | exact Hxy]).
      constructor.
      * apply IH. intros z Hz. apply Hcmp. now apply list_elem_of_further.
      * destruct l as [|z l]; simpl.
        -- now constructor.
        -- destruct (Z.ltb_spec 0 (cmp x z)).
           ++ constructor. now inversion Hy.
           ++ now constructor.
    + constructor; [now constructor|]. now constructor.
Qed.

Lemma stable_sort_Sorted {A} (cmp : A -> A -> Z) l :
  (forall x y, x ∈ l -> y ∈ l -> 0 < cmp x y -> cmp y x <= 0) ->
  Sorted (fun a b => cmp a b <= 0) (Js.stable_sort cmp l).
Proof.
  unfold Js.stable_sort. induction l as [|x l IH]; intros Hcmp; simpl.
  - constructor.
  - apply insert_sorted_Sorted.
    + intros y Hy. apply Hcmp; [apply list_elem_of_here|].
      apply list_elem_of_further.
      now rewrite <- (stable_sort_Permutation cmp l).
    + apply IH. intros a b Ha Hb.
      apply Hcmp; now apply list_elem_of_further.
Qed.

(** A consistent comparator that puts [x] after [y] puts [y] before [x],
    and "not after" is transitive for it. *)
Lemma consistent_flip {A} (cmp : A -> A -> Z) l x y :
  Js.consistent cmp l -> x ∈ l -> y ∈ l -> 0 < cmp x y -> cmp y x < 0.
Proof.
  intros Hc Hx Hy Hxy.
  destruct (Hc x y x Hx Hy Hx) as (Hrefl & _ & _ & _ & Hgt).
  destruct (Hc y x y Hy Hx Hy) as (_ & Hsym & _).
  destruct (Z.lt_trichotomy (cmp y x) 0) as [H | [H | H]]; [exact H | |].
  - specialize (Hsym H). lia.
  - specialize (Hgt Hxy H). lia.
Qed.

Lemma consistent_not_after {A} (cmp : A -> A -> Z) l a b c :
  Js.consistent cmp l -> a ∈ l -> b ∈ l -> c ∈ l ->
  cmp a b <= 0 -> cmp b c <= 0 -> cmp a c <= 0.
Proof.
  intros Hc Ha Hb Hc' Hab Hbc.
  destruct (Z.le_gt_cases (cmp a c) 0) as [H | H]; [exact H|].
  assert (Hca : cmp c a < 0) by (apply (consistent_flip cmp l a c); auto; lia).
  destruct (Hc a b c Ha Hb Hc') as (_ & _ & Heq & Hlt & _).
  destruct (Hc c a b Hc' Ha Hb) as (_ & _ & _ & Hlt1 & _).
  destruct (Hc b c a Hb Hc' Ha) as (_ & Hsym1 & _ & Hlt2 & _).
  destruct (Hc a b a Ha Hb Ha) as (_ & Hsym2 & _).
  destruct (Z.eq_dec (cmp a b) 0) as [Eab | Nab];
    destruct (Z.eq_dec (cmp b c) 0) as [Ebc | Nbc].
  - specialize (Heq Eab Ebc). lia.
  - assert (cmp b a < 0) by (apply Hlt2; lia).
    specialize (Hsym2 Eab). lia.
  - assert (cmp c b < 0) by (apply Hlt1; lia).
    specialize (Hsym1 Ebc). lia.
  - assert (cmp a c < 0) by (apply Hlt; lia). lia.
Qed.

(** With a consistent comparator the list of [Js.stable_sort] is in order:
    no element is followed, at any distance, by one that the comparator
    puts before it. *)
Lemma stable_sort_ordered {A} (cmp : A -> A -> Z) l :
  Js.consistent cmp l ->
  StronglySorted (fun a b => cmp a b <= 0) (Js.stable_sort cmp l).
Proof.
  intros Hc. apply Sorted_transitive_on.
  - intros a b c Ha Hb Hc'.
    rewrite (stable_sort_Permutation cmp l) in Ha, Hb, Hc'.
    now apply (consistent_not_after cmp l).
  - apply stable_sort_Sorted. intros x y Hx Hy Hxy.
    pose proof (consistent_flip cmp l x y Hc Hx Hy Hxy). lia.
Qed.

Lemma filter_throwing_sublist {A} (p : A -> outcome bool) l r :
  Js.filter_throwing p l = Return r -> sublist r l.
Proof.
  revert r. induction l as [|x l IH]; intros r; simpl.
  - intros [= <-]. constructor.
  - destruct (p x) as [b|m]; simpl; [|discriminate].
    destruct (Js.filter_throwing p l) as [r'|m]; simpl; [|discriminate].
    intros [= <-]. destruct b.
    + apply sublist_skip. now apply IH.
    + apply sublist_cons. now apply IH.
Qed.

Lemma filter_throwing_throws {A} (p : A -> outcome bool) l x m :
  x ∈ l -> p x = Throw m -> exists m', Js.filter_throwing p l = Throw m'.
Proof.
  intros Hx Hp. induction Hx as [x l | x y l Hx IH]; simpl.
  - rewrite Hp. simpl. eauto.
  - destruct (p y) as [b|m1]; simpl; [|eauto].
    destruct (IH Hp) as [m' ->]. simpl. eauto.
Qed.

Lemma filter_throwing_pure {A} (p : A -> outcome bool) (f : A -> bool) l :
  Forall (fun x => p x = Return (f x)) l ->
  Js.filter_throwing p l = Return (List.filter f l).
Proof.
  induction 1 as [|x l Hx _ IH]; simpl; [reflexivity|].
  now rewrite Hx, IH.
Qed.

Lemma filter_sublist {A} (f : A -> bool) l : sublist (List.filter f l) l.
Proof.
  induction l as [|x l IH]; simpl; [constructor|].
  destruct (f x); [now apply sublist_skip | now apply sublist_cons].
Qed.

Lemma lower_char_idem c : Str.lower_char (Str.lower_char c) = Str.lower_char c.
Proof. destruct c as [[] [] [] [] [] [] [] []]; reflexivity. Qed.

Lemma to_lower_idem s : Str.to_lower (Str.to_lower s) = Str.to_lower s.
Proof.
  induction s as [|c s IH]; simpl; [reflexivity|].
  now rewrite lower_char_idem, IH.
Qed.

(** *** Comparisons that give a consistent comparator *)

(** A comparison that is irreflexive and transitive, and for which being
    neither before nor after is transitive too, gives a consistent
    comparator. *)
Lemma three_way_consistent {A} (before : A -> A -> bool) l :
  (forall x, x ∈ l -> before x x = false) ->
  (forall x y z, x ∈ l -> y ∈ l -> z ∈ l ->
     before x y = true -> before y z = true -> before x z = true) ->
  (forall x y z, x ∈ l -> y ∈ l -> z ∈ l ->
     before x z = true -> before x y = true \/ before y z = true) ->
  Js.consistent (three_way before) l.
Proof.
  intros Hirr Htrans Hneg x y z Hx Hy Hz. unfold three_way.
  pose proof (Hirr x Hx) as Ixx.
  pose proof (Htrans x y z Hx Hy Hz) as Txyz.
  pose proof (Htrans z y x Hz Hy Hx) as Tzyx.
  pose proof (Htrans x z x Hx Hz Hx) as Txzx.
  pose proof (Hneg x y z Hx Hy Hz) as Nxyz.
  pose proof (Hneg z y x Hz Hy Hx) as Nzyx.
  rewrite Ixx.
  destruct (before x y), (before y x), (before y z), (before z y),
    (before x z), (before z x);
    repeat split; intros; try lia; try discriminate;
    try (specialize (Txyz eq_refl eq_refl); discriminate);
    try (specialize (Tzyx eq_refl eq_refl); discriminate);
    try (specialize (Txzx eq_refl eq_refl); discriminate);
    try (destruct (Nxyz eq_refl); discriminate);
    try (destruct (Nzyx eq_refl); discriminate).
Qed.

(** *** The order of strings *)

Lemma str_lt_irrefl s : Str.lt s s = false.
Proof.
  induction s as [|c s IH]; simpl; [reflexivity|].
  now rewrite Nat.ltb_irrefl.
Qed.

Lemma str_lt_trans s : forall t u,
  Str.lt s t = true -> Str.lt t u = true -> Str.lt s u = true.
Proof.
  induction s as [|c s IH]; intros [|d t] [|e u]; simpl; try easy.
  destruct (Nat.ltb_spec (nat_of_ascii c) (nat_of_ascii d)),
    (Nat.ltb_spec (nat_of_ascii d) (nat_of_ascii c)),
    (Nat.ltb_spec (nat_of_ascii d) (nat_of_ascii e)),
    (Nat.ltb_spec (nat_of_ascii e) (nat_of_ascii d)),
    (Nat.ltb_spec (nat_of_ascii c) (nat_of_ascii e)),
    (Nat.ltb_spec (nat_of_ascii e) (nat_of_ascii c));
    try easy; try lia.
  apply IH.
Qed.

Lemma str_lt_between s : forall t u,
  Str.lt s u = true -> Str.lt s t = true \/ Str.lt t u = true.
Proof.
  induction s as [|c s IH]; intros [|d t] [|e u]; simpl; try easy; auto.
  destruct (Nat.ltb_spec (nat_of_ascii c) (nat_of_ascii d)),
    (Nat.ltb_spec (nat_of_ascii d) (nat_of_ascii c)),
    (Nat.ltb_spec (nat_of_ascii d) (nat_of_ascii e)),
    (Nat.ltb_spec (nat_of_ascii e) (nat_of_ascii d)),
    (Nat.ltb_spec (nat_of_ascii c) (nat_of_ascii e)),
    (Nat.ltb_spec (nat_of_ascii e) (nat_of_ascii c));
    try easy; try lia; auto.
Qed.

(** *** The order of numbers *)

Lemma num_lt_Fin p q : Num.lt (Fin p) (Fin q) = true <-> (p < q)%Q.
Proof.
  unfold Num.lt, Num.ge. rewrite negb_true_iff.
  split.
  - intros H. apply Qnot_le_lt. intros Hle.
    apply Qle_bool_iff in Hle. congruence.
  - intros H. destruct (Qle_bool q p) eqn:E; [|reflexivity].
    apply Qle_bool_iff in E. exfalso. exact (Qlt_not_le _ _ H E).
Qed.

Lemma num_lt_irrefl x : Num.lt x x = false.
Proof.
  destruct x as [|[]|p]; try reflexivity.
  destruct (Num.lt (Fin p) (Fin p)) eqn:E; [|reflexivity].
  apply num_lt_Fin in E. exfalso. exact (Qlt_irrefl _ E).
Qed.

Lemma num_lt_trans x y z :
  Num.lt x y = true -> Num.lt y z = true -> Num.lt x z = true.
Proof.
  destruct x as [|[]|p], y as [|[]|q], z as [|[]|r]; try easy.
  rewrite !num_lt_Fin. apply Qlt_trans.
Qed.

Lemma num_lt_between x y z :
  y <> NaN -> Num.lt x z = true -> Num.lt x y = true \/ Num.lt y z = true.
Proof.
  intros Hy.
  destruct x as [|[]|p], y as [|[]|q], z as [|[]|r]; try easy; auto.
  rewrite !num_lt_Fin. intros H.
  destruct (Qlt_le_dec p q) as [Hpq | Hqp]; [now left|].
  right. exact (Qle_lt_trans _ _ _ Hqp H).
Qed.

Lemma StronglySorted_weaken {A} (R R' : A -> A -> Prop) (P : A -> Prop) l :
  (forall a b, P a -> P b -> R a b -> R' a b) ->
  Forall P l -> StronglySorted R l -> StronglySorted R' l.
Proof.
  intros Himpl HP Hs. induction Hs as [|x l Hs IH Hx]; [constructor|].
  apply Forall_cons in HP as [Px Pl]. constructor; [now apply IH|].
  rewrite Forall_forall in Hx, Pl |- *. intros y Hy.
  apply Himpl; auto.
Qed.

Lemma consistent_by_number key l :
  Forall (fun b => exists x, Js.get key b = VNum x /\ x <> NaN) l ->
  Js.consistent (by_number key) l.
Proof.
  intros Hall. rewrite Forall_forall in Hall.
  apply three_way_consistent.
  - intros x _. apply num_lt_irrefl.
  - intros x y z _ _ _. apply num_lt_trans.
  - intros x y z _ Hy _. apply num_lt_between.
    destruct (Hall y Hy) as (n & -> & Hn). exact Hn.
Qed.

Lemma consistent_by_text key l : Js.consistent (by_text key) l.
Proof.
  apply three_way_consistent.
  - intros x _. apply str_lt_irrefl.
  - intros x y z _ _ _. apply str_lt_trans.
  - intros x y z _ _ _. apply str_lt_between.
Qed.

Section ListingMore.

Context {engine : Engine} {coercion : Coercion}.

Lemma by_field_numbers key a b x y :
  Js.get key a = VNum x -> Js.get key b = VNum y ->
  by_field (VStr key) a b = Return (by_number key a b).
Proof.
  intros Ha Hb. unfold by_field, by_number, three_way.
  cbn [bind string_of]. rewrite Ha, Hb.
  cbn [bind less_than greater_than to_primitive prim_lt prim_number
       as_number].
  destruct (Num.lt x y); [reflexivity|]. now destruct (Num.lt y x).
Qed.

Lemma by_field_texts key a b s t :
  Js.get key a = VStr s -> Js.get key b = VStr t ->
  by_field (VStr key) a b = Return (by_text key a b).
Proof.
  intros Ha Hb. unfold by_field, by_text, three_way.
  cbn [bind string_of]. rewrite Ha, Hb.
  cbn [bind less_than greater_than to_primitive prim_lt text].
  destruct (Str.lt s t); [reflexivity|]. now destruct (Str.lt t s).
Qed.

(** X10. A listing with a [sort] field and no [limit], when the comparator
    raises no exception on the books that pass the filter and is
    consistent on them, is answered 200 with these books, each once, in
    order: no book is followed, at any distance, by one that the
    comparator puts before it. This is so when [sort] names a field that
    is a number other than [NaN] in each of these books, which are then
    returned by ascending number, and when it names a field that is a
    string in each of them, which are then returned in the order of the
    strings. *)
Theorem get_books_sorted query st result :
  Js.to_boolean (Js.get "sort" query) = true ->
  Js.to_boolean (Js.get "limit" query) = false ->
  filter_genre query (books st) = Return result ->
  (forall cmp,
     (forall a b, a ∈ result -> b ∈ result ->
        by_field (Js.get "sort" query) a b = Return (cmp a b)) ->
     Js.consistent cmp result ->
     exists sorted,
       get_books query st = books_found query sorted
       /\ sorted ≡ₚ result
       /\ StronglySorted (fun a b => cmp a b <= 0) sorted)
  /\ (forall key,
        Js.get "sort" query = VStr key ->
        Forall (fun b => exists x, Js.get key b = VNum x /\ x <> NaN)
          result ->
        exists sorted,
          get_books query st = books_found query sorted
          /\ sorted ≡ₚ result
          /\ StronglySorted
               (fun a b =>
                  Num.le (as_number (Js.get key a))
                    (as_number (Js.get key b)) = true)
               sorted)
  /\ (forall key,
        Js.get "sort" query = VStr key ->
        Forall (fun b => exists s, Js.get key b = VStr s) result ->
        exists sorted,
          get_books query st = books_found query sorted
          /\ sorted ≡ₚ result
          /\ StronglySorted
               (fun a b =>
                  Str.lt (text (Js.get key b)) (text (Js.get key a)) = false)
               sorted).
Proof.
  intros Hsort Hlimit Hf.
  assert (Hgen : forall cmp,
             (forall a b, a ∈ result -> b ∈ result ->
                by_field (Js.get "sort" query) a b = Return (cmp a b)) ->
             Js.consistent cmp result ->
             exists sorted,
               get_books query st = books_found query sorted
               /\ sorted ≡ₚ result
               /\ StronglySorted (fun a b => cmp a b <= 0) sorted).
  { intros cmp Hpure Hcons.
    pose proof (sort_consistent _ cmp result Hpure Hcons) as Hs.
    exists (Js.stable_sort cmp result). split; [|split].
    - unfold get_books. rewrite Hf. simpl.
      unfold sort_field. rewrite Hsort, Hs. simpl.
      unfold limit. now rewrite Hlimit.
    - apply stable_sort_Permutation.
    - now apply stable_sort_ordered. }
  split; [exact Hgen|]. split.
  - intros key Hkey Hall.
    destruct (Hgen (by_number key)) as (sorted & Heq & Hperm & Hs).
    + intros a b Ha Hb. rewrite Forall_forall in Hall.
      destruct (Hall a Ha) as (x & Hx & _).
      destruct (Hall b Hb) as (y & Hy & _).
      rewrite Hkey. exact (by_field_numbers _ _ _ _ _ Hx Hy).
    + now apply consistent_by_number.
    + exists sorted. split; [exact Heq|]. split; [exact Hperm|].
      rewrite <- Hperm in Hall.
      eapply StronglySorted_weaken; [|exact Hall | exact Hs].
      cbv beta. intros a b Pa Pb H.
      destruct Pa as (x & Hx & Nx), Pb as (y & Hy & Ny).
      unfold by_number, three_way in H. cbv beta in H.
      rewrite Hx, Hy in H |- *. simpl in H |- *.
      destruct (Num.lt x y) eqn:Exy.
      * pose proof (num_lt_irrefl x) as Hirr.
        destruct (Num.lt y x) eqn:Eyx.
        -- now rewrite (num_lt_trans _ _ _ Exy Eyx) in Hirr.
        -- unfold Num.le. destruct x as [|[]|p], y as [|[]|q];
             try easy. simpl in Eyx. now apply negb_false_iff in Eyx.
      * destruct (Num.lt y x) eqn:Eyx; [lia|].
        unfold Num.le. destruct x as [|[]|p], y as [|[]|q];
          try easy. simpl in Eyx. now apply negb_false_iff in Eyx.
  - intros key Hkey Hall.
    destruct (Hgen (by_text key)) as (sorted & Heq & Hperm & Hs).
    + intros a b Ha Hb. rewrite Forall_forall in Hall.
      destruct (Hall a Ha) as (x & Hx).
      destruct (Hall b Hb) as (y & Hy).
      rewrite Hkey. exact (by_field_texts _ _ _ _ _ Hx Hy).
    + apply consistent_by_text.
    + exists sorted. split; [exact Heq|]. split; [exact Hperm|].
      eapply StronglySorted_weaken with (P := fun _ => True);
        [|now apply Forall_true | exact Hs].
      intros a b _ _ H. unfold by_text, three_way in H. cbv beta in H.
      destruct (Str.lt (text (Js.get key a)) (text (Js.get key b))) eqn:Eab.
      * destruct (Str.lt (text (Js.get key b)) (text (Js.get key a)))
          eqn:Eba; [|reflexivity].
        pose proof (str_lt_trans _ _ _ Eab Eba) as Hcontra.
        now rewrite str_lt_irrefl in Hcontra.
      * destruct (Str.lt (text (Js.get key b)) (text (Js.get key a)));
          [lia | reflexivity].
Qed.

Lemma same_genre_textual query g b :
  Js.get "genre" query = VStr g ->
  (exists s, Js.get "genre" b = VStr s) ->
  same_genre query b = Return (of_genre g b).
Proof.
  intros Hq [s Hs]. unfold same_genre, of_genre. now rewrite Hs, Hq.
Qed.

(** X11. When every stored genre is a string, a listing with a [genre]
    and nothing else returns exactly the books of that genre, compared
    without regard to case, in the order of the store; writing the
    parameter in lower case changes nothing. *)
Theorem get_books_by_genre query g st :
  Forall (fun b => exists s, Js.get "genre" b = VStr s) (books st) ->
  Js.get "genre" query = VStr g -> g <> "" ->
  Js.to_boolean (Js.get "sort" query) = false ->
  Js.to_boolean (Js.get "limit" query) = false ->
  get_books query st
  = books_found query (List.filter (of_genre g) (books st))
  /\ sublist (List.filter (of_genre g) (books st)) (books st)
  /\ (forall b, b ∈ List.filter (of_genre g) (books st) ->
      exists s, Js.get "genre" b = VStr s
                /\ Str.to_lower s = Str.to_lower g)
  /\ List.filter (of_genre (Str.to_lower g)) (books st)
     = List.filter (of_genre g) (books st).
Proof.
  intros Hall Hq Hg Hsort Hlimit.
  split; [|split; [|split]].
  - unfold get_books, filter_genre. rewrite Hq.
    destruct g as [|c g]; [easy|]. simpl Js.to_boolean. cbn iota.
    rewrite (filter_throwing_pure _ (of_genre (String c g))).
    + simpl. unfold limit, sort_field. now rewrite Hsort, Hlimit.
    + eapply Forall_impl; [exact Hall|]. simpl.
      intros b Hb. now apply same_genre_textual.
  - apply filter_sublist.
  - intros b Hb. apply list_elem_of_In, filter_In in Hb as [_ Hb].
    unfold of_genre in Hb. destruct (Js.get "genre" b); try discriminate.
    apply String.eqb_eq in Hb. eauto.
  - apply filter_ext. intros b. unfold of_genre.
    now rewrite to_lower_idem.
Qed.


(** X13. A genre that is not a string, once stored, breaks the genre
    filter: after a PATCH that writes such a genre into a stored book,
    every listing with a truthy [genre] parameter, as a non-empty string
    is, is answered 500. *)
Theorem get_books_after_bad_genre id body query st :
  present id st = true ->
  Js.has_key "genre" body = true ->
  (forall s, Js.get "genre" body <> VStr s) ->
  Js.to_boolean (Js.get "genre" query) = true ->
  status (patch_book id body st).1 = 200
  /\ status (get_books query (patch_book id body st).2) = 500.
Proof.
  intros Hp Hk Hbad Hq.
  destruct (present_findIndex _ _ Hp) as (i & cur & Hi & Hcur & _).
  rewrite (patch_book_found _ _ _ _ _ Hi Hcur). simpl.
  split; [reflexivity|].
  unfold get_books, filter_genre. rewrite Hq. simpl.
  destruct (filter_throwing_throws (same_genre query)
              (<[i := patched (Js.parseInt id) cur body]> (books st))
              (patched (Js.parseInt id) cur body)
              (lower_case_error (Js.get "genre" body))) as [m ->].
  - apply list_elem_of_lookup. exists i. apply list_lookup_insert_eq.
    eapply lookup_lt_Some; eauto.
  - unfold same_genre. rewrite get_patched, Hk. simpl.
    destruct (Js.get "genre" body) eqn:E; try reflexivity.
    now destruct (Hbad s).
  - reflexivity.
Qed.

End ListingMore.

(** ** Searching *)

Lemma filter_filter {A} (f g : A -> bool) l :
  List.filter f (List.filter g l) = List.filter (fun x => g x && f x) l.
Proof.
  induction l as [|x l IH]; simpl; [reflexivity|].
  destruct (g x); simpl; [|exact IH].
  destruct (f x); now rewrite IH.
Qed.

Lemma Forall_filter_keeps {A} (P : A -> Prop) (f : A -> bool) l :
  Forall P l -> Forall P (List.filter f l).
Proof.
  induction 1 as [|x l Hx _ IH]; simpl; [constructor|].
  destruct (f x); [now constructor | exact IH].
Qed.

Lemma filter_none {A} (f : A -> bool) l :
  (forall x, f x = false) -> List.filter f l = [].
Proof.
  intros Hf. induction l as [|x l IH]; simpl; [reflexivity|].
  now rewrite Hf.
Qed.

Lemma filter_all {A} (f : A -> bool) l :
  (forall x, f x = true) -> List.filter f l = l.
Proof.
  intros Hf. induction l as [|x l IH]; simpl; [reflexivity|].
  now rewrite Hf, IH.
Qed.

Lemma filter_throwing_none {A} (p : A -> outcome bool) l r :
  (forall x b, p x = Return b -> b = false) ->
  Js.filter_throwing p l = Return r -> r = [].
Proof.
  intros Hp. revert r. induction l as [|x l IH]; intros r; simpl.
  - now intros [= <-].
  - destruct (p x) as [b|m] eqn:Hx; simpl; [|discriminate].
    destruct (Js.filter_throwing p l) as [r'|m]; simpl; [|discriminate].
    rewrite (Hp x b Hx). intros [= <-]. now apply IH.
Qed.

Lemma ge_NaN x : Num.ge x NaN = false.
Proof. now destruct x as [|[]|]. Qed.

Lemma le_NaN x : Num.le x NaN = false.
Proof. reflexivity. Qed.

Section Searching.

Context {engine : Engine} {coercion : Coercion}.

Lemma filter_query_textual q results :
  text_or_absent q -> Forall textual results ->
  filter_query q results
  = Return
      (List.filter
         (fun b =>
            negb (Js.to_boolean q)
            || Text.includes (lower_of (Js.get "title" b)) (lower_of q)
            || Text.includes (lower_of (Js.get "author" b)) (lower_of q)
            || Text.includes (lower_of (Js.get "genre" b)) (lower_of q))
         results).
Proof.
  intros [-> | [s ->]] Hall; unfold filter_query.
  - simpl. now rewrite filter_all.
  - destruct s as [|c s].
    + simpl. now rewrite filter_all.
    + simpl Js.to_boolean. cbn iota. cbn [toLowerCase bind].
      apply filter_throwing_pure.
      eapply Forall_impl; [exact Hall|]. simpl.
      intros b (t & a & g & Ht & Ha & Hg). unfold matches_query.
      rewrite Ht, Ha, Hg. cbn [toLowerCase bind lower_of negb orb].
      destruct (Text.includes (Str.to_lower t) _); [reflexivity|].
      destruct (Text.includes (Str.to_lower a) _); reflexivity.
Qed.

Lemma filter_author_textual author results :
  text_or_absent author -> Forall textual results ->
  filter_author author results
  = Return
      (List.filter
         (fun b =>
            negb (Js.to_boolean author)
            || Text.includes (lower_of (Js.get "author" b))
                 (lower_of author))
         results).
Proof.
  intros [-> | [s ->]] Hall; unfold filter_author.
  - simpl. now rewrite filter_all.
  - destruct s as [|c s].
    + simpl. now rewrite filter_all.
    + simpl Js.to_boolean. cbn iota.
      apply filter_throwing_pure.
      eapply Forall_impl; [exact Hall|]. simpl.
      intros b (t & a & g & Ht & Ha & Hg). unfold matches_author.
      now rewrite Ha.
Qed.

Lemma number_of_primitive v :
  primitive v -> number_of v = Return (prim_number v).
Proof. now destruct v. Qed.

Lemma filter_minYear_textual minYear results :
  text_or_absent minYear -> Forall dated results ->
  filter_minYear minYear results
  = Return
      (List.filter
         (fun b =>
            negb (Js.to_boolean minYear)
            || Num.ge (prim_number (Js.get "year" b))
                 (Js.parseInt (text minYear)))
         results).
Proof.
  intros [-> | [s ->]] Hall; unfold filter_minYear.
  - simpl. now rewrite filter_all.
  - destruct s as [|c s].
    + simpl. now rewrite filter_all.
    + simpl Js.to_boolean. cbn iota.
      apply filter_throwing_pure.
      eapply Forall_impl; [exact Hall|]. simpl.
      intros b Hb. unfold from_year. cbn [string_of bind].
      now rewrite (number_of_primitive _ Hb).
Qed.

Lemma filter_maxYear_textual maxYear results :
  text_or_absent maxYear -> Forall dated results ->
  filter_maxYear maxYear results
  = Return
      (List.filter
         (fun b =>
            negb (Js.to_boolean maxYear)
            || Num.le (prim_number (Js.get "year" b))
                 (Js.parseInt (text maxYear)))
         results).
Proof.
  intros [-> | [s ->]] Hall; unfold filter_maxYear.
  - simpl. now rewrite filter_all.
  - destruct s as [|c s].
    + simpl. now rewrite filter_all.
    + simpl Js.to_boolean. cbn iota.
      apply filter_throwing_pure.
      eapply Forall_impl; [exact Hall|]. simpl.
      intros b Hb. unfold until_year. cbn [string_of bind].
      now rewrite (number_of_primitive _ Hb).
Qed.

(** X14. When the title, author and genre of every stored book are
    strings and its year is a primitive value (a number, say, or a
    string), and each of the four criteria is a string or absent, a search
    returns exactly the stored books that meet every criterion supplied, in
    the order of the store: [q] found in the title, the author or the genre
    without regard to case, the year within the bounds (both inclusive),
    [author] found in the author. *)
Theorem get_search_meets query st :
  Forall textual (books st) ->
  Forall dated (books st) ->
  text_or_absent (Js.get "q" query) ->
  text_or_absent (Js.get "minYear" query) ->
  text_or_absent (Js.get "maxYear" query) ->
  text_or_absent (Js.get "author" query) ->
  get_search query st
  = search_found query (List.filter (meets query) (books st)).
Proof.
  intros Hall Hdated Hq Hmin Hmax Ha. unfold get_search.
  rewrite (filter_query_textual _ _ Hq Hall). cbn [bind].
  rewrite (filter_minYear_textual _ _ Hmin)
    by now apply Forall_filter_keeps.
  cbn [bind]. rewrite filter_filter.
  rewrite (filter_maxYear_textual _ _ Hmax)
    by now apply Forall_filter_keeps.
  cbn [bind]. rewrite filter_filter.
  rewrite (filter_author_textual _ _ Ha)
    by now apply Forall_filter_keeps.
  cbn [bind answer]. rewrite filter_filter.
  replace (List.filter _ (books st))
    with (List.filter (meets query) (books st)); [reflexivity|].
  apply filter_ext. intros b. unfold meets.
  now rewrite ?andb_assoc.
Qed.

(** The four filters of a search that is answered 200. *)
Lemma get_search_steps query st :
  status (get_search query st) = 200 ->
  exists r1 r2 r3 r4,
    filter_query (Js.get "q" query) (books st) = Return r1
    /\ filter_minYear (Js.get "minYear" query) r1 = Return r2
    /\ filter_maxYear (Js.get "maxYear" query) r2 = Return r3
    /\ filter_author (Js.get "author" query) r3 = Return r4
    /\ get_search query st = search_found query r4.
Proof.
  unfold get_search. intros H.
  destruct (filter_query _ _) as [r1|m] eqn:H1; cbn [bind] in H;
    [|discriminate].
  destruct (filter_minYear _ r1) as [r2|m] eqn:H2; cbn [bind] in H;
    [|discriminate].
  destruct (filter_maxYear _ r2) as [r3|m] eqn:H3; cbn [bind] in H;
    [|discriminate].
  destruct (filter_author _ r3) as [r4|m] eqn:H4; cbn [bind] in H;
    [|discriminate].
  exists r1, r2, r3, r4. cbn [bind]. rewrite H2. cbn [bind].
  rewrite H3. cbn [bind]. rewrite H4. now repeat split.
Qed.

(** X15. A search that is answered 200 returns stored books only, each at
    most once and in the order of the store, and [resultsFound] is their
    number. *)
Theorem get_search_sublist query st :
  status (get_search query st) = 200 ->
  exists results,
    get_search query st = search_found query results
    /\ sublist results (books st)
    /\ Js.get "resultsFound" (sent (get_search query st))
       = VInt (Z.of_nat (length results)).
Proof.
  intros H200.
  destruct (get_search_steps _ _ H200)
    as (r1 & r2 & r3 & r4 & H1 & H2 & H3 & H4 & Heq).
  exists r4. split; [exact Heq|]. split; [|now rewrite Heq].
  assert (S1 : sublist r1 (books st)).
  { unfold filter_query in H1. destruct (Js.to_boolean _).
    - destruct (toLowerCase _); cbn [bind] in H1; [|discriminate].
      now apply filter_throwing_sublist in H1.
    - now injection H1 as <-. }
  assert (S2 : sublist r2 r1).
  { unfold filter_minYear in H2. destruct (Js.to_boolean _).
    - now apply filter_throwing_sublist in H2.
    - now injection H2 as <-. }
  assert (S3 : sublist r3 r2).
  { unfold filter_maxYear in H3. destruct (Js.to_boolean _).
    - now apply filter_throwing_sublist in H3.
    - now injection H3 as <-. }
  assert (S4 : sublist r4 r3).
  { unfold filter_author in H4. destruct (Js.to_boolean _).
    - now apply filter_throwing_sublist in H4.
    - now injection H4 as <-. }
  etransitivity; [exact S4|]. etransitivity; [exact S3|].
  etransitivity; [exact S2 | exact S1].
Qed.

(** X16. A year bound that is truthy, as a non-empty string is, and whose
    text [parseInt] cannot read as a number excludes every book: a search
    with such a [minYear] or [maxYear] that is answered 200 returns
    nothing. *)
Theorem get_search_unparsed_year query st :
  (Js.to_boolean (Js.get "minYear" query) = true
   /\ forall text, string_of (Js.get "minYear" query) = Return text ->
                   Js.parseInt text = NaN)
  \/ (Js.to_boolean (Js.get "maxYear" query) = true
      /\ forall text, string_of (Js.get "maxYear" query) = Return text ->
                      Js.parseInt text = NaN) ->
  status (get_search query st) = 200 ->
  get_search query st = search_found query [].
Proof.
  intros Hbound H200.
  destruct (get_search_steps _ _ H200)
    as (r1 & r2 & r3 & r4 & H1 & H2 & H3 & H4 & Heq).
  rewrite Heq. f_equal.
  assert (Hsub : sublist r4 r3).
  { unfold filter_author in H4.
    destruct (Js.to_boolean (Js.get "author" query)).
    - now apply filter_throwing_sublist in H4.
    - now injection H4 as <-. }
  assert (Hnone : r3 = []); [|subst r3; now apply sublist_nil_r].
  destruct Hbound as [[Ht Hnan] | [Ht Hnan]].
  - assert (r2 = []) as ->.
    { unfold filter_minYear in H2. rewrite Ht in H2.
      apply (filter_throwing_none _ _ _) in H2; [exact H2|].
      intros b res. unfold from_year.
      destruct (string_of (Js.get "minYear" query)) as [text|m] eqn:Hs;
        cbn [bind]; [|discriminate].
      destruct (number_of _); cbn [bind]; [|discriminate].
      intros [= <-]. rewrite (Hnan text eq_refl). apply ge_NaN. }
    unfold filter_maxYear in H3.
    destruct (Js.to_boolean (Js.get "maxYear" query)).
    + simpl in H3. now injection H3 as <-.
    + now injection H3 as <-.
  - unfold filter_maxYear in H3. rewrite Ht in H3.
    apply (filter_throwing_none _ _ _) in H3; [exact H3|].
    intros b res. unfold until_year.
    destruct (string_of (Js.get "maxYear" query)) as [text|m] eqn:Hs;
      cbn [bind]; [|discriminate].
    destruct (number_of _); cbn [bind]; [|discriminate].
    intros [= <-]. now rewrite (Hnan text eq_refl).
Qed.

(** X17. A title that is not a string, once stored, breaks the search on
    [q]: after a create with such a title, which is accepted when the
    title is truthy, every search with a truthy [q], as a non-empty string
    is, is answered 500. *)
Theorem get_search_after_bad_title thisYear body query st :
  Js.to_boolean (Js.get "title" body) = true ->
  Js.to_boolean (Js.get "author" body) = true ->
  (forall s, Js.get "title" body <> VStr s) ->
  Js.to_boolean (Js.get "q" query) = true ->
  status (post_book thisYear body st).1 = 201
  /\ status (get_search query (post_book thisYear body st).2) = 500.
Proof.
  intros Ht Ha Hbad Hq. unfold post_book. rewrite Ht, Ha. simpl.
  split; [reflexivity|].
  unfold get_search, filter_query. rewrite Hq. simpl books.
  destruct (toLowerCase (Js.get "q" query)) as [lq|m]; cbn [bind];
    [|reflexivity].
  match goal with
  | |- context [Js.filter_throwing ?p (?l ++ [?x])] =>
      destruct (filter_throwing_throws p (l ++ [x]) x
                  (lower_case_error (Js.get "title" body))) as [m ->]
  end.
  - apply elem_of_app. right. apply list_elem_of_here.
  - unfold matches_query. simpl.
    destruct (Js.get "title" body) eqn:E; try reflexivity.
    now destruct (Hbad s).
  - reflexivity.
Qed.

End Searching.

(** ** The users *)

Lemma handle_users r st :
  (users (handle r st).2 = users st
   /\ nextUserId (handle r st).2 = nextUserId st)
  \/ exists u,
       users (handle r st).2 = users st ++ [u]
       /\ Js.get "id" u = VInt (nextUserId st)
       /\ nextUserId (handle r st).2 = nextUserId st + 1.
Proof.
  destruct r as [thisYear body | id body | id body | id | hs body]; simpl.
  - unfold post_book. destruct (_ || _); now left.
  - unfold put_book. destruct (Js.findIndex _ _); [|now left].
    destruct (_ || _); now left.
  - unfold patch_book. destruct (Js.findIndex _ _); now left.
  - unfold delete_book. destruct (Js.findIndex _ _); [|now left].
    rewrite splice1_delete. now left.
  - unfold post_user. destruct (negb _); [now left|].
    destruct (_ || _); [now left|]. right. eexists. now repeat split.
Qed.

(** X18. Users are only ever added. In every store the server reaches the
    two initial users are still the first two, the user at position [k] of
    the list has the identifier [k + 1], and the counter [nextUserId] is
    the number of users plus one. *)
Theorem users_numbered st :
  reachable st ->
  take 2 (users st) = users initial
  /\ nextUserId st = Z.of_nat (length (users st)) + 1
  /\ forall k u, users st !! k = Some u ->
                 Js.get "id" u = VInt (Z.of_nat k + 1).
Proof.
  assert (Hstep : forall r st,
             (take 2 (users st) = users initial
              /\ nextUserId st = Z.of_nat (length (users st)) + 1
              /\ forall k u, users st !! k = Some u ->
                             Js.get "id" u = VInt (Z.of_nat k + 1)) ->
             take 2 (users (handle r st).2) = users initial
             /\ nextUserId (handle r st).2
                = Z.of_nat (length (users (handle r st).2)) + 1
             /\ forall k u, users (handle r st).2 !! k = Some u ->
                            Js.get "id" u = VInt (Z.of_nat k + 1)).
  { intros r s (Hfirst & Hnext & Hids).
    destruct (handle_users r s) as [[-> ->] | (u & -> & Hu & ->)];
      [easy|].
    assert (Hlen : (2 <= length (users s))%nat).
    { pose proof (f_equal length Hfirst) as Hl.
      rewrite length_take in Hl. change (length (users initial)) with 2%nat in Hl.
      lia. }
    split; [|split].
    - rewrite take_app_le by exact Hlen. exact Hfirst.
    - rewrite length_app. simpl. lia.
    - intros k v Hk. apply lookup_app_Some in Hk as [Hk | [Hge Hk]].
      + now apply Hids.
      + apply list_lookup_singleton_Some in Hk as [Hk <-].
        rewrite Hu, Hnext. f_equal. lia. }
  induction 1 as [|y body st Hr IH|id body st Hr IH|id body st Hr IH
                  |id st Hr IH|hs body st Hr IH].
  - split; [reflexivity|]. split; [reflexivity|].
    intros [|[|k]] u; simpl; try discriminate; now intros [= <-].
  - exact (Hstep (PostBook y body) st IH).
  - exact (Hstep (PutBook id body) st IH).
  - exact (Hstep (PatchBook id body) st IH).
  - exact (Hstep (DeleteBook id) st IH).
  - exact (Hstep (PostUser hs body) st IH).
Qed.

(** X19. [POST /api/users] looks at the key first: without the exact
    [X-API-Key] the answer is 401 whatever the body is. With the key and a
    truthy [username] and [email] the answer is 201, the new user gets the
    value of [nextUserId] and the role supplied, or "student" when the role
    is omitted or falsy; the books are not touched; and the user list that
    the right bearer token reads ends with the new user. *)
Theorem post_user_then_listed headers body st :
  (Js.get "x-api-key" headers <> VStr "my-secret-api-key" ->
   status (post_user headers body st).1 = 401)
  /\ (Js.get "x-api-key" headers = VStr "my-secret-api-key" ->
      Js.to_boolean (Js.get "username" body) = true ->
      Js.to_boolean (Js.get "email" body) = true ->
      let newUser :=
        [("id", VInt (nextUserId st));
         ("username", Js.get "username" body);
         ("email", Js.get "email" body);
         ("role",
          if Js.to_boolean (Js.get "role" body) then Js.get "role" body
          else VStr "student")] in
      status (post_user headers body st).1 = 201
      /\ Js.get "data" (sent (post_user headers body st).1) = VObj newUser
      /\ users (post_user headers body st).2 = users st ++ [newUser]
      /\ nextUserId (post_user headers body st).2 = nextUserId st + 1
      /\ books (post_user headers body st).2 = books st
      /\ nextBookId (post_user headers body st).2 = nextBookId st
      /\ Js.get "data"
           (sent (get_users
                    [("authorization", VStr "Bearer secret-token-123")]
                    (post_user headers body st).2))
         = VArr (map VObj (users st ++ [newUser]))).
Proof.
  split.
  - intros Hkey. unfold post_user.
    destruct (Js.strict_eq_str _ _) eqn:E; [|reflexivity].
    unfold Js.strict_eq_str in E.
    destruct (Js.get "x-api-key" headers); try discriminate.
    apply String.eqb_eq in E. congruence.
  - intros Hkey Hu He newUser. unfold post_user.
    rewrite Hkey, Hu, He. simpl. now repeat split.
Qed.

(** ** The status codes *)

Lemma status_entry_of_Z m :
  status_entry (of_Z m)
  = match List.find (fun e => m =? e.1) statusMessages with
    | Some e => VObj e.2
    | None => VUndefined
    end.
Proof.
  unfold status_entry, of_Z.
  assert (Heq : forall k, Qeq_bool (inject_Z m) (inject_Z k) = (m =? k)).
  { intros k. unfold Qeq_bool, inject_Z. simpl. now rewrite !Z.mul_1_r. }
  simpl. now rewrite !Heq.
Qed.

(** X20. [GET /api/status/:code] sets as status whatever number the
    segment reads as, with no check of its range: an integer written in
    decimal is set as the binary64 number nearest to it, which up to 2^53
    is the integer itself. The body repeats that number as [statusCode],
    has the four keys [statusCode], [meaning], [description] and [tip], and
    its [meaning] is "Unknown" exactly when the number is not one of the
    fifteen codes of the table. *)
Theorem get_status_echoes code :
  (get_status code).1 = Js.parseInt code
  /\ Js.get "statusCode" (get_status code).2 = VNum (Js.parseInt code)
  /\ Js.keys (get_status code).2
     = ["statusCode"; "meaning"; "description"; "tip"]
  /\ (Js.get "meaning" (get_status code).2 = VStr "Unknown"
      <-> ~ exists e, e ∈ statusMessages /\ Js.parseInt code = of_Z e.1)
  /\ (forall n,
        (get_status (Decimal.show n)).1 = Binary64.round (inject_Z n)
        /\ (Z.abs n <= 2 ^ 53 -> (get_status (Decimal.show n)).1 = of_Z n)).
Proof.
  split; [reflexivity|].
  assert (Hlast : forall n,
             (get_status (Decimal.show n)).1 = Binary64.round (inject_Z n)
             /\ (Z.abs n <= 2 ^ 53 ->
                 (get_status (Decimal.show n)).1 = of_Z n)).
  { intros n. unfold get_status. simpl.
    split; [apply parseInt_decimal | apply parseInt_decimal_exact]. }
  unfold get_status. simpl. parse_cases code t m.
  { simpl. repeat split; try easy; try apply Hlast.
    intros _ (e & _ & He). discriminate. }
  { simpl. repeat split; try easy; try apply Hlast.
    intros _ (e & _ & He). discriminate. }
  rewrite status_entry_of_Z.
  destruct (List.find _ statusMessages) as [e|] eqn:Hf.
  - apply find_some in Hf as [Hin Heq]. apply Z.eqb_eq in Heq.
    apply list_elem_of_In in Hin.
    assert (Hex : exists e, e ∈ statusMessages /\ of_Z m = of_Z e.1).
    { exists e. split; [exact Hin | now rewrite Heq]. }
    clear Heq. unfold statusMessages in Hin.
    rewrite !elem_of_cons, elem_of_nil in Hin.
    repeat destruct Hin as [-> | Hin]; try easy;
      (split; [reflexivity|]; split; [reflexivity|]; split; [|exact Hlast];
       split; [discriminate | intros Hno; now destruct Hno]).
  - split; [reflexivity|]. split; [reflexivity|]. split; [|exact Hlast].
    split; [|reflexivity]. intros _ (e & He & Heq).
    apply list_elem_of_In in He.
    pose proof (find_none _ _ Hf e He) as Hne. simpl in Hne.
    unfold of_Z, inject_Z in Heq. injection Heq as Heq.
    apply Z.eqb_neq in Hne. easy.
Qed.

(** ** The slow answer *)

Lemma min_of_Z m k : Num.min (of_Z m) (of_Z k) = of_Z (Z.min m k).
Proof.
  unfold Num.min, Num.ge, of_Z, Qle_bool, inject_Z. simpl.
  rewrite !Z.mul_1_r.
  destruct (Z.leb_spec m k).
  - now rewrite Z.min_l.
  - now rewrite Z.min_r by lia.
Qed.

Lemma num_truthy_of_Z m : Js.num_truthy (of_Z m) = negb (m =? 0).
Proof.
  unfold Js.num_truthy, of_Z, Qeq_bool, inject_Z. simpl.
  now rewrite Z.mul_1_r.
Qed.

Section Slow.

Context {engine : Engine}.

(** X21. [GET /api/slow] takes the text of [delay] first. When that raises
    an exception, as for an object with a [toString] property of its own,
    no timer is set and the answer is 500. Otherwise the delay of the timer
    is never more than 10000 and never 0: it is 3000 when [delay] is
    absent, reads as no number or reads as 0, and otherwise the number
    read, cut down to 10000 when it is greater; a negative number is passed
    on as it is. *)
Theorem get_slow_delay timestamp query :
  (forall m,
     string_of (Js.get "delay" query) = Throw m ->
     get_slow timestamp query = (None, internal_error m))
  /\ (forall o,
        Js.get "delay" query = VObj o -> Js.has_key "toString" o = true ->
        (get_slow timestamp query).1 = None
        /\ status (get_slow timestamp query).2 = 500)
  /\ (Js.has_key "delay" query = false ->
      get_slow timestamp query
      = (Some (of_Z 3000), slow_answer timestamp (of_Z 3000)))
  /\ (forall text,
        string_of (Js.get "delay" query) = Return text ->
        let read := Js.parseInt text in
        exists delay,
          get_slow timestamp query
          = (Some delay, slow_answer timestamp delay)
          /\ ((exists n, delay = of_Z n /\ n <= 10000 /\ n <> 0)
              \/ delay = Inf true)
          /\ (read = NaN \/ read = of_Z 0 -> delay = of_Z 3000)
          /\ (forall n, read = of_Z n -> n <> 0 ->
              delay = of_Z (Z.min n 10000))
          /\ (read = Inf false -> delay = of_Z 10000)
          /\ (read = Inf true -> delay = Inf true)).
Proof.
  split; [|split; [|split]].
  - intros m Hm. unfold get_slow, slow_delay. now rewrite Hm.
  - intros o Ho Hk. unfold get_slow, slow_delay. rewrite Ho. simpl.
    now rewrite Hk.
  - intros Habs. unfold get_slow, slow_delay.
    now rewrite (get_absent _ _ Habs).
  - intros text Ht read. unfold get_slow, slow_delay. rewrite Ht.
    cbn [bind]. fold read.
    exists (Num.min (Num.or_else read (of_Z 3000)) (of_Z 10000)).
    split; [reflexivity|].
    assert (Hdefault : read = NaN \/ read = of_Z 0 ->
              Num.min (Num.or_else read (of_Z 3000)) (of_Z 10000)
              = of_Z 3000).
    { intros [-> | ->]; reflexivity. }
    assert (Hread : forall n, read = of_Z n -> n <> 0 ->
              Num.min (Num.or_else read (of_Z 3000)) (of_Z 10000)
              = of_Z (Z.min n 10000)).
    { intros n -> Hn. unfold Num.or_else. rewrite num_truthy_of_Z.
      destruct (Z.eqb_spec n 0); [easy|]. apply min_of_Z. }
    split; [|split; [exact Hdefault|split; [exact Hread|]]].
    + destruct (parseInt_int text) as [E | [[[] E] | [n E]]];
        fold read in E.
      * left. exists 3000. rewrite Hdefault by now left. now repeat split.
      * right. now rewrite E.
      * left. exists 10000. now rewrite E.
      * left. destruct (Z.eq_dec n 0) as [-> | Hn].
        -- exists 3000. rewrite Hdefault by now right. now repeat split.
        -- exists (Z.min n 10000). rewrite (Hread n E Hn).
           split; [reflexivity|]. lia.
    + split; intros ->; reflexivity.
Qed.

End Slow.

(** ** Random data *)

Lemma random_below_range r n :
  (0 <= r)%Q -> (r < 1)%Q -> 0 < n ->
  exists k, random_below r n = of_Z k /\ 0 <= k < n.
Proof.
  destruct r as [a b]. unfold Qle, Qlt. simpl. intros Ha Hb Hn.
  unfold random_below, Num.floor. simpl Qnum. simpl Qden.
  eexists. split; [reflexivity|]. rewrite Pos.mul_1_r. split.
  - apply Z.div_pos; nia.
  - apply Z.div_lt_upper_bound; nia.
Qed.

Lemma to_int32_nibble r :
  (0 <= r)%Q -> (r < 1)%Q ->
  0 <= Num.to_int32 (Fin (r * inject_Z 16)) < 16.
Proof.
  destruct r as [a b]. unfold Qle, Qlt. simpl. intros Ha Hb.
  unfold Num.to_int32. simpl Qnum. simpl Qden. rewrite Pos.mul_1_r.
  assert (Ht : 0 <= Z.quot (a * 16) (Z.pos b) < 16).
  { rewrite Z.quot_div_nonneg by lia. split.
    - apply Z.div_pos; lia.
    - apply Z.div_lt_upper_bound; lia. }
  rewrite Z.mod_small by lia. lia.
Qed.

Lemma sixteen_cases d :
  0 <= d < 16 ->
  d = 0 \/ d = 1 \/ d = 2 \/ d = 3 \/ d = 4 \/ d = 5 \/ d = 6 \/ d = 7
  \/ d = 8 \/ d = 9 \/ d = 10 \/ d = 11 \/ d = 12 \/ d = 13 \/ d = 14
  \/ d = 15.
Proof. lia. Qed.

Ltac each_nibble d H :=
  destruct (sixteen_cases d H)
    as [-> | [-> | [-> | [-> | [-> | [-> | [-> | [-> | [-> | [-> | [->
      | [-> | [-> | [-> | [-> | ->]]]]]]]]]]]]]]].

Lemma hex_show_nibble d :
  0 <= d < 16 -> Hex.show d = String (Hex.digit d) EmptyString.
Proof. intros H. each_nibble d H; reflexivity. Qed.

Lemma conforms_replace_xy random :
  (forall k, (0 <= random k)%Q /\ (random k < 1)%Q) ->
  forall template k, conforms template (replace_xy random k template) = true.
Proof.
  intros Hr. induction template as [|c t IH]; intros k; [reflexivity|].
  cbn [replace_xy]. destruct (Hr k) as [H0 H1].
  pose proof (to_int32_nibble (random k) H0 H1) as Hn.
  destruct (Ascii.eqb c "x") eqn:Ex; [|destruct (Ascii.eqb c "y") eqn:Ey].
  - cbn [orb]. unfold uuid_char. rewrite Ex.
    rewrite (hex_show_nibble _ Hn). cbn [append conforms].
    rewrite Ex, IH, andb_true_r.
    remember (Num.to_int32 (Fin (random k * inject_Z 16))) as r eqn:Er.
    clear Er. each_nibble r Hn; reflexivity.
  - cbn [orb]. unfold uuid_char. rewrite Ex.
    remember (Num.to_int32 (Fin (random k * inject_Z 16))) as r eqn:Er.
    clear Er.
    assert (Hy : 8 <= Z.lor (Z.land r 3) 8 < 12).
    { each_nibble r Hn;
        (split; [apply Z.leb_le | apply Z.ltb_lt]; reflexivity). }
    rewrite hex_show_nibble by lia. cbn [append conforms].
    rewrite Ex, Ey, IH, andb_true_r.
    each_nibble r Hn; reflexivity.
  - cbn [orb conforms]. now rewrite Ex, Ey, Ascii.eqb_refl, IH.
Qed.

Lemma conforms_length template : forall s,
  conforms template s = true -> String.length s = String.length template.
Proof.
  induction template as [|t template IH]; intros [|c s]; simpl;
    try discriminate; [reflexivity|].
  intros H. apply andb_true_iff in H as [_ H]. f_equal. now apply IH.
Qed.

Lemma conforms_get template : forall s i t,
  conforms template s = true -> String.get i template = Some t ->
  exists c,
    String.get i s = Some c
    /\ (if Ascii.eqb t "x" then is_hex c
        else if Ascii.eqb t "y"
             then existsb (Ascii.eqb c) ["8"; "9"; "a"; "b"]%char
             else Ascii.eqb t c) = true.
Proof.
  induction template as [|t0 template IH]; intros [|c s] i t; simpl;
    try discriminate.
  intros H. apply andb_true_iff in H as [Hc H].
  destruct i as [|i].
  - intros [= <-]. exists c. now split.
  - now apply IH.
Qed.

Lemma conforms_get_same template s i t :
  conforms template s = true -> String.get i template = Some t ->
  Ascii.eqb t "x" = false -> Ascii.eqb t "y" = false ->
  String.get i s = Some t.
Proof.
  intros Hc Ht Hx Hy. destruct (conforms_get _ _ _ _ Hc Ht) as (c & -> & E).
  rewrite Hx, Hy in E. apply Ascii.eqb_eq in E. now subst.
Qed.

Lemma conforms_get_y template s i :
  conforms template s = true -> String.get i template = Some "y"%char ->
  exists c, String.get i s = Some c /\ c ∈ ["8"; "9"; "a"; "b"]%char.
Proof.
  intros Hc Ht. destruct (conforms_get _ _ _ _ Hc Ht) as (c & -> & E).
  exists c. split; [reflexivity|].
  change (existsb (Ascii.eqb c) ["8"; "9"; "a"; "b"]%char = true) in E.
  apply existsb_exists in E as (d & Hd & E).
  apply Ascii.eqb_eq in E. subst d. now apply list_elem_of_In.
Qed.

(** X22. Whatever [Math.random] returns, from 0 inclusive to 1 exclusive:
    [randomNumber] is an integer from 0 to 999, [randomQuote] is one of the
    five quotes and [randomColor] is one of the six colors, never
    [undefined]. *)
Theorem get_random_ranges random timestamp :
  (forall k, (0 <= random k)%Q /\ (random k < 1)%Q) ->
  let answer := sent (get_random random timestamp) in
  (exists n, Js.get "randomNumber" answer = VInt n /\ 0 <= n <= 999)
  /\ Js.get "randomQuote" answer ∈ quotes
  /\ Js.get "randomColor" answer ∈ colors.
Proof.
  intros Hr. simpl.
  assert (Hat : forall (l : list value) r,
             (0 <= r)%Q -> (r < 1)%Q -> (0 < length l)%nat ->
             Num.at_index l (random_below r (Z.of_nat (length l))) ∈ l).
  { intros l r H0 H1 Hl.
    destruct (random_below_range r (Z.of_nat (length l)) H0 H1)
      as (k & -> & Hk); [lia|].
    unfold Num.at_index, of_Z, inject_Z. simpl.
    destruct (Z.leb_spec 0 k); [|lia].
    apply list_elem_of_In, nth_In. lia. }
  split; [|split].
  - destruct (Hr 0%nat) as [H0 H1].
    destruct (random_below_range (random 0%nat) 1000 H0 H1)
      as (k & -> & Hk); [lia|].
    exists k. split; [reflexivity | lia].
  - destruct (Hr 1%nat) as [H0 H1]. apply (Hat quotes); simpl; auto; lia.
  - destruct (Hr 2%nat) as [H0 H1]. apply (Hat colors); simpl; auto; lia.
Qed.

(** X23. Whatever [Math.random] returns, the [uuid] has the layout of a
    version 4 identifier: 36 characters, hyphens at the positions 8, 13, 18
    and 23, the digit 4 at position 14, one of 8, 9, a, b at position 19,
    and a hexadecimal digit in lower case everywhere else. *)
Theorem get_random_uuid random timestamp :
  (forall k, (0 <= random k)%Q /\ (random k < 1)%Q) ->
  exists uuid,
    Js.get "uuid" (sent (get_random random timestamp)) = VStr uuid
    /\ conforms "xxxxxxxx-xxxx-4xxx-yxxx-xxxxxxxxxxxx" uuid = true
    /\ String.length uuid = 36%nat
    /\ String.get 14 uuid = Some "4"%char
    /\ (exists c, String.get 19 uuid = Some c
                  /\ c ∈ ["8"; "9"; "a"; "b"]%char)
    /\ (forall i, i ∈ [8; 13; 18; 23]%nat ->
        String.get i uuid = Some "-"%char).
Proof.
  intros Hr. eexists. split; [reflexivity|].
  pose proof (conforms_replace_xy random Hr
                "xxxxxxxx-xxxx-4xxx-yxxx-xxxxxxxxxxxx" 3) as Hc.
  split; [exact Hc|]. split; [|split; [|split]].
  - now rewrite (conforms_length _ _ Hc).
  - now apply (conforms_get_same _ _ _ _ Hc).
  - now apply (conforms_get_y _ _ _ Hc).
  - intros i Hi. rewrite !elem_of_cons, elem_of_nil in Hi.
    destruct Hi as [-> | [-> | [-> | [-> | []]]]];
      now apply (conforms_get_same _ _ _ _ Hc).
Qed.

(** ** The engine of the examples *)

Lemma sample_insert_pure cmp pure x a :
  (forall y, y ∈ a -> cmp x y = Return (pure x y)) ->
  Sample.insert_into cmp x a = Return (Js.insert_sorted pure x a).
Proof.
  induction a as [|y a IH]; intros Hp; simpl; [reflexivity|].
  rewrite (Hp y) by apply list_elem_of_here. simpl.
  destruct (0 <? pure x y); [|reflexivity].
  rewrite IH; [reflexivity|].
  intros z Hz. apply Hp. now apply list_elem_of_further.
Qed.

Lemma sample_sort_pure cmp pure a :
  (forall x y, x ∈ a -> y ∈ a -> cmp x y = Return (pure x y)) ->
  Sample.sort cmp a = Return (Js.stable_sort pure a).
Proof.
  unfold Js.stable_sort.
  induction a as [|x a IH]; intros Hp; simpl; [reflexivity|].
  rewrite IH by (intros y z Hy Hz; apply Hp; now apply list_elem_of_further).
  simpl. apply sample_insert_pure. intros y Hy.
  apply Hp; [apply list_elem_of_here|]. apply list_elem_of_further.
  now rewrite <- (stable_sort_Permutation pure a).
Qed.

Module SampleEngine.

#[export] Instance engine : Engine := {|
  number_text := Sample.show;
  lower_case_error := fun _ => "toLowerCase is not a function";
  primitive_error := fun _ => "Cannot convert object to primitive value";
  sort := Sample.sort;
  sort_consistent := fun cmp pure a Hpure _ => sample_sort_pure cmp pure a Hpure
|}.

#[export] Instance coercion : Coercion := {| to_number := Sample.read |}.

End SampleEngine.

(** ** The initial store, request by request *)

Import SampleEngine.

(** After [DELETE /api/books/4] the greatest identifier is 3, and the next
    book created gets 5, not 4. *)
Lemma post_book_id_after_delete :
  let st := (delete_book "4" initial).2 in
  reachable st
  /\ max_id (books st) = 3
  /\ status (post_book 2026 two_fields st).1 = 201
  /\ omap book_id (books st) = [1; 2; 3]
  /\ omap book_id (books (post_book 2026 two_fields st).2) = [1; 2; 3; 5].
Proof.
  split; [apply reach_delete_book, reach_initial|].
  now vm_compute.
Qed.

Lemma post_book_assigns_counter_witness :
  reachable initial
  /\ get_book "5" (post_book 2026 two_fields initial).2
     = json [("success", VBool true); ("pathParam", VStr "5");
             ("data", VObj (book 5 "T" "A" 2026 "General"))].
Proof.
  split; [apply reach_initial|].
  destruct (post_book_assigns_counter 2026 two_fields initial
              reach_initial eq_refl eq_refl)
    as (newBook & Heq & _ & _ & _ & Hget & _).
  injection Heq as <-. now apply Hget.
Defined.

(** A create that supplies [year: 0] and [genre: ""] stores the current
    year and "General". *)
Lemma post_book_falsy_year_replaced :
  let body := four_fields (VInt 0) "" in
  Js.has_key "year" body = true
  /\ Js.has_key "genre" body = true
  /\ status (post_book 2026 body initial).1 = 201
  /\ last (books (post_book 2026 body initial).2)
     = Some (book 5 "T" "A" 2026 "General").
Proof. now vm_compute. Qed.

Lemma post_book_defaults_witness :
  exists newBook,
    books (post_book 2026 (four_fields (VInt 1999) "Poetry") initial).2
    = books initial ++ [newBook]
    /\ Js.get "year" newBook = VInt 1999
    /\ Js.get "genre" newBook = VStr "Poetry".
Proof.
  destruct (post_book_defaults 2026 (four_fields (VInt 1999) "Poetry")
              initial eq_refl eq_refl)
    as (newBook & Hbooks & _ & Hyear & Hgenre & _).
  exists newBook. repeat split; assumption.
Defined.

(** A PUT that supplies all four fields, with [year: 0], is refused. *)
Lemma put_book_year_zero_refused :
  let body := four_fields (VInt 0) "G" in
  present "1" initial = true
  /\ forallb (fun k => Js.has_key k body)
       ["title"; "author"; "year"; "genre"] = true
  /\ status (put_book "1" body initial).1 = 400
  /\ (put_book "1" body initial).2 = initial.
Proof. now vm_compute. Qed.

Lemma put_book_replaces_witness :
  present "1" initial = true
  /\ get_book "1" (put_book "1" (four_fields (VInt 2025) "G") initial).2
     = json [("success", VBool true); ("pathParam", VStr "1");
             ("data", VObj (book 1 "T" "A" 2025 "G"))].
Proof.
  split; [reflexivity|].
  destruct (put_book_replaces "1" (four_fields (VInt 2025) "G") initial)
    as [_ Hpresent].
  destruct (Hpresent eq_refl) as (_ & _ & Hall).
  apply Hall. intros k Hk.
  rewrite !elem_of_cons, elem_of_nil in Hk.
  destruct Hk as [-> | [-> | [-> | [-> | []]]]]; reflexivity.
Defined.

Lemma patch_book_frame_witness :
  present "2" initial = true
  /\ exists current updated,
       Js.get "updated"
         (sent (patch_book "2" [("year", VInt 2030)] initial).1)
       = VObj updated
       /\ Js.get "fieldsChanged"
            (sent (patch_book "2" [("year", VInt 2030)] initial).1)
          = VArr [VStr "year"]
       /\ Js.get "id" updated = Js.get "id" current
       /\ Js.get "title" updated = Js.get "title" current
       /\ Js.get "author" updated = Js.get "author" current
       /\ Js.get "genre" updated = Js.get "genre" current
       /\ Js.get "year" updated = VInt 2030.
Proof.
  split; [reflexivity|].
  destruct (patch_book_frame "2" [("year", VInt 2030)] initial eq_refl)
    as (i & current & updated & _ & _ & Heq & Hkeep & Hset & _ & Hid & _).
  exists current, updated. rewrite Heq. repeat split.
  - now apply Hid, reach_initial.
  - now apply Hkeep.
  - now apply Hkeep.
  - now apply Hkeep.
  - now apply (Hset "year").
Defined.

Lemma delete_book_once_witness :
  reachable initial
  /\ present "3" initial = true
  /\ status (get_book "3" (delete_book "3" initial).2) = 404
  /\ delete_book "3" (delete_book "3" initial).2
     = (not_found, (delete_book "3" initial).2)
  /\ delete_book "9" initial = (not_found, initial).
Proof.
  split; [apply reach_initial|]. split; [reflexivity|].
  destruct (delete_book_once "3" initial) as [_ Hpresent].
  destruct (Hpresent reach_initial eq_refl)
    as (i & b & _ & _ & _ & _ & Hget & Hagain).
  destruct (delete_book_once "9" initial) as [Habsent _].
  destruct (Habsent eq_refl) as [Hnone _].
  repeat split; assumption.
Defined.



(** A segment such as "1abc" is no parse failure: [parseInt] reads the
    digits it starts with, and the book is found. *)
Example get_book_numeric_prefix :
  Js.parseInt "1abc" = of_Z 1 /\ status (get_book "1abc" initial) = 200.
Proof. split; reflexivity. Qed.

(** [GET /api/books?genre=Technology&limit=2]: two books, both of that
    genre whatever the case of the letters. *)
Example get_books_genre_limit :
  get_books [("genre", VStr "TECHNOLOGY"); ("limit", VStr "2")] initial
  = books_found [("genre", VStr "TECHNOLOGY"); ("limit", VStr "2")]
      [book 1 "The API Design Book" "RESTful Roy" 2020 "Technology";
       book 2 "HTTP: The Definitive Guide" "Web Walker" 2019 "Technology"].
Proof. reflexivity. Qed.

(** [GET /api/books?limit=] : the parameter is there, it reads as no
    number, and the answer carries all four books. *)
Lemma get_books_empty_limit :
  let query := [("limit", VStr "")] in
  Js.has_key "limit" query = true
  /\ string_of (Js.get "limit" query) = Return ""
  /\ Js.parseInt "" = NaN
  /\ get_books query initial = books_found query (books initial)
  /\ Js.get "count" (sent (get_books query initial)) = VInt 4.
Proof. now vm_compute. Qed.

Lemma get_books_unparsed_limit_witness :
  Js.parseInt "abc" = NaN
  /\ get_books [("limit", VStr "abc")] initial
     = books_found [("limit", VStr "abc")] [].
Proof.
  split; [reflexivity|].
  destruct (get_books_unparsed_limit [("limit", VStr "abc")] initial)
    as (_ & _ & _ & Hempty).
  - reflexivity.
  - now intros text [= <-].
  - now apply (Hempty "abc").
Defined.

(** An Authorization header that is present with an empty value is
    answered 401, not 403. *)
Lemma get_users_empty_header :
  let headers := [("authorization", VStr "")] in
  Js.has_key "authorization" headers = true
  /\ Js.get "authorization" headers <> VStr "Bearer secret-token-123"
  /\ status (get_users headers initial) = 401.
Proof. repeat split. discriminate. Qed.

Lemma get_users_auth_witness :
  status (get_users [] initial) = 401
  /\ status (get_users [("authorization", VStr "Bearer nope")] initial) = 403
  /\ get_users [("authorization", VStr "Bearer secret-token-123")] initial
     = json
         [("success", VBool true);
          ("message", VStr "Authentication successful!");
          ("data", VArr (map VObj (users initial)))].
Proof.
  destruct (get_users_auth [] initial) as (Habsent & _).
  destruct (get_users_auth [("authorization", VStr "Bearer nope")] initial)
    as (_ & _ & Hwrong & _).
  destruct (get_users_auth
              [("authorization", VStr "Bearer secret-token-123")] initial)
    as (_ & _ & _ & Hright).
  split; [now apply Habsent|]. split; [|now apply Hright].
  apply Hwrong; [reflexivity | discriminate].
Defined.

Lemma calculate_cases_witness :
  status (calculate [("operation", VStr "add"); ("a", VStr "7");
                     ("b", VInt 8)]) = 400
  /\ status (calculate [("operation", VStr "divide"); ("a", VInt 5);
                        ("b", VInt 0)]) = 400
  /\ status (calculate [("operation", VStr "power"); ("a", VInt 5);
                        ("b", VInt 2)]) = 400
  /\ Js.get "result"
       (sent (calculate [("operation", VStr "multiply"); ("a", VInt 7);
                         ("b", VInt 8)])) = VInt 56
  /\ calculate [("operation", VStr "subtract"); ("a", VInt 7);
                ("b", VInt 8)]
     = json [("success", VBool true); ("operation", VStr "subtract");
             ("a", VInt 7); ("b", VInt 8); ("result", VInt (-1));
             ("formula", VStr "7 subtract 8 = -1")]
  /\ Js.get "result"
       (sent (calculate [("operation", VStr "divide"); ("a", VInt 1);
                         ("b", VInt 3)]))
     = VNum (Fin (6004799503160661 # 18014398509481984)).
Proof.
  destruct (calculate_cases [("operation", VStr "add"); ("a", VStr "7");
                             ("b", VInt 8)]) as (Hnan & _).
  destruct (calculate_cases [("operation", VStr "divide"); ("a", VInt 5);
                             ("b", VInt 0)]) as (_ & Hzero & _).
  destruct (calculate_cases [("operation", VStr "power"); ("a", VInt 5);
                             ("b", VInt 2)]) as (_ & Hop & _).
  destruct (calculate_cases [("operation", VStr "multiply"); ("a", VInt 7);
                             ("b", VInt 8)]) as (_ & _ & _ & _ & Hmul).
  destruct (calculate_cases [("operation", VStr "subtract"); ("a", VInt 7);
                             ("b", VInt 8)]) as (_ & Hsub & _).
  destruct (calculate_cases [("operation", VStr "divide"); ("a", VInt 1);
                             ("b", VInt 3)]) as (_ & _ & Hquot & _).
  split; [|split; [|split; [|split; [|split]]]].
  - apply Hnan. left. intros x. discriminate.
  - destruct (Hzero (of_Z 5) (of_Z 0) eq_refl eq_refl) as (_ & Hdiv & _).
    now apply Hdiv.
  - destruct (Hop (of_Z 5) (of_Z 2) eq_refl eq_refl) as (Hunknown & _).
    apply Hunknown. simpl. intros [H | [H | [H | [H | []]]]]; discriminate.
  - now apply Hmul.
  - destruct (Hsub (of_Z 7) (of_Z 8) eq_refl eq_refl) as (_ & _ & Hres).
    apply (Hres "subtract" (of_Z (-1)) eq_refl). right. left. now split.
  - destruct (Hquot (inject_Z 1) (inject_Z 3) eq_refl eq_refl)
      as (_ & _ & _ & Hdiv).
    now apply Hdiv.
Defined.

(** The arithmetic is that of binary64. The operands 0.1 and 0.2 are the
    numbers nearest to 1/10 and 2/10, and their sum is
    0.30000000000000004, which is not the number nearest to 3/10; 2^53 + 1
    is 2^53; 10^308 times 10 is Infinity, and Infinity minus Infinity is
    [NaN]. *)
Example calculate_rounds :
  let result operation a b :=
    Js.get "result"
      (sent (calculate [("operation", VStr operation); ("a", VNum a);
                        ("b", VNum b)])) in
  result "add" (Binary64.round (1 # 10)) (Binary64.round (2 # 10))
  = VNum (Fin (1351079888211149 # 4503599627370496))
  /\ Binary64.round (3 # 10)
     = Fin (5404319552844595 # 18014398509481984)
  /\ result "add" (of_Z (2 ^ 53)) (of_Z 1) = VInt (2 ^ 53)
  /\ result "multiply" (Binary64.round (inject_Z (10 ^ 308))) (of_Z 10)
     = VNum (Inf false)
  /\ result "subtract" (Inf false) (Inf false) = VNum NaN.
Proof. now vm_compute. Qed.

(** ** The other routes and the invariants, on examples *)

Lemma books_in_id_order_witness :
  exists m n,
    Js.get "id" (book 1 "The API Design Book" "RESTful Roy" 2020 "Technology")
    = VInt m
    /\ Js.get "id" (book 3 "JavaScript Mastery" "Code Carter" 2021
                     "Programming") = VInt n
    /\ 0 < m /\ m < n /\ n < nextBookId initial.
Proof.
  apply (books_in_id_order initial 0 2);
    [apply reach_initial | lia | reflexivity | reflexivity].
Defined.

Lemma ids_never_reused_witness :
  let later := replay [DeleteBook "4"; PostBook 2026 two_fields] initial in
  nextBookId initial <= nextBookId later
  /\ exists b0, b0 ∈ books initial /\ Js.get "id" b0 = VInt 3.
Proof.
  destruct (ids_never_reused initial
              [DeleteBook "4"; PostBook 2026 two_fields] reach_initial)
    as [Hle Hold].
  split; [exact Hle|].
  apply (Hold (book 3 "JavaScript Mastery" "Code Carter" 2021 "Programming"));
    [|reflexivity | reflexivity].
  apply list_elem_of_further, list_elem_of_further, list_elem_of_here.
Defined.

Lemma refused_write_changes_nothing_witness :
  (handle (PostBook 2026 []) initial).2 = initial
  /\ (handle (PutBook "9" two_fields) initial).2 = initial.
Proof.
  split.
  - apply (proj1 (refused_write_changes_nothing (PostBook 2026 []) initial)).
    simpl. lia.
  - apply (proj1 (refused_write_changes_nothing (PutBook "9" two_fields)
                    initial)).
    simpl. lia.
Defined.

Lemma books_count_witness :
  length (books (post_book 2026 two_fields initial).2) = 5%nat
  /\ S (length (books (delete_book "2" initial).2)) = 4%nat.
Proof.
  destruct (books_count initial) as (Hpost & Hdelete & _).
  split; [now apply Hpost | now apply Hdelete].
Defined.

Lemma patch_book_idempotent_witness :
  let first := patch_book "2" [("year", VInt 2030)] initial in
  let second := patch_book "2" [("year", VInt 2030)] first.2 in
  second.2 = first.2
  /\ Js.get "previous" (sent second.1) = Js.get "updated" (sent first.1).
Proof.
  destruct (patch_book_idempotent "2" [("year", VInt 2030)] initial)
    as [Hstore Hanswer].
  split; [exact Hstore|]. now apply Hanswer.
Defined.

Lemma get_book_after_patch_witness :
  status (get_book "2" (patch_book "2" [("year", VInt 2030)] initial).2) = 200
  /\ Js.get "data"
       (sent (get_book "2" (patch_book "2" [("year", VInt 2030)] initial).2))
     = Js.get "updated" (sent (patch_book "2" [("year", VInt 2030)] initial).1).
Proof. now apply get_book_after_patch. Defined.

Lemma get_book_of_another_id_witness :
  get_book "1" (delete_book "2" initial).2 = get_book "1" initial
  /\ get_book "1" (post_book 2026 two_fields initial).2
     = get_book "1" initial.
Proof.
  destruct (get_book_of_another_id "2" "1" two_fields initial reach_initial)
    as [Hother Hcreate].
  split.
  - apply Hother. discriminate.
  - now apply Hcreate.
Defined.

Lemma get_book_trailing_text_witness :
  Js.parseInt "2abc" = of_Z 2
  /\ status (get_book "2abc" initial) = status (get_book "2" initial).
Proof.
  destruct (get_book_trailing_text 2 "abc" initial)
    as (_ & Hparse & Hstatus & _); [lia | reflexivity |].
  split; [apply Hparse; lia | exact Hstatus].
Defined.

Lemma get_books_sorted_witness :
  (exists sorted,
     get_books [("sort", VStr "year")] initial
     = books_found [("sort", VStr "year")] sorted
     /\ sorted ≡ₚ books initial
     /\ StronglySorted
          (fun a b =>
             Num.le (as_number (Js.get "year" a))
               (as_number (Js.get "year" b)) = true)
          sorted)
  /\ omap book_id
       (books_of (Js.get "data"
                    (sent (get_books [("sort", VStr "year")] initial))))
     = [2; 1; 3; 4].
Proof.
  split; [|reflexivity].
  destruct (get_books_sorted [("sort", VStr "year")] initial (books initial)
              eq_refl eq_refl eq_refl) as (_ & Hnumbers & _).
  apply (Hnumbers "year"); [reflexivity|].
  repeat constructor; eexists; (split; [reflexivity | discriminate]).
Defined.

Lemma get_books_by_genre_witness :
  get_books [("genre", VStr "TECHNOLOGY")] initial
  = books_found [("genre", VStr "TECHNOLOGY")]
      (List.filter (of_genre "TECHNOLOGY") (books initial))
  /\ List.filter (of_genre "technology") (books initial)
     = List.filter (of_genre "TECHNOLOGY") (books initial).
Proof.
  destruct (get_books_by_genre [("genre", VStr "TECHNOLOGY")] "TECHNOLOGY"
              initial) as (Heq & _ & _ & Hcase);
    [repeat constructor; eexists; reflexivity
    | reflexivity | discriminate | reflexivity | reflexivity |].
  split; [exact Heq | exact Hcase].
Defined.


Lemma get_books_after_bad_genre_witness :
  status (get_books [("genre", VStr "Technology")]
            (patch_book "1" [("genre", VInt 5)] initial).2) = 500.
Proof.
  destruct (get_books_after_bad_genre "1" [("genre", VInt 5)]
              [("genre", VStr "Technology")] initial) as [_ Hbroken];
    [reflexivity | reflexivity | discriminate | reflexivity |].
  exact Hbroken.
Defined.

Lemma initial_textual : Forall textual (books initial).
Proof.
  repeat constructor; eexists _, _, _;
    (split; [|split]); reflexivity.
Defined.

Lemma initial_dated : Forall dated (books initial).
Proof. repeat constructor. Defined.

Lemma get_search_meets_witness :
  get_search [("q", VStr "API"); ("minYear", VStr "2020")] initial
  = search_found [("q", VStr "API"); ("minYear", VStr "2020")]
      (List.filter (meets [("q", VStr "API"); ("minYear", VStr "2020")])
         (books initial)).
Proof.
  apply get_search_meets.
  - exact initial_textual.
  - exact initial_dated.
  - right. eexists. reflexivity.
  - right. eexists. reflexivity.
  - now left.
  - now left.
Defined.

Lemma get_search_sublist_witness :
  exists results,
    get_search [("author", VStr "roy")] initial
    = search_found [("author", VStr "roy")] results
    /\ sublist results (books initial)
    /\ Js.get "resultsFound"
         (sent (get_search [("author", VStr "roy")] initial))
       = VInt (Z.of_nat (length results)).
Proof. now apply get_search_sublist. Defined.

Lemma get_search_unparsed_year_witness :
  get_search [("minYear", VStr "abc")] initial
  = search_found [("minYear", VStr "abc")] [].
Proof.
  apply get_search_unparsed_year; [|reflexivity].
  left. split; [reflexivity|]. now intros text [= <-].
Defined.

Lemma get_search_after_bad_title_witness :
  status
    (get_search [("q", VStr "api")]
       (post_book 2026 [("title", VInt 5); ("author", VStr "A")] initial).2)
  = 500.
Proof.
  destruct (get_search_after_bad_title 2026
              [("title", VInt 5); ("author", VStr "A")]
              [("q", VStr "api")] initial) as [_ Hbroken];
    [reflexivity | reflexivity | discriminate | reflexivity |].
  exact Hbroken.
Defined.

Lemma users_numbered_witness :
  nextUserId (post_user key_header new_user initial).2 = 4
  /\ forall k u,
       users (post_user key_header new_user initial).2 !! k = Some u ->
       Js.get "id" u = VInt (Z.of_nat k + 1).
Proof.
  destruct (users_numbered (post_user key_header new_user initial).2)
    as (_ & Hnext & Hids).
  - apply reach_post_user, reach_initial.
  - split; [exact Hnext | exact Hids].
Defined.

Lemma post_user_then_listed_witness :
  status (post_user [] new_user initial).1 = 401
  /\ status (post_user key_header new_user initial).1 = 201
  /\ users (post_user key_header new_user initial).2
     = users initial
       ++ [[("id", VInt 3); ("username", VStr "newuser");
            ("email", VStr "newuser@example.com");
            ("role", VStr "student")]].
Proof.
  destruct (post_user_then_listed [] new_user initial) as [Hnokey _].
  destruct (post_user_then_listed key_header new_user initial)
    as [_ Hkey].
  destruct (Hkey eq_refl eq_refl eq_refl) as (Hstatus & _ & Husers & _).
  split; [|split; [exact Hstatus | exact Husers]].
  apply Hnokey. discriminate.
Defined.

Lemma get_status_echoes_witness :
  Js.get "meaning" (get_status "999").2 = VStr "Unknown"
  /\ (get_status (Decimal.show 418)).1 = of_Z 418.
Proof.
  destruct (get_status_echoes "999") as (_ & _ & _ & Hunknown & Hany).
  split; [|apply Hany; simpl; lia].
  apply Hunknown. intros (e & He & Heq).
  unfold statusMessages in He. rewrite !elem_of_cons, elem_of_nil in He.
  repeat destruct He as [-> | He]; try discriminate. exact He.
Defined.

Lemma get_slow_delay_witness :
  (exists delay,
     (get_slow "t" [("delay", VStr "20000")]).1 = Some delay
     /\ delay = of_Z 10000)
  /\ (get_slow "t" []).1 = Some (of_Z 3000)
  /\ (get_slow "t" [("delay", VObj [("toString", VStr "1")])]).1 = None
  /\ status (get_slow "t" [("delay", VObj [("toString", VStr "1")])]).2
     = 500.
Proof.
  destruct (get_slow_delay "t" [("delay", VStr "20000")])
    as (_ & _ & _ & Hread).
  destruct (get_slow_delay "t" []) as (_ & _ & Habsent & _).
  destruct (get_slow_delay "t" [("delay", VObj [("toString", VStr "1")])])
    as (_ & Hthrows & _).
  split; [|split].
  - destruct (Hread "20000" eq_refl) as (delay & Heq & _ & _ & Hcut & _).
    exists delay. rewrite Heq. split; [reflexivity|].
    apply (Hcut 20000); [reflexivity | lia].
  - now rewrite Habsent.
  - now apply (Hthrows [("toString", VStr "1")]).
Defined.

Lemma sevenths_range k : (0 <= sevenths k)%Q /\ (sevenths k < 1)%Q.
Proof.
  unfold sevenths, Qle, Qlt. simpl.
  pose proof (Z.mod_pos_bound (Z.of_nat k) 7). lia.
Defined.

Lemma get_random_ranges_witness :
  (exists n, Js.get "randomNumber" (sent (get_random sevenths "t")) = VInt n
             /\ 0 <= n <= 999)
  /\ Js.get "randomQuote" (sent (get_random sevenths "t")) ∈ quotes
  /\ Js.get "randomColor" (sent (get_random sevenths "t")) ∈ colors.
Proof. apply get_random_ranges, sevenths_range. Defined.

Lemma get_random_uuid_witness :
  exists uuid,
    Js.get "uuid" (sent (get_random sevenths "t")) = VStr uuid
    /\ String.length uuid = 36%nat
    /\ String.get 14 uuid = Some "4"%char.
Proof.
  destruct (get_random_uuid sevenths "t" sevenths_range)
    as (uuid & Heq & _ & Hlen & Hfour & _).
  exists uuid. split; [exact Heq|]. split; [exact Hlen | exact Hfour].
Defined.
